(** * DOM overlay utilities: [src/utils/dom.js]

    A shallow embedding of the overlay helpers of the accessibility
    bookmarklets ([isVisible], [countChildrenWithTagNames],
    [isDescendantOf], [hasParentWithName], [addNodes], [removeNodes],
    [getAllDocuments]) over a model of the live page, and the properties
    of these functions.

    The page is a store of documents.  A document is a tree of elements;
    every element carries an identity ([uid]), which is how a JavaScript
    reference to a node is represented: a handle obtained from a query is
    looked up again in the live tree whenever the code reads through it.
    Statements run in a state-and-exception monad in which the page
    survives a throw, as the DOM does. *)

From Stdlib Require Import String Ascii List Arith Lia Bool ZArith.
From stdpp Require Import base list strings relations.

Open Scope string_scope.
Open Scope list_scope.
Set Warnings "-register-all".

(* ================================================================== *)
(** ** Strings *)

Definition lowerAscii (c : ascii) : ascii :=
  let n := nat_of_ascii c in
  if ((65 <=? n) && (n <=? 90))%nat then ascii_of_nat (n + 32) else c.

Definition upperAscii (c : ascii) : ascii :=
  let n := nat_of_ascii c in
  if ((97 <=? n) && (n <=? 122))%nat then ascii_of_nat (n - 32) else c.

(** The ASCII lowering, by which the DOM and selectors compare element
    names and, in quirks mode, class names; other bytes are left as they
    are. *)
Fixpoint toLowerCase (s : string) : string :=
  match s with
  | EmptyString => EmptyString
  | String c r => String (lowerAscii c) (toLowerCase r)
  end.

Fixpoint toUpperCase (s : string) : string :=
  match s with
  | EmptyString => EmptyString
  | String c r => String (upperAscii c) (toUpperCase r)
  end.

(** JavaScript truthiness of a string: the empty string is falsy. *)
Definition truthy (s : string) : bool :=
  match s with EmptyString => false | String _ _ => true end.

Definition dquote : string := String (ascii_of_nat 34) EmptyString.

(** The href of the shared stylesheet, and the attribute selector
    [[href="..."]] that [addNodes] passes to [querySelector]. *)
Definition stylesHref : string :=
  "https://accessibility-bookmarklets.org/build/styles.css".

Definition stylesSelector : string :=
  "[href=" +:+ dquote +:+ stylesHref +:+ dquote +:+ "]".

(** A class name that can follow [div.] in a selector as it stands: a
    letter or underscore, then letters, digits, hyphens, underscores. *)
Definition isNameStart (c : ascii) : bool :=
  let n := nat_of_ascii c in
  (((65 <=? n) && (n <=? 90)) || ((97 <=? n) && (n <=? 122)) || (n =? 95))%nat.

Definition isNameChar (c : ascii) : bool :=
  let n := nat_of_ascii c in
  isNameStart c || ((48 <=? n) && (n <=? 57))%nat || (n =? 45)%nat.

Fixpoint allChars (p : ascii -> bool) (s : string) : bool :=
  match s with
  | EmptyString => true
  | String c r => p c && allChars p r
  end.

Definition isClassName (s : string) : bool :=
  match s with
  | EmptyString => false
  | String c r => isNameStart c && allChars isNameChar r
  end.

(** A string is written as a sequence of bytes in which the ASCII
    characters stand for themselves and the other characters take bytes
    above 127. *)
Definition isAsciiChar (c : ascii) : bool := (nat_of_ascii c <? 128)%nat.

Definition isAsciiString (s : string) : bool := allChars isAsciiChar s.

(** [String.prototype.toLowerCase], which lowers every cased letter of
    the string, the ASCII ones and the others.  It is an interface, of
    which this is fixed: on a string of ASCII characters it is the ASCII
    lowering; its result has no ASCII capital; it gives the empty string
    for the empty string only. *)
Class StringModule := {
  String_prototype_toLowerCase : string -> string;
  toLowerCase_of_ascii :
    forall s, isAsciiString s = true -> String_prototype_toLowerCase s = toLowerCase s;
  toLowerCase_no_capital :
    forall s, toLowerCase (String_prototype_toLowerCase s) = String_prototype_toLowerCase s;
  toLowerCase_nonempty :
    forall s, String_prototype_toLowerCase s = "" -> s = ""
}.

(* ================================================================== *)
(** ** The page *)

Definition DocId := nat.

(** Top, left, width, height of [getBoundingClientRect]. *)
Definition Rect : Type := Z * Z * Z * Z.

(** What the code can read off one element.  [display] and [visibility]
    are what [getComputedStyle] reports for it; they are data of the
    element, which the insertion of another node does not change (the
    inserted stylesheet is loaded after the pass; rules that look at the
    siblings of an element are outside the model).  [frameDoc] is the
    document behind [contentWindow.document], [None] when that access
    throws (a cross-origin frame, or an element that has no
    [contentWindow]). *)
Record ElemData := mkElemData {
  uid : nat;
  tagName : string;
  classList : list string;
  attributes : list (string * string);
  display : string;
  visibility : string;
  frameDoc : option DocId;
  rect : Rect;
  dragAndDrop : bool
}.

(** Text and comment nodes are left out: [querySelectorAll],
    [firstElementChild], [parentNode] of an element, [appendChild] and
    [removeChild] of an element never observe them. *)
Inductive Element := Node (data : ElemData) (childNodes : list Element).

Definition data (x : Element) : ElemData := match x with Node d _ => d end.
Definition childNodes (x : Element) : list Element :=
  match x with Node _ ks => ks end.

(** A Document node has at most one element child.  [quirks] tells
    whether the document is in quirks mode ([compatMode] is
    [BackCompat]), in which class selectors compare class names whatever
    the case of their ASCII letters. *)
Record Document := mkDocument { quirks : bool; documentElement : option Element }.

Definition emptyDocument : Document := mkDocument false None.

(** The documents of the page, the reachable ones and the others, by
    number; a number with no document stands for a document with no
    element.  [nextId] is the identity the next created node receives. *)
Record Page := mkPage { docs : list Document; nextId : nat }.

(** The global [document]. *)
Definition document : DocId := 0.

Definition docOf (pg : Page) (d : DocId) : Document :=
  default emptyDocument (docs pg !! d).

Definition setDoc (d : DocId) (doc : Document) (pg : Page) : Page :=
  mkPage (<[d := doc]> (docs pg)) (nextId pg).

(** A node as a reference sees it: itself and its [parentNode] links, up
    to the Document node, or to [null] for a detached subtree. *)
Inductive NodeRef :=
| RNull
| RDocument
| RElement (e : ElemData) (parentNode : NodeRef).

Fixpoint getAttribute (name : string) (attrs : list (string * string)) : option string :=
  match attrs with
  | [] => None
  | (k, v) :: r => if String.eqb k name then Some v else getAttribute name r
  end.

Definition setAttribute (name value : string) (e : ElemData) : ElemData :=
  mkElemData (uid e) (tagName e) (classList e)
    ((name, value) :: List.filter (fun kv => negb (String.eqb (fst kv) name)) (attributes e))
    (display e) (visibility e) (frameDoc e) (rect e) (dragAndDrop e).

(** Document order. *)
Fixpoint preorder (x : Element) : list ElemData :=
  match x with
  | Node d ks => d :: flat_map preorder ks
  end.

Definition elements (doc : Document) : list ElemData :=
  match documentElement doc with
  | None => []
  | Some r => preorder r
  end.

(** Resolving a handle in the live tree: the node with that identity,
    with its ancestors. *)
Fixpoint locate (u : nat) (up : NodeRef) (x : Element) : option NodeRef :=
  match x with
  | Node d ks =>
      if (uid d =? u)%nat then Some (RElement d up)
      else
        (fix inChildren (l : list Element) : option NodeRef :=
           match l with
           | [] => None
           | k :: r =>
               match locate u (RElement d up) k with
               | Some found => Some found
               | None => inChildren r
               end
           end) ks
  end.

Definition refOf (doc : Document) (e : ElemData) : NodeRef :=
  match documentElement doc with
  | None => RElement e RNull
  | Some r =>
      match locate (uid e) RDocument r with
      | Some found => found
      | None => RElement e RNull
      end
  end.

(** An element name as selectors and [doc.body] compare it in an HTML
    document: ASCII case-insensitively. *)
Definition tagIs (name : string) (e : ElemData) : bool :=
  String.eqb (toLowerCase (tagName e)) name.

Definition hasClass (c : string) (e : ElemData) : bool :=
  existsb (String.eqb c) (classList e).

(** The class test of a class selector: letter for letter, and in a
    quirks-mode document whatever the case of the ASCII letters. *)
Definition hasClassFolded (c : string) (e : ElemData) : bool :=
  existsb (fun k => String.eqb (toLowerCase c) (toLowerCase k)) (classList e).

Definition hasClassIn (quirks : bool) (c : string) (e : ElemData) : bool :=
  if quirks then hasClassFolded c e else hasClass c e.

Definition hasAttr (name value : string) (e : ElemData) : bool :=
  match getAttribute name (attributes e) with
  | Some v => String.eqb v value
  | None => false
  end.

(* ================================================================== *)
(** ** The selector engine of the browser

    [compile sel] is [None] when [sel] is not a selector: the query then
    throws a [SyntaxError].  Otherwise it is the test the query applies
    to each element of the document.  The engine is an interface; all
    that is fixed is the meaning of the three selectors that [dom.js]
    itself writes. *)

Class SelectorEngine := {
  compile : string -> option (Document -> ElemData -> bool);
  compile_iframe :
    exists m, compile "iframe" = Some m /\
      forall doc e, m doc e = tagIs "iframe" e;
  compile_styles :
    exists m, compile stylesSelector = Some m /\
      forall doc e, m doc e = hasAttr "href" stylesHref e;
  compile_div_class :
    forall c, isClassName c = true ->
      exists m, compile ("div." +:+ c) = Some m /\
        forall doc e, m doc e = tagIs "div" e && hasClassIn (quirks doc) c e
}.

(** The module [./info], whose source is not at hand: the type of what
    [getInfo] returns, and [formatInfo]. *)
Class InfoModule := {
  Info : Type;
  formatInfo : Info -> string
}.

(* ================================================================== *)
(** ** Statements: state and exceptions *)

Inductive Exn :=
| SyntaxError
| TypeError
| NotFoundError
| SecurityError
| Thrown (what : string).

Inductive Outcome (A : Type) :=
| Val (a : A)
| Exc (x : Exn).
Arguments Val {A} a.
Arguments Exc {A} x.

Definition M (S A : Type) : Type := S -> Outcome A * S.

Definition ret {S A} (a : A) : M S A := fun s => (Val a, s).

Definition throw {S A} (x : Exn) : M S A := fun s => (Exc x, s).

Definition bind {S A B} (m : M S A) (k : A -> M S B) : M S B :=
  fun s =>
    match m s with
    | (Val a, s') => k a s'
    | (Exc x, s') => (Exc x, s')
    end.

Notation "'let*' x ':=' m 'in' k" := (bind m (fun x => k))
  (at level 10, x name, m at level 100, k at level 200).

Definition tryCatch {S A} (m : M S A) (handler : Exn -> M S A) : M S A :=
  fun s =>
    match m s with
    | (Val a, s') => (Val a, s')
    | (Exc x, s') => handler x s'
    end.

Definition liftOutcome {S A} (o : Outcome A) : M S A := fun s => (o, s).

Definition getState {S} : M S S := fun s => (Val s, s).

(** [Array.prototype.forEach]: a throw in the callback ends the loop. *)
Fixpoint forEach {S A} (f : A -> M S unit) (l : list A) : M S unit :=
  match l with
  | [] => ret tt
  | x :: r => let* _ := f x in forEach f r
  end.

(** [Array.prototype.filter]: a throw in the callback ends it. *)
Fixpoint filterM {S A} (f : A -> M S bool) (l : list A) : M S (list A) :=
  match l with
  | [] => ret []
  | x :: r =>
      let* keep := f x in
      let* rest := filterM f r in
      ret (if keep then x :: rest else rest)
  end.

(** [Array.prototype.map]. *)
Fixpoint mapM {S A B} (f : A -> M S B) (l : list A) : M S (list B) :=
  match l with
  | [] => ret []
  | x :: r => let* y := f x in let* ys := mapM f r in ret (y :: ys)
  end.

(* ================================================================== *)
(** ** The DOM interface, as far as [dom.js] calls it *)

Section Dom.
Context {engine : SelectorEngine} {info : InfoModule} {strings : StringModule}.

(** [doc.querySelectorAll(sel)]: a static list, in document order. *)
Definition querySelectorAll (doc : DocId) (sel : string) : M Page (list ElemData) :=
  fun pg =>
    match compile sel with
    | None => (Exc SyntaxError, pg)
    | Some m => (Val (List.filter (m (docOf pg doc)) (elements (docOf pg doc))), pg)
    end.

(** [doc.querySelector(sel)]: the first match, or [null]. *)
Definition querySelector (doc : DocId) (sel : string) : M Page (option ElemData) :=
  let* found := querySelectorAll doc sel in ret (head found).

(** The display a freshly created element computes to under the
    user-agent sheet: a [link] is not rendered. *)
Definition initialDisplay (localName : string) : string :=
  if String.eqb (toLowerCase localName) "link" then "none" else "block".

(** [doc.createElement(name)] in an HTML document: a detached element
    with a new identity. *)
Definition createElement (doc : DocId) (localName : string) : M Page Element :=
  fun pg =>
    (Val (Node (mkElemData (nextId pg) (toUpperCase localName) [] []
                  (initialDisplay localName) "visible" None (0, 0, 0, 0)%Z false) []),
     mkPage (docs pg) (S (nextId pg))).

(** [doc.firstElementChild]. *)
Definition firstElementChild (doc : DocId) : M Page (option ElemData) :=
  fun pg => (Val (option_map data (documentElement (docOf pg doc))), pg).

(** [doc.firstElementChild.prepend(x)], once the root is known to be
    there. *)
Definition prependTo (x : Element) (doc : Document) : Document :=
  match documentElement doc with
  | Some (Node r ks) => mkDocument (quirks doc) (Some (Node r (x :: ks)))
  | None => doc
  end.

Definition firstElementChild_prepend (doc : DocId) (x : Element) : M Page unit :=
  fun pg =>
    match documentElement (docOf pg doc) with
    | Some _ => (Val tt, setDoc doc (prependTo x (docOf pg doc)) pg)
    | None => (Exc TypeError, pg)
    end.

Definition isBodyTag (x : Element) : bool :=
  tagIs "body" (data x) || tagIs "frameset" (data x).

(** [doc.body]: the first [body] or [frameset] child of the [html] root,
    or [null]. *)
Definition body (doc : Document) : option Element :=
  match documentElement doc with
  | Some (Node r ks) => if tagIs "html" r then List.find isBodyTag ks else None
  | None => None
  end.

(** Rewrites the first element of [l] that satisfies [p]. *)
Fixpoint onFirst {A} (p : A -> bool) (f : A -> A) (l : list A) : list A :=
  match l with
  | [] => []
  | x :: r => if p x then f x :: r else x :: onFirst p f r
  end.

(** Rewrites the node [doc.body] denotes. *)
Definition onBody (f : Element -> Element) (doc : Document) : Document :=
  match documentElement doc with
  | Some (Node r ks) =>
      if tagIs "html" r
      then mkDocument (quirks doc) (Some (Node r (onFirst isBodyTag f ks)))
      else doc
  | None => doc
  end.

Definition addChild (x : Element) (parent : Element) : Element :=
  Node (data parent) (childNodes parent ++ [x]).

(** Takes out the first child with identity [u]. *)
Fixpoint dropChild (u : nat) (l : list Element) : list Element :=
  match l with
  | [] => []
  | k :: r => if (uid (data k) =? u)%nat then r else k :: dropChild u r
  end.

Definition withoutChild (u : nat) (parent : Element) : Element :=
  Node (data parent) (dropChild u (childNodes parent)).

Definition isChildOf (u : nat) (parent : Element) : bool :=
  existsb (fun k => (uid (data k) =? u)%nat) (childNodes parent).

(** [doc.body.appendChild(x)] for a detached [x]: a [TypeError] when
    [doc.body] is [null]. *)
Definition body_appendChild (doc : DocId) (x : Element) : M Page unit :=
  fun pg =>
    match body (docOf pg doc) with
    | None => (Exc TypeError, pg)
    | Some _ => (Val tt, setDoc doc (onBody (addChild x) (docOf pg doc)) pg)
    end.

(** [doc.body.removeChild(element)]: a [TypeError] when [doc.body] is
    [null], a [NotFoundError] when [element] is not a child of the body. *)
Definition body_removeChild (doc : DocId) (element : ElemData) : M Page unit :=
  fun pg =>
    match body (docOf pg doc) with
    | None => (Exc TypeError, pg)
    | Some b =>
        if isChildOf (uid element) b
        then (Val tt, setDoc doc (onBody (withoutChild (uid element)) (docOf pg doc)) pg)
        else (Exc NotFoundError, pg)
    end.

(** [iframe.contentWindow.document]. *)
Definition contentWindow_document (iframe : ElemData) : M Page DocId :=
  match frameDoc iframe with
  | Some d => ret d
  | None => throw SecurityError
  end.

(* ================================================================== *)
(** ** The module [./overlay], whose source is not at hand *)

(** A target descriptor: [selector], and [filter] when it is a function
    (it reads the document and the element, and returns a truth value or
    throws). *)
Record Target := mkTarget {
  selector : string;
  filter : option (Document -> ElemData -> Outcome bool)
}.

(** Modelled from the spec: [createOverlay] of [./overlay] is missing.
    The spec has it create "an overlay node positioned to that rectangle,
    tagged with the marker class", which removal later selects as a [div]
    with that class, and which carries a label (the node whose tooltip
    [addNodes] sets).  The overlay is a detached [div] with the marker
    class and the rectangle, and one child, the label, which has no class. *)
Definition createOverlay (target : Target) (r : Rect) (cssClass : string)
    (doc : DocId) : M Page Element :=
  let* node := createElement doc "div" in
  let* label := createElement doc "div" in
  let d := data node in
  ret (Node (mkElemData (uid d) (tagName d) [cssClass] (attributes d)
               (display d) (visibility d) (frameDoc d) r (dragAndDrop d))
            [label]).

(** Modelled from the spec: [addDragAndDrop] of [./overlay] is missing.
    The spec has it "attach drag-and-drop behavior to the overlay"; the
    tree is left as it is. *)
Definition addDragAndDrop (overlayNode : Element) : Element :=
  let d := data overlayNode in
  Node (mkElemData (uid d) (tagName d) (classList d) (attributes d)
          (display d) (visibility d) (frameDoc d) (rect d) true)
       (childNodes overlayNode).

(** [overlayNode.firstChild.title = text]: a [TypeError] when there is no
    first child. *)
Definition setFirstChildTitle (text : string) (overlayNode : Element) : Outcome Element :=
  match childNodes overlayNode with
  | [] => Exc TypeError
  | Node l lk :: r => Val (Node (data overlayNode) (Node (setAttribute "title" text l) lk :: r))
  end.

(* ================================================================== *)
(** ** [dom.js] *)

(** [isVisible], lines 28-47.  The walk throws a [TypeError] when it
    arrives at [null], which is where the [parentNode] links of a
    detached element end. *)
Fixpoint isVisibleRec (el : NodeRef) : Outcome bool :=
  match el with
  | RNull => Exc TypeError
  | RDocument => Val true
  | RElement e parentNode =>
      let display := display e in
      let visibility := visibility e in
      let hidden := getAttribute "hidden" (attributes e) in
      let ariaHidden := getAttribute "aria-hidden" (attributes e) in
      if String.eqb display "none" || String.eqb visibility "hidden"
         || match hidden with Some _ => true | None => false end
         || match ariaHidden with Some v => String.eqb v "true" | None => false end
      then Val false
      else isVisibleRec parentNode
  end.

Definition isVisible (element : NodeRef) : Outcome bool := isVisibleRec element.

(** [element.parentElement]: the parent when it is an element. *)
Definition parentElement (element : NodeRef) : option ElemData :=
  match element with
  | RElement _ (RElement p _) => Some p
  | _ => None
  end.

(** [hasParentWithName], lines 81-87. *)
Definition hasParentWithName (element : NodeRef) (tagNames : list string) : Outcome bool :=
  match parentElement element with
  | None => Exc TypeError
  | Some p =>
      let parentTagName := String_prototype_toLowerCase (tagName p) in
      if truthy parentTagName
      then Val (existsb (fun name => String.eqb parentTagName name) tagNames)
      else Val false
  end.

(** [getAllDocuments], lines 176-185. *)
Definition getAllDocuments : M Page (list DocId) :=
  let* iframes := querySelectorAll document "iframe" in
  let* found :=
    mapM (fun iframe =>
            tryCatch (let* d := contentWindow_document iframe in ret (Some d))
                     (fun error => ret None))
         iframes in
  ret (document :: omap id found).

(** The argument of [addNodes].  The callbacks read the live document of
    the element they are given and may throw, and they leave the page as
    it is; [evalInfo] returns the info as it has left it.  A [getInfo]
    that is not a function is one that throws a [TypeError] when called;
    [None] for [evalInfo] is a falsy value. *)
Record Params := mkParams {
  targetList : list Target;
  cssClass : string;
  getInfo : Document -> ElemData -> Target -> Outcome Info;
  evalInfo : option (Info -> Target -> Outcome Info);
  dndFlag : bool
}.

(** The frame of one call of [addNodes]: the page and the local
    [counter]. *)
Record AddState := mkAddState { page : Page; counter : nat }.

Definition liftPage {A} (m : M Page A) : M AddState A :=
  fun st =>
    match m (page st) with
    | (o, pg) => (o, mkAddState pg (counter st))
    end.

Definition incrCounter : M AddState unit :=
  fun st => (Val tt, mkAddState (page st) (counter st + 1)).

(** Lines 109-117: the stylesheet link. *)
Definition injectStylesheet (doc : DocId) : M Page unit :=
  let* found := querySelector doc stylesSelector in
  match found with
  | Some _ => ret tt
  | None =>
      let* link := createElement doc "link" in
      let link :=
        Node (setAttribute "href" stylesHref
                (setAttribute "type" "text/css"
                   (setAttribute "rel" "stylesheet" (data link))))
             (childNodes link) in
      let* root := firstElementChild doc in
      match root with
      | Some _ => firstElementChild_prepend doc link
      | None => ret tt
      end
  end.

(** Lines 125-147: the callback of [elements.forEach]. *)
Definition perElement (p : Params) (doc : DocId) (target : Target) (element : ElemData)
    : M AddState unit :=
  let* st := getState in
  let* visible := liftOutcome (isVisible (refOf (docOf (page st) doc) element)) in
  if negb visible then ret tt
  else
    let* info := liftOutcome (getInfo p (docOf (page st) doc) element target) in
    let* info :=
      match evalInfo p with
      | Some f => liftOutcome (f info target)
      | None => ret info
      end in
    let* overlayNode :=
      liftPage (createOverlay target (rect element) (cssClass p) doc) in
    let overlayNode := if dndFlag p then addDragAndDrop overlayNode else overlayNode in
    let* overlayNode := liftOutcome (setFirstChildTitle (formatInfo info) overlayNode) in
    let* _ := liftPage (body_appendChild doc overlayNode) in
    incrCounter.

(** Lines 119-148: the callback of [targetList.forEach]. *)
Definition perTarget (p : Params) (doc : DocId) (target : Target) : M AddState unit :=
  let* elements := liftPage (querySelectorAll doc (selector target)) in
  let* st := getState in
  let* elements :=
    match filter target with
    | Some f =>
        filterM (fun element => liftOutcome (f (docOf (page st) doc) element)) elements
    | None => ret elements
    end in
  forEach (perElement p doc target) elements.

(** Lines 108-149: the callback of [getAllDocuments().forEach]. *)
Definition perDocument (p : Params) (doc : DocId) : M AddState unit :=
  let* _ := liftPage (injectStylesheet doc) in
  forEach (perTarget p doc) (targetList p).

(** [addNodes], lines 105-152.  The result comes with the frame in which
    the call ended, so that the page can be inspected after a throw. *)
Definition addNodes (p : Params) (pg : Page) : Outcome nat * AddState :=
  (let* documents := liftPage getAllDocuments in
   let* _ := forEach (perDocument p) documents in
   let* st := getState in
   ret (counter st)) (mkAddState pg 0).

(** Lines 165-168: the callback of [getAllDocuments().forEach]. *)
Definition removeFrom (selector : string) (doc : DocId) : M Page unit :=
  let* elements := querySelectorAll doc selector in
  forEach (fun element => body_removeChild doc element) elements.

(** [removeNodes], lines 162-170. *)
Definition removeNodes (cssClass : string) : M Page unit :=
  let selector := "div." +:+ cssClass in
  let* documents := getAllDocuments in
  forEach (removeFrom selector) documents.

End Dom.

(* ================================================================== *)
(** ** [dom.js]: the helpers on element names *)

(** [Array.prototype.indexOf] on an array of strings: the first index at
    which [x] stands, by strict equality, or [-1]. *)
Fixpoint indexOfFrom (i : Z) (l : list string) (x : string) : Z :=
  match l with
  | [] => (-1)%Z
  | y :: r => if String.eqb y x then i else indexOfFrom (i + 1)%Z r x
  end.

Definition indexOf (l : list string) (x : string) : Z := indexOfFrom 0%Z l x.

(** [Array.prototype.some]: it stops at the first callback that returns
    true, and a throw in a callback ends it. *)
Fixpoint some {A} (f : A -> Outcome bool) (l : list A) : Outcome bool :=
  match l with
  | [] => Val false
  | x :: r =>
      match f x with
      | Val true => Val true
      | Val false => some f r
      | Exc e => Exc e
      end
  end.

(** Lines 58-61: the [while] loop.  The variable [child] is a position
    among the element children of [element]: the child followed by its
    later siblings, [null] being the empty list, so that
    [child.nextElementSibling] is the tail. *)
Fixpoint countLoop (tagNames : list string) (child : list Element) (count : nat) : nat :=
  match child with
  | [] => count
  | c :: nextElementSibling =>
      let count :=
        if (indexOf tagNames (tagName (data c)) >? -1)%Z then count + 1 else count in
      countLoop tagNames nextElementSibling count
  end.

(** [countChildrenWithTagNames], lines 54-64, for an element of the
    tree. *)
Definition countChildrenWithTagNames (element : Element) (tagNames : list string) : nat :=
  let count := 0 in
  let child := childNodes element in
  countLoop tagNames child count.

Section Closest.
Context {engine : SelectorEngine}.

(** The walk of [element.closest]: the element itself, then its
    ancestors, up to the first one that the selector matches. *)
Fixpoint closestFrom (m : ElemData -> bool) (el : NodeRef) : option ElemData :=
  match el with
  | RElement e parentNode => if m e then Some e else closestFrom m parentNode
  | _ => None
  end.

(** [element.closest(sel)] for an element of the document [doc]: a
    [SyntaxError] when [sel] is not a selector. *)
Definition closest (doc : Document) (element : NodeRef) (sel : string)
    : Outcome (option ElemData) :=
  match compile sel with
  | None => Exc SyntaxError
  | Some m => Val (closestFrom (m doc) element)
  end.

(** [isDescendantOf], lines 70-75, for a node of the document [doc].
    Reading [element.closest] throws a [TypeError] on [null]; a Document
    node has no [closest]; an element has the function. *)
Definition isDescendantOf (doc : Document) (element : NodeRef) (tagNames : list string)
    : Outcome bool :=
  match element with
  | RNull => Exc TypeError
  | RDocument => Val false
  | RElement _ _ =>
      some (fun name =>
              match closest doc element name with
              | Val found => Val (match found with Some _ => true | None => false end)
              | Exc x => Exc x
              end)
           tagNames
  end.

End Closest.

(* ================================================================== *)
(** ** A small engine and sample pages, for concrete runs *)

Fixpoint stripPrefix (pre s : string) : option string :=
  match pre, s with
  | EmptyString, _ => Some s
  | String a pre', String b s' => if Ascii.eqb a b then stripPrefix pre' s' else None
  | String _ _, EmptyString => None
  end.

(** Reads the stylesheet selector, [div.name] and a bare element name;
    everything else that the samples below use is not a selector
    (the empty string, [div.]). *)
Definition sampleCompile (sel : string) : option (Document -> ElemData -> bool) :=
  if String.eqb sel stylesSelector
  then Some (fun _ e => hasAttr "href" stylesHref e)
  else
    match stripPrefix "div." sel with
    | Some c =>
        if isClassName c
        then Some (fun doc e => tagIs "div" e && hasClassIn (quirks doc) c e)
        else None
    | None =>
        if isClassName sel then Some (fun _ e => tagIs (toLowerCase sel) e) else None
    end.

#[export] Program Instance sampleEngine : SelectorEngine := {| compile := sampleCompile |}.
Next Obligation. eexists; split; [reflexivity | intros; reflexivity]. Qed.
Next Obligation. eexists; split; [reflexivity | intros; reflexivity]. Qed.
Next Obligation.
  intros c Hc. eexists; split; [|intros; reflexivity].
  unfold sampleCompile.
  change ("div." +:+ c) with (String "d" (String "i" (String "v" (String "." c)))).
  cbn. rewrite Hc. reflexivity.
Qed.

#[export] Instance sampleInfo : InfoModule := {| Info := string; formatInfo := fun s => s |}.

(** Lowers the ASCII letters and, the letters of Latin-1 being written
    as single bytes, those as well. *)
Definition lowerLatin1 (c : ascii) : ascii :=
  let n := nat_of_ascii c in
  if ((192 <=? n) && (n <=? 222) && negb (n =? 215))%nat
  then ascii_of_nat (n + 32)
  else lowerAscii c.

Fixpoint sampleToLowerCase (s : string) : string :=
  match s with
  | EmptyString => EmptyString
  | String c r => String (lowerLatin1 c) (sampleToLowerCase r)
  end.

#[export] Program Instance sampleStrings : StringModule :=
  {| String_prototype_toLowerCase := sampleToLowerCase |}.
Next Obligation.
  intros s. induction s as [|c r IH]; [reflexivity|].
  cbn [isAsciiString allChars sampleToLowerCase toLowerCase]. intros H.
  apply andb_prop in H as (Hc & Hr). f_equal; [|now apply IH].
  destruct c as [[] [] [] [] [] [] [] []]; try reflexivity; discriminate Hc.
Qed.
Next Obligation.
  intros s. induction s as [|c r IH]; [reflexivity|].
  cbn [sampleToLowerCase toLowerCase]. f_equal; [|exact IH].
  destruct c as [[] [] [] [] [] [] [] []]; reflexivity.
Qed.
Next Obligation. intros [|c r]; [reflexivity | discriminate]. Qed.

(** The letter E with an acute accent, capital and small. *)
Definition capitalEAcute : string := String (ascii_of_nat 201) EmptyString.
Definition smallEAcute : string := String (ascii_of_nat 233) EmptyString.

(** A rendered element with no attribute. *)
Definition el (u : nat) (tag : string) (classes : list string) (kids : list Element) : Element :=
  Node (mkElemData u tag classes [] "block" "visible" None (0, 0, 0, 0)%Z false) kids.

Definition elWith (u : nat) (tag : string) (attrs : list (string * string))
    (kids : list Element) : Element :=
  Node (mkElemData u tag [] attrs "block" "visible" None (0, 0, 0, 0)%Z false) kids.

Definition iframe (u : nat) (content : option DocId) : Element :=
  Node (mkElemData u "IFRAME" [] [] "block" "visible" content (0, 0, 0, 0)%Z false) [].

Definition htmlDoc (u : nat) (bodyKids : list Element) : Document :=
  mkDocument false
    (Some (el u "HTML" [] [el (u + 1) "HEAD" [] []; el (u + 2) "BODY" [] bodyKids])).

(** A page with a readable frame and a frame that cannot be read; one
    paragraph of the top document is hidden by [aria-hidden]. *)
Definition samplePage : Page :=
  mkPage
    [ htmlDoc 0 [ el 3 "P" [] [];
                  iframe 4 (Some 1);
                  iframe 5 None;
                  el 6 "P" [] [el 7 "SPAN" [] []];
                  elWith 8 "P" [("aria-hidden", "true")] [] ];
      htmlDoc 10 [ el 13 "P" [] [] ] ]
    20.

(** The top document has a [div] of class [mark] that is not a child of
    the body. *)
Definition strayPage : Page :=
  mkPage [ htmlDoc 0 [ el 3 "P" [] [el 4 "DIV" ["mark"] []]; el 5 "DIV" ["mark"] [] ] ] 10.

(** The top document has no root element. *)
Definition rootlessPage : Page := mkPage [emptyDocument] 0.

(** The body of the top document holds a paragraph, a [div] of class
    [mark] with a frame inside, and another [div]; the body of the
    document behind the frame holds a [div] of class [mark]. *)
Definition markedPage : Page :=
  mkPage
    [ htmlDoc 0 [ el 3 "P" [] [];
                  el 4 "DIV" ["mark"] [iframe 5 (Some 1)];
                  el 6 "DIV" ["other"] [] ];
      htmlDoc 10 [ el 13 "DIV" ["mark"] [] ] ]
    20.

(** The body of the top document holds a [div] of class [mark], a
    paragraph with a [div] of class [mark] inside, and a [div] of class
    [mark] after it. *)
Definition laterStrayPage : Page :=
  mkPage
    [ htmlDoc 0 [ el 4 "DIV" ["mark"] [];
                  el 5 "P" [] [el 6 "DIV" ["mark"] []];
                  el 7 "DIV" ["mark"] [] ] ]
    10.

(** The only child of the body of the top document is a [div] of class
    [mark] that holds two more. *)
Definition nestedStrayPage : Page :=
  mkPage
    [ htmlDoc 0 [ el 4 "DIV" ["mark"] [el 5 "DIV" ["mark"] []; el 6 "DIV" ["mark"] []] ] ]
    10.

(** A document in quirks mode, whose body holds a [div] of class
    [MARK]. *)
Definition quirksPage : Page :=
  mkPage
    [ mkDocument true
        (Some (el 0 "HTML" []
                 [el 1 "HEAD" [] []; el 2 "BODY" [] [el 4 "DIV" ["MARK"] []]])) ]
    10.

Definition paragraphs : Target := mkTarget "p" None.
Definition overlaysThemselves : Target := mkTarget "div.mark" None.
Definition malformed : Target := mkTarget "div." None.

(** A target whose filter throws whenever it is called. *)
Definition throwingFilter : Target :=
  mkTarget "p" (Some (fun _ _ => Exc (Thrown "filter"))).

Definition sampleParams (targets : list Target) : Params :=
  mkParams targets "mark" (fun _ _ _ => Val "info") None false.

(** The root element of the only document carries the [hidden]
    attribute. *)
Definition hiddenRootPage : Page :=
  mkPage
    [ mkDocument false
        (Some (elWith 0 "HTML" [("hidden", "")]
                 [el 1 "HEAD" [] []; el 2 "BODY" [] [el 3 "P" [] []]])) ]
    10.

(** Parameters whose [getInfo] throws whenever it is called. *)
Definition throwingParams (targets : list Target) : Params :=
  mkParams targets "mark" (fun _ _ _ => Exc (Thrown "getInfo")) None false.

(** The span [7] inside the paragraph [6] hidden by the [hidden]
    attribute on the paragraph. *)
Definition hiddenSpan : NodeRef :=
  RElement (data (el 7 "SPAN" [] []))
    (RElement (data (elWith 6 "P" [("hidden", "")] []))
       (RElement (data (el 2 "BODY" [] []))
          (RElement (data (el 0 "HTML" [] [])) RDocument))).

Definition shownSpan : NodeRef :=
  RElement (data (el 7 "SPAN" [] []))
    (RElement (data (el 6 "P" [] []))
       (RElement (data (el 2 "BODY" [] []))
          (RElement (data (el 0 "HTML" [] [])) RDocument))).

(* ================================================================== *)
(** ** Vocabulary of the properties *)

(** The element and its ancestors, nearest first. *)
Fixpoint chain (el : NodeRef) : list ElemData :=
  match el with
  | RElement e up => e :: chain up
  | _ => []
  end.

(** The [parentNode] links end at a Document node. *)
Fixpoint inDocument (el : NodeRef) : bool :=
  match el with
  | RNull => false
  | RDocument => true
  | RElement _ up => inDocument up
  end.

(** The four signals that hide an element. *)
Definition HiddenSignal (e : ElemData) : Prop :=
  display e = "none" \/ visibility e = "hidden" \/
  getAttribute "hidden" (attributes e) <> None \/
  getAttribute "aria-hidden" (attributes e) = Some "true".

(** The reachable documents: the top document, then the documents of the
    iframes of the top document that can be read, in document order. *)
Definition reachable (pg : Page) : list DocId :=
  document :: omap frameDoc (List.filter (tagIs "iframe") (elements (docOf pg document))).

(** An element that [div.c] selects in a document of that mode. *)
Definition isMarked (quirks : bool) (c : string) (e : ElemData) : bool :=
  tagIs "div" e && hasClassIn quirks c e.

(** The elements of [doc] that [div.c] selects, in document order. *)
Definition marked (c : string) (doc : Document) : list ElemData :=
  List.filter (isMarked (quirks doc) c) (elements doc).

(** No reachable document has an element that [div.c] selects. *)
Definition markerFree (c : string) (pg : Page) : bool :=
  forallb (fun d =>
             forallb (fun e => negb (isMarked (quirks (docOf pg d)) c e))
                     (elements (docOf pg d)))
          (reachable pg).

(** The elements with the stylesheet href. *)
Definition styled (doc : Document) : list ElemData :=
  List.filter (hasAttr "href" stylesHref) (elements doc).

(** The children of the body of [doc]; none when there is no body. *)
Definition bodyChildren (doc : Document) : list Element :=
  match body doc with
  | Some b => childNodes b
  | None => []
  end.

(** The number of children of the bodies of the page. *)
Definition bodyTotal (pg : Page) : nat :=
  sum_list (map (fun doc => length (bodyChildren doc)) (docs pg)).

(** Identities in use are below the next one to be given out. *)
Definition idsBelow (pg : Page) : bool :=
  forallb (fun doc => forallb (fun e => (uid e <? nextId pg)%nat) (elements doc)) (docs pg).

Section Vocabulary.
Context {engine : SelectorEngine} {info : InfoModule}.

(** The elements of [l] that the callback lets through, up to its first
    throw. *)
Fixpoint kept {A} (f : A -> Outcome bool) (l : list A) : Outcome (list A) :=
  match l with
  | [] => Val []
  | x :: r =>
      match f x with
      | Exc e => Exc e
      | Val keep =>
          match kept f r with
          | Exc e => Exc e
          | Val rest => Val (if keep then x :: rest else rest)
          end
      end
  end.

(** What the query of target [t] in document [d] of the page [pg] gives,
    filter applied: a [SyntaxError] when the selector is malformed, the
    exception of the filter when it throws. *)
Definition queried (pg : Page) (d : DocId) (t : Target) : Outcome (list ElemData) :=
  match compile (selector t) with
  | None => Exc SyntaxError
  | Some m =>
      let doc := docOf pg d in
      match filter t with
      | Some f => kept (f doc) (List.filter (m doc) (elements doc))
      | None => Val (List.filter (m doc) (elements doc))
      end
  end.

(** The elements of document [d] that the selector and the filter of
    target [t] let through in the page [pg]; [None] when the selector is
    malformed or the filter throws. *)
Definition candidates (pg : Page) (d : DocId) (t : Target) : option (list ElemData) :=
  match queried pg d t with
  | Val l => Some l
  | Exc _ => None
  end.

(** The visibility of the element behind the handle [e] in document [d]
    of the page [pg]. *)
Definition shown (pg : Page) (d : DocId) (e : ElemData) : bool :=
  match isVisible (refOf (docOf pg d) e) with Val b => b | Exc _ => false end.

(** The elements of document [d] that target [t] counts in the page
    [pg]: they match the selector, pass the filter when there is one, and
    are visible. *)
Definition selected (pg : Page) (d : DocId) (t : Target) : list ElemData :=
  match candidates pg d t with
  | Some l => List.filter (shown pg d) l
  | None => []
  end.

(** The pages in which the targets of one document are queried, in the
    order of the pass: each target meets the page as the targets before
    it have left it. *)
Fixpoint targetVisits (p : Params) (d : DocId) (ts : list Target) (st : AddState)
    : list (DocId * Target * Page) :=
  match ts with
  | [] => []
  | t :: r => (d, t, page st) :: targetVisits p d r (snd (perTarget p d t st))
  end.

(** The same over the documents [ds]: a document is visited after its
    stylesheet has been looked after, and the next one after the whole of
    it has been processed. *)
Fixpoint documentVisits (p : Params) (ds : list DocId) (st : AddState)
    : list (DocId * Target * Page) :=
  match ds with
  | [] => []
  | d :: r =>
      targetVisits p d (targetList p) (snd (liftPage (injectStylesheet d) st))
        ++ documentVisits p r (snd (perDocument p d st))
  end.

(** The visits of one call of [addNodes p] on the page [pg]. *)
Definition visits (p : Params) (pg : Page) : list (DocId * Target * Page) :=
  documentVisits p (reachable pg) (mkAddState pg 0).

(** The pass of [addNodes p] over the page [pg] reaches target [t] in
    document [d] with the frame [st]: the documents before [d] and, in
    [d], the targets before [t] have been processed without a throw. *)
Definition ReachesTarget (p : Params) (pg : Page) (d : DocId) (t : Target)
    (st : AddState) : Prop :=
  exists D1 D2 T1 T2 st1,
    reachable pg = D1 ++ d :: D2 /\
    targetList p = T1 ++ t :: T2 /\
    forEach (perDocument p) D1 (mkAddState pg 0) = (Val tt, st1) /\
    forEach (perTarget p d) T1 (snd (liftPage (injectStylesheet d) st1)) = (Val tt, st).

(** It reaches element [e] of that target with the frame [st]: the
    elements before [e] have been processed without a throw. *)
Definition ReachesElement (p : Params) (pg : Page) (d : DocId) (t : Target)
    (e : ElemData) (st : AddState) : Prop :=
  exists st2 E1 E2,
    ReachesTarget p pg d t st2 /\
    candidates (page st2) d t = Some (E1 ++ e :: E2) /\
    forEach (perElement p d t) E1 st2 = (Val tt, st).

(** In document [d] of the page [pg] the element [e] matches the
    selector of the target [t], passes its filter when there is one, and
    is visible. *)
Definition Counted (pg : Page) (d : DocId) (t : Target) (e : ElemData) : Prop :=
  In e (elements (docOf pg d)) /\
  (exists m, compile (selector t) = Some m /\ m (docOf pg d) e = true) /\
  (forall f, filter t = Some f -> f (docOf pg d) e = Val true) /\
  isVisible (refOf (docOf pg d) e) = Val true.

(** The triples (document, target, element) of the page [pg]: the
    reachable documents, the targets of the list, and the elements that
    the target selects in the document. *)
Definition triples (p : Params) (pg : Page) : list (DocId * Target * ElemData) :=
  flat_map (fun dt => map (fun e => (fst dt, snd dt, e)) (selected pg (fst dt) (snd dt)))
           (list_prod (reachable pg) (targetList p)).

(** The triples counted in the visits. *)
Definition countedTriples (p : Params) (pg : Page) : list (DocId * Target * ElemData) :=
  flat_map (fun v => match v with (d, t, at_) => map (fun e => (d, t, e)) (selected at_ d t) end)
           (visits p pg).

(** The number of elements the visits select. *)
Definition selectedIn (vs : list (DocId * Target * Page)) : nat :=
  sum_list (map (fun v => match v with (d, t, at_) => length (selected at_ d t) end) vs).

End Vocabulary.

(* ================================================================== *)
(** ** Transitions and invariants of the page

    The notions in which the proofs below follow a call: what one
    statement of [addNodes] does to the frame, and what a run of such
    statements leaves invariant. *)

(** The link that [addNodes] builds, with identity [u]. *)
Definition stylesheetLink (u : nat) : Element :=
  Node (setAttribute "href" stylesHref
          (setAttribute "type" "text/css"
             (setAttribute "rel" "stylesheet"
                (mkElemData u "LINK" [] [] "none" "visible" None (0, 0, 0, 0)%Z false))))
       [].

(** The overlay that [addNodes] appends, with identities [u] and [u + 1]. *)
Definition overlayOf (c : string) (u : nat) (r : Rect) (dnd : bool) (text : string) : Element :=
  Node (mkElemData u "DIV" [c] [] "block" "visible" None r dnd)
       [Node (setAttribute "title" text
                (mkElemData (S u) "DIV" [] [] "block" "visible" None (0, 0, 0, 0)%Z false))
             []].

(** [x] is such an overlay, whatever its rectangle, its drag-and-drop
    flag and its title. *)
Definition IsOverlay (c : string) (u : nat) (x : Element) : Prop :=
  exists r dnd text, x = overlayOf c u r dnd text.

(** The transitions of the frame of [addNodes] while document [d] is
    processed: identities are used up and the trees stay as they are; the
    stylesheet link goes in front of the children of the root; an overlay
    goes behind the children of the body and is counted. *)
Inductive Step (c : string) (d : DocId) : AddState -> AddState -> Prop :=
| StepIdle st n :
    Step c d st (mkAddState (mkPage (docs (page st)) (nextId (page st) + n)) (counter st))
| StepLink st :
    styled (docOf (page st) d) = [] ->
    documentElement (docOf (page st) d) <> None ->
    Step c d st
      (mkAddState
         (setDoc d (prependTo (stylesheetLink (nextId (page st))) (docOf (page st) d))
            (mkPage (docs (page st)) (S (nextId (page st)))))
         (counter st))
| StepOverlay st x :
    IsOverlay c (nextId (page st)) x ->
    body (docOf (page st) d) <> None ->
    Step c d st
      (mkAddState
         (setDoc d (onBody (addChild x) (docOf (page st) d))
            (mkPage (docs (page st)) (nextId (page st) + 2)))
         (counter st + 1)).

(** A run of transitions over the documents [ds]. *)
Definition Steps (c : string) (ds : list DocId) : AddState -> AddState -> Prop :=
  rtc (fun st st' => exists d, In d ds /\ Step c d st st').

(** [xs] behind the children of [parent]. *)
Definition addChildren (xs : list Element) (parent : Element) : Element :=
  Node (data parent) (childNodes parent ++ xs).

(** [xs] in front of the children of the root of [doc]; a document with
    no root stays as it is. *)
Definition prependAll (xs : list Element) (doc : Document) : Document :=
  match documentElement doc with
  | Some (Node r ks) => mkDocument (quirks doc) (Some (Node r (xs ++ ks)))
  | None => doc
  end.

(** [doc] with [links] in front of the children of its root and [ovs]
    behind the children of its body. *)
Definition graft (links ovs : list Element) (doc : Document) : Document :=
  prependAll links (onBody (addChildren ovs) doc).

(** The handle of the stylesheet link with identity [u]. *)
Definition linkData (u : nat) : ElemData := data (stylesheetLink u).

(** [new] is [old] with at most one stylesheet link and with overlays of
    class [c], all with identities from [lo] up to [hi]. *)
Definition GrownAs (c : string) (lo hi : nat) (old new : Document)
    (us : list nat) (ovs : list Element) : Prop :=
  new = graft (map stylesheetLink us) ovs old /\
  Forall (fun u => lo <= u < hi) us /\
  Forall (fun x => exists u, IsOverlay c u x /\ lo <= u /\ S u < hi) ovs /\
  NoDup (map (fun x => uid (data x)) ovs) /\
  (body old = None -> ovs = []) /\
  (documentElement old = None -> us = []) /\
  (us = [] \/ (styled old = [] /\ length us = 1)).

(** The same, for some link and some overlays. *)
Definition GrownDoc (c : string) (lo hi : nat) (old new : Document) : Prop :=
  exists (us : list nat) (ovs : list Element), GrownAs c lo hi old new us ovs.

(** The page [cur] is [base] grown: the same documents by number, each
    grown with identities that [base] had not given out. *)
Definition Grown (c : string) (base cur : Page) : Prop :=
  length (docs cur) = length (docs base) /\
  nextId base <= nextId cur /\
  forall d, GrownDoc c (nextId base) (nextId cur) (docOf base d) (docOf cur d).

(** Identities in use stay below the next one. *)
Definition IdsBelow (pg : Page) : Prop :=
  forall d e, In e (elements (docOf pg d)) -> uid e < nextId pg.

(** The search of [locate] through a list of siblings whose parent is
    [up]. *)
Definition locateIn (u : nat) (up : NodeRef) : list Element -> option NodeRef :=
  fix inChildren (l : list Element) : option NodeRef :=
    match l with
    | [] => None
    | k :: r =>
        match locate u up k with
        | Some found => Some found
        | None => inChildren r
        end
    end.

(** The visits that are made in document [d0]. *)
Definition visitsOf (d0 : DocId) (vs : list (DocId * Target * Page))
    : list (DocId * Target * Page) :=
  List.filter (fun v => (fst (fst v) =? d0)%nat) vs.

(** The identities of the children of the body. *)
Definition bodyUids (doc : Document) : list nat :=
  map (fun k => uid (data k)) (bodyChildren doc).

(** Document [d] of the page [q] is document [d] of [base] with at most
    the stylesheet link put in. *)
Definition Clean (c : string) (lo hi : nat) (base q : Page) (d : DocId) : Prop :=
  exists us, GrownAs c lo hi (docOf base d) (docOf q d) us [].

(** The targets select in every page grown from [pg] what they select
    in [pg]: none of them selects a node that [addNodes] inserts, or
    selects an element differently on account of the inserted nodes. *)
Definition SelectsTheSame {engine : SelectorEngine} {info : InfoModule}
    (p : Params) (pg : Page) : Prop :=
  forall q d t,
    Grown (cssClass p) pg q -> In d (reachable pg) -> In t (targetList p) ->
    candidates q d t = candidates pg d t.

(* ================================================================== *)
(** ** Vocabulary of the further properties *)

(** The name of the element [k] is, as it stands, an entry of
    [tagNames]. *)
Definition namedIn (tagNames : list string) (k : Element) : bool :=
  existsb (fun name => String.eqb name (tagName (data k))) tagNames.

(** [name] is a type selector: it selects the elements of that name,
    whatever the case of the letters, as in an HTML document. *)
Definition TypeSelector {engine : SelectorEngine} (name : string) : Prop :=
  exists m, compile name = Some m /\
            forall doc e, m doc e = tagIs (toLowerCase name) e.

(** No two elements of a document have the same identity. *)
Fixpoint distinct (l : list nat) : bool :=
  match l with
  | [] => true
  | x :: r => negb (existsb (Nat.eqb x) r) && distinct r
  end.

Definition distinctIds (pg : Page) : bool :=
  forallb (fun doc => distinct (map uid (elements doc))) (docs pg).

Definition DistinctIds (pg : Page) : Prop :=
  forall d, NoDup (map uid (elements (docOf pg d))).

(** [doc] without the children of its body that [div.c] selects. *)
Definition unmarkedChildren (quirks : bool) (c : string) (b : Element) : Element :=
  Node (data b)
       (List.filter (fun k => negb (isMarked quirks c (data k))) (childNodes b)).

Definition cleaned (c : string) (doc : Document) : Document :=
  onBody (unmarkedChildren (quirks doc) c) doc.

(** Every element of [doc] that [div.c] selects is a child of the body. *)
Definition MarkedInBody (c : string) (doc : Document) : Prop :=
  forall e, In e (marked c doc) -> In (uid e) (bodyUids doc).

(** The filters of the target list return, whatever they are given. *)
Definition FiltersReturn {info : InfoModule} (p : Params) : Prop :=
  forall t f doc e,
    In t (targetList p) -> filter t = Some f -> exists b, f doc e = Val b.

(** A document that has a root element has a body. *)
Definition Bodied (doc : Document) : Prop :=
  documentElement doc <> None -> body doc <> None.

(** The root element of the document, when there is one, carries one of
    the four signals that hide an element. *)
Definition RootHidden (doc : Document) : Prop :=
  forall r ks, documentElement doc = Some (Node r ks) -> HiddenSignal r.

(** [b] after [removeChild] of the children with the identities [us],
    one after the other. *)
Definition withoutChildren (us : list nat) (b : Element) : Element :=
  Node (data b) (fold_left (fun ks u => dropChild u ks) us (childNodes b)).

(* ================================================================== *)
(** ** Strings and statements: basic facts *)

Lemma toLowerCase_truthy (s : string) : s <> "" -> truthy (toLowerCase s) = true.
Proof. destruct s; [congruence | reflexivity]. Qed.

Lemma existsb_eqb_In (s : string) (l : list string) :
  existsb (fun name => String.eqb s name) l = true <-> In s l.
Proof.
  rewrite existsb_exists. split.
  - intros [x [Hin Heq]]. apply String.eqb_eq in Heq. now subst.
  - intros Hin. exists s. split; [assumption | apply String.eqb_refl].
Qed.

Section Statements.
Context {S A : Type}.

Lemma forEach_app (f : A -> M S unit) (l1 l2 : list A) (s : S) :
  forEach f (l1 ++ l2) s =
  match forEach f l1 s with
  | (Val _, s1) => forEach f l2 s1
  | (Exc x, s1) => (Exc x, s1)
  end.
Proof.
  revert s. induction l1 as [|a l1 IH]; intros s; simpl; [reflexivity|].
  unfold bind. destruct (f a s) as [[[]|x] s1]; [apply IH | reflexivity].
Qed.

(** A throw in the callback ends the loop where it stands. *)
Lemma forEach_throw (f : A -> M S unit) (l1 l2 : list A) (a : A) (s s1 s2 : S) (x : Exn) :
  forEach f l1 s = (Val tt, s1) -> f a s1 = (Exc x, s2) ->
  forEach f (l1 ++ a :: l2) s = (Exc x, s2).
Proof.
  intros H1 H2. rewrite forEach_app, H1. simpl. unfold bind. now rewrite H2.
Qed.

(** What every step keeps, the loop keeps, however it ends. *)
Lemma forEach_keeps (P : S -> Prop) (f : A -> M S unit) (l : list A) :
  (forall a s o s', In a l -> P s -> f a s = (o, s') -> P s') ->
  forall s o s', P s -> forEach f l s = (o, s') -> P s'.
Proof.
  induction l as [|a l IH]; intros Hf s o s' HP Hrun; simpl in Hrun.
  - unfold ret in Hrun. now inversion Hrun; subst.
  - unfold bind in Hrun. destruct (f a s) as [[[]|x] s1] eqn:Ha.
    + eapply IH; [| |exact Hrun].
      * intros; eapply Hf; eauto. now right.
      * eapply Hf; eauto. now left.
    + inversion Hrun; subst. eapply Hf; eauto. now left.
Qed.

End Statements.

(* ================================================================== *)
(** ** The visibility check *)

Lemma hidden_test (e : ElemData) :
  (String.eqb (display e) "none" || String.eqb (visibility e) "hidden"
   || match getAttribute "hidden" (attributes e) with Some _ => true | None => false end
   || match getAttribute "aria-hidden" (attributes e) with
      | Some v => String.eqb v "true"
      | None => false
      end) = true <-> HiddenSignal e.
Proof.
  unfold HiddenSignal. rewrite !orb_true_iff, !String.eqb_eq.
  destruct (getAttribute "hidden" (attributes e)) as [h|];
    destruct (getAttribute "aria-hidden" (attributes e)) as [v|];
    rewrite ?String.eqb_eq; intuition congruence.
Qed.

Lemma isVisibleRec_hidden (el : NodeRef) :
  (exists a, In a (chain el) /\ HiddenSignal a) -> isVisibleRec el = Val false.
Proof.
  induction el as [| |e up IH]; intros [a [Hin Hsig]]; simpl in Hin; try contradiction.
  simpl. destruct (_ || _) eqn:Htest; [reflexivity|].
  destruct Hin as [->|Hin].
  - apply hidden_test in Hsig. congruence.
  - apply IH. eauto.
Qed.

Lemma isVisibleRec_shown (el : NodeRef) :
  inDocument el = true -> (forall a, In a (chain el) -> ~ HiddenSignal a) ->
  isVisibleRec el = Val true.
Proof.
  induction el as [| |e up IH]; intros Hdoc Hnone; simpl in *; try congruence.
  destruct (_ || _) eqn:Htest.
  - apply hidden_test in Htest. exfalso. apply (Hnone e); auto.
  - apply IH; auto.
Qed.

(** C2.  The visibility check returns false for an element when the
    element or one of its ancestors has computed display [none],
    computed visibility [hidden], a [hidden] attribute, or [aria-hidden]
    equal to [true]; for an element of a document with none of the four
    signals on its ancestor chain, the walk ends at the Document node and
    the check returns true. *)
Theorem isVisible_chain (el : NodeRef) :
  ((exists a, In a (chain el) /\ HiddenSignal a) -> isVisible el = Val false) /\
  (inDocument el = true -> (forall a, In a (chain el) -> ~ HiddenSignal a) ->
   isVisible el = Val true).
Proof.
  split; [apply isVisibleRec_hidden | apply isVisibleRec_shown].
Qed.

(* ================================================================== *)
(** ** The parent test *)

Section ParentTest.
Context {strings : StringModule}.

Lemma lowered_truthy (s : string) :
  s <> "" -> truthy (String_prototype_toLowerCase s) = true.
Proof.
  intros Hne. destruct (String_prototype_toLowerCase s) eqn:Hl; [|reflexivity].
  now apply toLowerCase_nonempty in Hl.
Qed.

(** C10.  [hasParentWithName] reads [element.parentElement.tagName]
    without a guard: for an element whose [parentElement] is [null], such
    as the root element of a document, it throws a [TypeError] and does
    not return false; when there is a parent (whose tag name, as any tag
    name, is not empty), it returns true exactly when the tag name of
    the parent, lowered by [String.prototype.toLowerCase], is an entry of
    the list. *)
Theorem hasParentWithName_parent (element : NodeRef) (tagNames : list string) :
  (parentElement element = None -> hasParentWithName element tagNames = Exc TypeError) /\
  (forall r, hasParentWithName (RElement r RDocument) tagNames = Exc TypeError) /\
  (forall p, parentElement element = Some p -> tagName p <> "" ->
     exists b, hasParentWithName element tagNames = Val b /\
               (b = true <-> In (String_prototype_toLowerCase (tagName p)) tagNames)).
Proof.
  unfold hasParentWithName. split; [|split].
  - intros ->. reflexivity.
  - reflexivity.
  - intros p -> Hne. cbv zeta. rewrite (lowered_truthy _ Hne).
    eexists; split; [reflexivity | apply existsb_eqb_In].
Qed.

End ParentTest.

(* ================================================================== *)
(** ** The reachable documents *)

Section Documents.
Context {engine : SelectorEngine}.

Lemma querySelectorAll_compiled (d : DocId) (sel : string) m (pg : Page) :
  compile sel = Some m ->
  querySelectorAll d sel pg =
  (Val (List.filter (m (docOf pg d)) (elements (docOf pg d))), pg).
Proof. intros H. unfold querySelectorAll. now rewrite H. Qed.

Lemma querySelectorAll_iframe (d : DocId) (pg : Page) :
  querySelectorAll d "iframe" pg =
  (Val (List.filter (tagIs "iframe") (elements (docOf pg d))), pg).
Proof.
  destruct compile_iframe as [m [Hc Hm]].
  rewrite (querySelectorAll_compiled _ _ _ _ Hc). f_equal. f_equal.
  apply List.filter_ext. intros e. apply Hm.
Qed.

Lemma querySelectorAll_marked (d : DocId) (c : string) (pg : Page) :
  isClassName c = true ->
  querySelectorAll d ("div." +:+ c) pg = (Val (marked c (docOf pg d)), pg).
Proof.
  intros Hc. destruct (compile_div_class c Hc) as [m [Hm Hsem]].
  rewrite (querySelectorAll_compiled _ _ _ _ Hm). f_equal. f_equal.
  apply List.filter_ext. intros e. apply Hsem.
Qed.

Lemma querySelectorAll_styled (d : DocId) (pg : Page) :
  querySelectorAll d stylesSelector pg = (Val (styled (docOf pg d)), pg).
Proof.
  destruct compile_styles as [m [Hc Hm]].
  rewrite (querySelectorAll_compiled _ _ _ _ Hc). f_equal. f_equal.
  apply List.filter_ext. intros e. apply Hm.
Qed.

(** The [try]/[catch] around the frame access turns a throw into
    [null]. *)
Lemma frames_read (l : list ElemData) (pg : Page) :
  mapM (fun iframe =>
          tryCatch (let* d := contentWindow_document iframe in ret (Some d))
                   (fun error => ret None)) l pg
  = (Val (map frameDoc l), pg).
Proof.
  induction l as [|e l IH]; [reflexivity|].
  cbn [mapM]. unfold bind at 1.
  replace (tryCatch (let* d := contentWindow_document e in ret (Some d))
             (fun error => ret None) pg) with (@Val (option DocId) (frameDoc e), pg).
  - unfold bind at 1. rewrite IH. reflexivity.
  - unfold tryCatch, bind, contentWindow_document. now destruct (frameDoc e).
Qed.

Lemma omap_id_map {X Y} (g : X -> option Y) (l : list X) :
  omap id (map g l) = omap g l.
Proof.
  induction l as [|x l IH]; [reflexivity|].
  simpl. destruct (g x); simpl; [f_equal|]; exact IH.
Qed.

Lemma getAllDocuments_reachable (pg : Page) :
  getAllDocuments pg = (Val (reachable pg), pg).
Proof.
  unfold getAllDocuments, bind. rewrite querySelectorAll_iframe, frames_read.
  unfold ret, reachable. now rewrite omap_id_map.
Qed.

(** C4.  The document enumeration returns the top document followed by
    the content document of every iframe of the top document whose access
    succeeds; an iframe whose access throws contributes no document; the
    enumeration itself never throws and leaves the page as it is. *)
Theorem getAllDocuments_frames (pg : Page) :
  getAllDocuments pg = (Val (reachable pg), pg) /\
  forall d, In d (reachable pg) <->
    d = document \/
    exists iframe, In iframe (elements (docOf pg document)) /\
                   tagIs "iframe" iframe = true /\ frameDoc iframe = Some d.
Proof.
  split; [apply getAllDocuments_reachable|].
  intros d. unfold reachable. simpl. rewrite <- list_elem_of_In, list_elem_of_omap.
  split.
  - intros [H|[e [Hin Hd]]]; [now left|right].
    apply list_elem_of_In, List.filter_In in Hin. exists e. tauto.
  - intros [H|[e [Hin [Htag Hd]]]]; [now left|right].
    exists e. split; [|assumption]. apply list_elem_of_In, List.filter_In. tauto.
Qed.

End Documents.

(* ================================================================== *)
(** ** What one statement of [addNodes] does to the page *)

Lemma Steps_one c ds d st st' : In d ds -> Step c d st st' -> Steps c ds st st'.
Proof. intros Hin Hstep. apply rtc_once. eauto. Qed.

Lemma Steps_mono c ds ds' st st' :
  (forall d, In d ds -> In d ds') -> Steps c ds st st' -> Steps c ds' st st'.
Proof.
  intros Hsub. apply rtc_subrel. intros x y [d [Hin Hstep]]. eauto.
Qed.

Lemma idle_self c d st : Step c d st st.
Proof.
  destruct st as [[ds n] k].
  pose proof (StepIdle c d (mkAddState (mkPage ds n) k) 0) as H.
  simpl in H. now rewrite Nat.add_0_r in H.
Qed.

Section Transitions.
Context {engine : SelectorEngine} {info : InfoModule}.

Lemma querySelector_styled (d : DocId) (pg : Page) :
  querySelector d stylesSelector pg = (Val (head (styled (docOf pg d))), pg).
Proof. unfold querySelector, bind. now rewrite querySelectorAll_styled. Qed.

(** Lines 109-117 never throw, and either leave the trees alone or put
    the link in. *)
Lemma injectStylesheet_runs (d : DocId) (pg : Page) :
  injectStylesheet d pg =
  (Val tt,
   match styled (docOf pg d) with
   | _ :: _ => pg
   | [] =>
       match documentElement (docOf pg d) with
       | None => mkPage (docs pg) (S (nextId pg))
       | Some _ =>
           setDoc d (prependTo (stylesheetLink (nextId pg)) (docOf pg d))
                  (mkPage (docs pg) (S (nextId pg)))
       end
   end).
Proof.
  unfold injectStylesheet, bind. rewrite querySelector_styled.
  destruct (styled (docOf pg d)) as [|e l]; [|reflexivity].
  change (head (@nil ElemData)) with (@None ElemData). cbv beta iota.
  unfold createElement, firstElementChild, firstElementChild_prepend, option_map, ret.
  unfold docOf. cbn [docs nextId data childNodes].
  destruct (documentElement (default emptyDocument (docs pg !! d))) eqn:Hr;
    cbv beta iota; cbn [docs]; rewrite ?Hr; reflexivity.
Qed.

Lemma injectStylesheet_step (c : string) (d : DocId) (st : AddState) :
  exists st', liftPage (injectStylesheet d) st = (Val tt, st') /\ Step c d st st'.
Proof.
  unfold liftPage. rewrite injectStylesheet_runs. eexists; split; [reflexivity|].
  destruct (styled (docOf (page st) d)) as [|e l] eqn:Hs.
  - destruct (documentElement (docOf (page st) d)) eqn:Hr.
    + apply StepLink; [assumption | congruence].
    + rewrite <- Nat.add_1_r. apply StepIdle.
  - destruct st as [pg k]. apply idle_self.
Qed.

Lemma createOverlay_runs (t : Target) (r : Rect) (c : string) (d : DocId) (pg : Page) :
  createOverlay t r c d pg =
  (Val (Node (mkElemData (nextId pg) "DIV" [c] [] "block" "visible" None r false)
          [Node (mkElemData (S (nextId pg)) "DIV" [] [] "block" "visible" None
                   (0, 0, 0, 0)%Z false) []]),
   mkPage (docs pg) (nextId pg + 2)).
Proof.
  unfold createOverlay, bind, createElement, ret. simpl.
  now replace (nextId pg + 2) with (S (S (nextId pg))) by lia.
Qed.

(** The callback of [elements.forEach], case by case. *)
Lemma perElement_runs (p : Params) (d : DocId) (t : Target) (e : ElemData) (st : AddState) :
  let doc := docOf (page st) d in
  perElement p d t e st =
  match isVisible (refOf doc e) with
  | Exc x => (Exc x, st)
  | Val false => (Val tt, st)
  | Val true =>
      match getInfo p doc e t with
      | Exc x => (Exc x, st)
      | Val i =>
          match (match evalInfo p with Some f => f i t | None => Val i end) with
          | Exc x => (Exc x, st)
          | Val i' =>
              let used := mkPage (docs (page st)) (nextId (page st) + 2) in
              match body doc with
              | None => (Exc TypeError, mkAddState used (counter st))
              | Some _ =>
                  (Val tt,
                   mkAddState
                     (setDoc d
                        (onBody
                           (addChild
                              (overlayOf (cssClass p) (nextId (page st)) (rect e) (dndFlag p)
                                 (formatInfo i')))
                           doc)
                        used)
                     (counter st + 1))
              end
          end
      end
  end.
Proof.
  cbv zeta. unfold perElement, bind at 1, getState. unfold bind at 1, liftOutcome at 1.
  destruct (isVisible (refOf (docOf (page st) d) e)) as [[|]|x]; simpl; try reflexivity.
  unfold bind at 1, liftOutcome at 1.
  destruct (getInfo p (docOf (page st) d) e t) as [i|x]; [|reflexivity].
  unfold bind at 1.
  assert (Hev : (match evalInfo p with
                 | Some f => liftOutcome (f i t)
                 | None => ret i
                 end) st
                = ((match evalInfo p with Some f => f i t | None => Val i end), st)).
  { destruct (evalInfo p); reflexivity. }
  rewrite Hev. clear Hev.
  destruct (match evalInfo p with Some f => f i t | None => Val i end) as [i'|x];
    [|reflexivity].
  unfold bind at 1, liftPage at 1. rewrite createOverlay_runs. cbn [page counter].
  assert (Hd : docOf (mkPage (docs (page st)) (nextId (page st) + 2)) d
               = docOf (page st) d) by reflexivity.
  destruct (dndFlag p);
    unfold bind at 1, liftOutcome at 1;
    cbn [addDragAndDrop overlayOf setFirstChildTitle childNodes data];
    unfold bind, liftPage, body_appendChild, incrCounter; cbn [page counter];
    rewrite Hd; destruct (body (docOf (page st) d)); reflexivity.
Qed.

Lemma perElement_step (p : Params) (d : DocId) (t : Target) (e : ElemData)
    (st : AddState) o st' :
  perElement p d t e st = (o, st') -> Step (cssClass p) d st st'.
Proof.
  rewrite perElement_runs. cbv zeta.
  destruct (isVisible _) as [[|]|x].
  - destruct (getInfo p _ e t) as [i|x].
    + destruct (match evalInfo p with Some f => f i t | None => Val i end) as [i'|x].
      * destruct (body (docOf (page st) d)) eqn:Hb; intros H; inversion H; subst.
        -- apply StepOverlay; [|congruence]. unfold IsOverlay. eauto.
        -- apply StepIdle.
      * intros H; inversion H; subst. apply idle_self.
    + intros H; inversion H; subst. apply idle_self.
  - intros H; inversion H; subst. apply idle_self.
  - intros H; inversion H; subst. apply idle_self.
Qed.

Lemma forEach_steps {X} (c : string) (ds : list DocId) (f : X -> M AddState unit)
    (l : list X) :
  (forall a st o st', In a l -> f a st = (o, st') -> Steps c ds st st') ->
  forall st o st', forEach f l st = (o, st') -> Steps c ds st st'.
Proof.
  induction l as [|a l IH]; intros Hf st o st' Hrun; simpl in Hrun.
  - inversion Hrun; subst. apply rtc_refl.
  - unfold bind in Hrun. destruct (f a st) as [[[]|x] s1] eqn:Ha.
    + eapply rtc_trans.
      * eapply Hf; [now left | exact Ha].
      * eapply IH; [|exact Hrun]. intros; eapply Hf; eauto. now right.
    + inversion Hrun; subst. eapply Hf; [now left | exact Ha].
Qed.

Lemma filterM_kept {S A} (f : A -> Outcome bool) (l : list A) (s : S) :
  filterM (fun x => liftOutcome (f x)) l s = (kept f l, s).
Proof.
  induction l as [|x r IH]; [reflexivity|].
  cbn [filterM kept]. unfold bind at 1, liftOutcome at 1.
  destruct (f x) as [keep|e]; [|reflexivity].
  unfold bind at 1. rewrite IH. now destruct (kept f r).
Qed.

(** The callback of [targetList.forEach]: the query, the filter, the
    loop. *)
Lemma perTarget_runs (p : Params) (d : DocId) (t : Target) (st : AddState) :
  perTarget p d t st =
  match queried (page st) d t with
  | Exc x => (Exc x, st)
  | Val l => forEach (perElement p d t) l st
  end.
Proof.
  unfold perTarget, bind at 1, liftPage, querySelectorAll, queried.
  destruct (compile (selector t)) as [m|]; [|now destruct st].
  unfold bind at 1, getState. destruct st as [pg k]. cbn [page counter]. cbv zeta.
  unfold bind at 1.
  destruct (filter t) as [f|]; [|reflexivity].
  rewrite filterM_kept. now destruct (kept _ _).
Qed.

Lemma perTarget_steps (p : Params) (d : DocId) (t : Target) (st : AddState) o st' :
  perTarget p d t st = (o, st') -> Steps (cssClass p) [d] st st'.
Proof.
  rewrite perTarget_runs. destruct (queried (page st) d t) as [l|x].
  - apply forEach_steps. intros a s o' s' _ Ha.
    eapply Steps_one; [now left | eapply perElement_step; exact Ha].
  - intros H; inversion H; subst. apply rtc_refl.
Qed.

Lemma perDocument_steps (p : Params) (d : DocId) (st : AddState) o st' :
  perDocument p d st = (o, st') -> Steps (cssClass p) [d] st st'.
Proof.
  unfold perDocument, bind.
  destruct (injectStylesheet_step (cssClass p) d st) as [s1 [H1 Hs1]]. rewrite H1.
  intros Hrun. eapply rtc_trans.
  - eapply Steps_one; [now left | exact Hs1].
  - eapply forEach_steps; [|exact Hrun]. intros a s o' s' _ Ha.
    eapply perTarget_steps; exact Ha.
Qed.

(** From its call to its end, normal or not, [addNodes] makes a run of
    transitions over the reachable documents. *)
Lemma addNodes_steps (p : Params) (pg : Page) o st' :
  addNodes p pg = (o, st') ->
  Steps (cssClass p) (reachable pg) (mkAddState pg 0) st'.
Proof.
  unfold addNodes, bind at 1, liftPage. simpl. rewrite getAllDocuments_reachable.
  unfold bind. destruct (forEach _ _ _) as [[[]|x] s1] eqn:Hrun;
    unfold getState, ret; intros H; inversion H; subst;
    (eapply forEach_steps; [|exact Hrun]; intros d s o' s' Hin Hd;
     eapply Steps_mono; [|eapply perDocument_steps; exact Hd];
     intros d' [<-|[]]; exact Hin).
Qed.

End Transitions.

(* ================================================================== *)
(** ** Trees after insertion *)

Lemma onFirst_app_skip {X} (p : X -> bool) (f : X -> X) (l1 l2 : list X) :
  Forall (fun x => p x = false) l1 ->
  onFirst p f (l1 ++ l2) = l1 ++ onFirst p f l2.
Proof.
  induction 1 as [|x l1 Hx _ IH]; [reflexivity|].
  simpl. now rewrite Hx, IH.
Qed.

Lemma onFirst_twice {X} (p : X -> bool) (f g : X -> X) (l : list X) :
  (forall x, p (g x) = p x) ->
  onFirst p f (onFirst p g l) = onFirst p (fun x => f (g x)) l.
Proof.
  intros Hg. induction l as [|x l IH]; [reflexivity|].
  simpl. destruct (p x) eqn:Hx; simpl.
  - now rewrite Hg, Hx.
  - now rewrite Hx, IH.
Qed.

Lemma onFirst_ext {X} (p : X -> bool) (f g : X -> X) (l : list X) :
  (forall x, f x = g x) -> onFirst p f l = onFirst p g l.
Proof.
  intros Hfg. induction l as [|x l IH]; [reflexivity|].
  simpl. now rewrite Hfg, IH.
Qed.

Lemma onFirst_id {X} (p : X -> bool) (l : list X) : onFirst p (fun x => x) l = l.
Proof.
  induction l as [|x l IH]; [reflexivity|].
  simpl. destruct (p x); now rewrite ?IH.
Qed.

Lemma find_onFirst {X} (p : X -> bool) (f : X -> X) (l : list X) :
  (forall x, p (f x) = p x) ->
  List.find p (onFirst p f l) = option_map f (List.find p l).
Proof.
  intros Hf. induction l as [|x l IH]; [reflexivity|].
  simpl. destruct (p x) eqn:Hx; simpl.
  - now rewrite Hf, Hx.
  - now rewrite Hx, IH.
Qed.

Lemma find_app_skip {X} (p : X -> bool) (l1 l2 : list X) :
  Forall (fun x => p x = false) l1 -> List.find p (l1 ++ l2) = List.find p l2.
Proof.
  induction 1 as [|x l1 Hx _ IH]; [reflexivity|].
  simpl. now rewrite Hx.
Qed.

Lemma addChildren_nil (b : Element) : addChildren [] b = b.
Proof. destruct b as [d ks]. unfold addChildren. simpl. now rewrite app_nil_r. Qed.

Lemma addChild_addChildren (x : Element) (xs : list Element) (b : Element) :
  addChild x (addChildren xs b) = addChildren (xs ++ [x]) b.
Proof. unfold addChild, addChildren. simpl. now rewrite <- app_assoc. Qed.

Lemma isBodyTag_addChildren xs b : isBodyTag (addChildren xs b) = isBodyTag b.
Proof. reflexivity. Qed.

Lemma isBodyTag_withoutChild u b : isBodyTag (withoutChild u b) = isBodyTag b.
Proof. reflexivity. Qed.

Lemma graft_nil (doc : Document) : graft [] [] doc = doc.
Proof.
  unfold graft, prependAll, onBody. destruct doc as [q [[r ks]|]]; simpl; [|reflexivity].
  destruct (tagIs "html" r); simpl; [|reflexivity].
  rewrite (onFirst_ext _ _ (fun x => x)); [now rewrite onFirst_id | apply addChildren_nil].
Qed.

Lemma prependTo_graft (x : Element) (links ovs : list Element) (doc : Document) :
  prependTo x (graft links ovs doc) = graft (x :: links) ovs doc.
Proof.
  unfold graft, prependTo, prependAll, onBody.
  destruct doc as [q [[r ks]|]]; simpl; [|reflexivity].
  destruct (tagIs "html" r); reflexivity.
Qed.

Lemma onBody_graft (f : Element -> Element) (links ovs : list Element) (doc : Document) :
  Forall (fun l => isBodyTag l = false) links ->
  onBody f (graft links ovs doc)
  = prependAll links (onBody (fun b => f (addChildren ovs b)) doc).
Proof.
  intros Hl. unfold graft, prependAll, onBody.
  destruct doc as [q [[r ks]|]]; simpl; [|reflexivity].
  destruct (tagIs "html" r) eqn:Hr; simpl; rewrite Hr; [|reflexivity].
  rewrite (onFirst_app_skip _ _ _ _ Hl), onFirst_twice; [reflexivity|].
  intros b. apply isBodyTag_addChildren.
Qed.

Lemma addChild_graft (x : Element) (links ovs : list Element) (doc : Document) :
  Forall (fun l => isBodyTag l = false) links ->
  onBody (addChild x) (graft links ovs doc) = graft links (ovs ++ [x]) doc.
Proof.
  intros Hl. rewrite (onBody_graft _ _ _ _ Hl). unfold graft. f_equal.
  unfold onBody. destruct doc as [q [[r ks]|]]; simpl; [|reflexivity].
  destruct (tagIs "html" r); [|reflexivity].
  do 3 f_equal. apply onFirst_ext. intros b. apply addChild_addChildren.
Qed.

Lemma body_prependAll (links : list Element) (doc : Document) :
  Forall (fun l => isBodyTag l = false) links ->
  body (prependAll links doc) = body doc.
Proof.
  intros Hl. unfold body, prependAll. destruct doc as [q [[r ks]|]]; simpl; [|reflexivity].
  destruct (tagIs "html" r); [|reflexivity]. now apply find_app_skip.
Qed.

Lemma body_onBody (f : Element -> Element) (doc : Document) :
  (forall b, isBodyTag (f b) = isBodyTag b) ->
  body (onBody f doc) = option_map f (body doc).
Proof.
  intros Hf. unfold body, onBody. destruct doc as [q [[r ks]|]]; simpl; [|reflexivity].
  destruct (tagIs "html" r) eqn:Hr; simpl; rewrite ?Hr; [|reflexivity].
  now apply find_onFirst.
Qed.

Lemma body_graft (links ovs : list Element) (doc : Document) :
  Forall (fun l => isBodyTag l = false) links ->
  body (graft links ovs doc) = option_map (addChildren ovs) (body doc).
Proof.
  intros Hl. unfold graft. rewrite (body_prependAll _ _ Hl).
  apply body_onBody. intros b. apply isBodyTag_addChildren.
Qed.

Lemma body_prependTo (x : Element) (doc : Document) :
  isBodyTag x = false -> body (prependTo x doc) = body doc.
Proof.
  intros Hx. unfold body, prependTo. destruct doc as [q [[r ks]|]]; simpl; [|reflexivity].
  destruct (tagIs "html" r); [|reflexivity]. now rewrite Hx.
Qed.

Lemma bodyChildren_prependTo (x : Element) (doc : Document) :
  isBodyTag x = false -> bodyChildren (prependTo x doc) = bodyChildren doc.
Proof. intros Hx. unfold bodyChildren. now rewrite body_prependTo. Qed.

Lemma bodyChildren_addChild (x : Element) (doc : Document) :
  body doc <> None ->
  bodyChildren (onBody (addChild x) doc) = bodyChildren doc ++ [x].
Proof.
  intros Hb. unfold bodyChildren. rewrite body_onBody by reflexivity.
  destruct (body doc) as [b|]; [reflexivity | congruence].
Qed.

Lemma body_root (doc : Document) : body doc <> None -> documentElement doc <> None.
Proof. unfold body. destruct (documentElement doc); congruence. Qed.

(** ** The store of documents *)

Lemma docOf_in_range (pg : Page) (d : DocId) :
  documentElement (docOf pg d) <> None -> docs pg !! d = Some (docOf pg d).
Proof.
  unfold docOf. destruct (docs pg !! d) as [doc|]; simpl; [reflexivity | congruence].
Qed.

Lemma docOf_setDoc_eq (pg : Page) (d : DocId) (doc : Document) :
  documentElement (docOf pg d) <> None -> docOf (setDoc d doc pg) d = doc.
Proof.
  intros Hr. apply docOf_in_range in Hr. unfold docOf, setDoc. simpl.
  rewrite list_lookup_insert_eq; [reflexivity|].
  apply lookup_lt_is_Some. eauto.
Qed.

Lemma docOf_setDoc_ne (pg : Page) (d d' : DocId) (doc : Document) :
  d <> d' -> docOf (setDoc d doc pg) d' = docOf pg d'.
Proof.
  intros Hne. unfold docOf, setDoc. simpl. now rewrite list_lookup_insert_ne.
Qed.

Lemma docOf_used (ds : list Document) (n m : nat) (d : DocId) :
  docOf (mkPage ds n) d = docOf (mkPage ds m) d.
Proof. reflexivity. Qed.

Lemma sum_insert {X} (f : X -> nat) (l : list X) (i : nat) (x y : X) :
  l !! i = Some x ->
  sum_list (map f (<[i := y]> l)) + f x = sum_list (map f l) + f y.
Proof.
  revert i. induction l as [|a l IH]; intros i Hi; [discriminate|].
  destruct i as [|i]; simpl in *.
  - inversion Hi; subst. lia.
  - specialize (IH i Hi). lia.
Qed.

Lemma bodyTotal_setDoc (pg : Page) (d : DocId) (doc : Document) :
  documentElement (docOf pg d) <> None ->
  bodyTotal (setDoc d doc pg) + length (bodyChildren (docOf pg d))
  = bodyTotal pg + length (bodyChildren doc).
Proof.
  intros Hr. apply docOf_in_range in Hr. unfold bodyTotal, setDoc. simpl.
  apply (sum_insert (fun doc => length (bodyChildren doc)) _ _ _ _ Hr).
Qed.

Lemma stylesheetLink_not_body (u : nat) : isBodyTag (stylesheetLink u) = false.
Proof. reflexivity. Qed.

(** Every transition adds to the bodies of the page exactly what it adds
    to the counter. *)
Lemma Step_accounts (c : string) (d : DocId) (st st' : AddState) :
  Step c d st st' ->
  bodyTotal (page st') + counter st = bodyTotal (page st) + counter st'.
Proof.
  intros [s n | s Hs Hr | s x Hx Hb]; simpl.
  - reflexivity.
  - pose proof (bodyTotal_setDoc (mkPage (docs (page s)) (S (nextId (page s)))) d
                  (prependTo (stylesheetLink (nextId (page s))) (docOf (page s) d)) Hr) as H.
    rewrite bodyChildren_prependTo in H by apply stylesheetLink_not_body.
    change (docOf (mkPage (docs (page s)) (S (nextId (page s)))) d)
      with (docOf (page s) d) in H.
    change (bodyTotal (mkPage (docs (page s)) (S (nextId (page s)))))
      with (bodyTotal (page s)) in H.
    lia.
  - pose proof (bodyTotal_setDoc (mkPage (docs (page s)) (nextId (page s) + 2)) d
                  (onBody (addChild x) (docOf (page s) d)) (body_root _ Hb)) as H.
    rewrite bodyChildren_addChild in H by exact Hb.
    rewrite length_app in H. simpl in H.
    change (docOf (mkPage (docs (page s)) (nextId (page s) + 2)) d)
      with (docOf (page s) d) in H.
    change (bodyTotal (mkPage (docs (page s)) (nextId (page s) + 2)))
      with (bodyTotal (page s)) in H.
    lia.
Qed.

(** In the document that is processed, the body gains what the counter
    gains. *)
Lemma Step_bodies (c : string) (d : DocId) (st st' : AddState) :
  Step c d st st' ->
  length (bodyChildren (docOf (page st') d)) + counter st
  = length (bodyChildren (docOf (page st) d)) + counter st'.
Proof.
  intros [s n | s Hs Hr | s x Hx Hb]; cbn [page counter].
  - reflexivity.
  - rewrite docOf_setDoc_eq by exact Hr.
    now rewrite bodyChildren_prependTo by apply stylesheetLink_not_body.
  - rewrite docOf_setDoc_eq by (apply body_root; exact Hb).
    rewrite bodyChildren_addChild by exact Hb. rewrite length_app. simpl. lia.
Qed.

Lemma Steps_bodies (c : string) (d : DocId) (st st' : AddState) :
  Steps c [d] st st' ->
  length (bodyChildren (docOf (page st') d)) + counter st
  = length (bodyChildren (docOf (page st) d)) + counter st'.
Proof.
  induction 1 as [|x y z [d' [[<-|[]] Hstep]] _ IH]; [reflexivity|].
  apply Step_bodies in Hstep. lia.
Qed.

Lemma Steps_account (c : string) (ds : list DocId) (st st' : AddState) :
  Steps c ds st st' ->
  bodyTotal (page st') + counter st = bodyTotal (page st) + counter st'.
Proof.
  induction 1 as [|x y z [d [_ Hstep]] _ IH]; [reflexivity|].
  apply Step_accounts in Hstep. lia.
Qed.

(** ** Document order after insertion *)

Lemma flat_map_preorder_app (l1 l2 : list Element) :
  flat_map preorder (l1 ++ l2) = flat_map preorder l1 ++ flat_map preorder l2.
Proof. apply flat_map_app. Qed.

Lemma onFirst_none {X} (p : X -> bool) (f : X -> X) (l : list X) :
  List.find p l = None -> onFirst p f l = l.
Proof.
  induction l as [|x l IH]; [reflexivity|].
  simpl. destruct (p x); [discriminate|]. intros H. now rewrite IH.
Qed.

Lemma preorder_onFirst_add (ovs ks : list Element) :
  List.find isBodyTag ks <> None ->
  exists l1 l2,
    flat_map preorder ks = l1 ++ l2 /\
    flat_map preorder (onFirst isBodyTag (addChildren ovs) ks)
    = l1 ++ flat_map preorder ovs ++ l2.
Proof.
  induction ks as [|k ks IH]; simpl; [congruence|].
  destruct (isBodyTag k) eqn:Hk; intros Hf.
  - exists (preorder k), (flat_map preorder ks). split; [reflexivity|].
    destruct k as [b bk]. simpl. rewrite flat_map_preorder_app, <- !app_assoc. reflexivity.
  - destruct (IH Hf) as [l1 [l2 [H1 H2]]].
    exists (preorder k ++ l1), l2. simpl. rewrite H1, H2, <- !app_assoc. tauto.
Qed.

(** The elements of a grafted document: the root, the links, the part of
    the old document up to the end of the body, the overlays, the rest. *)
Lemma elements_graft (links ovs : list Element) (doc : Document) :
  (body doc = None -> ovs = []) ->
  documentElement doc <> None ->
  exists r l1 l2,
    elements doc = r :: l1 ++ l2 /\
    elements (graft links ovs doc)
    = r :: flat_map preorder links ++ l1 ++ flat_map preorder ovs ++ l2.
Proof.
  intros Hb Hr. destruct doc as [q [[r ks]|]]; [|exfalso; now apply Hr].
  unfold graft, prependAll, onBody, elements, body in *. simpl in *.
  destruct (tagIs "html" r) eqn:Hh; simpl.
  - destruct (List.find isBodyTag ks) eqn:Hf.
    + destruct (preorder_onFirst_add ovs ks) as [l1 [l2 [H1 H2]]]; [congruence|].
      exists r, l1, l2. rewrite flat_map_preorder_app, H1, H2. tauto.
    + rewrite (Hb eq_refl), (onFirst_none _ _ _ Hf).
      exists r, (flat_map preorder ks), []. rewrite flat_map_preorder_app.
      simpl. rewrite !app_nil_r. tauto.
  - rewrite (Hb eq_refl). exists r, (flat_map preorder ks), [].
    rewrite flat_map_preorder_app. simpl. rewrite !app_nil_r. tauto.
Qed.

Lemma graft_rootless (links ovs : list Element) (doc : Document) :
  documentElement doc = None -> graft links ovs doc = doc.
Proof. destruct doc as [q [r|]]; [discriminate | reflexivity]. Qed.

Lemma graft_root (links ovs : list Element) (doc : Document) :
  documentElement (graft links ovs doc) <> None -> documentElement doc <> None.
Proof.
  intros H Hn. now rewrite (graft_rootless _ _ _ Hn) in H.
Qed.

Lemma filter_nil_iff {X} (P : X -> bool) (l : list X) :
  List.filter P l = [] <-> forall x, In x l -> P x = false.
Proof.
  induction l as [|a l IH]; simpl; [tauto|].
  destruct (P a) eqn:Ha.
  - split; [discriminate|]. intros H. specialize (H a (or_introl eq_refl)). congruence.
  - rewrite IH. split.
    + intros H x [<-|Hx]; auto.
    + intros H x Hx. apply H. now right.
Qed.

(** ** The page after a run of transitions *)

Lemma preorder_links (us : list nat) :
  flat_map preorder (map stylesheetLink us) = map linkData us.
Proof. induction us as [|u us IH]; [reflexivity|]. simpl. now rewrite IH. Qed.

Lemma links_not_body (us : list nat) :
  Forall (fun l => isBodyTag l = false) (map stylesheetLink us).
Proof. induction us; constructor; auto. Qed.

Lemma GrownDoc_refl c lo hi doc : GrownDoc c lo hi doc doc.
Proof.
  exists [], []. unfold GrownAs. simpl. rewrite graft_nil.
  repeat split; auto; constructor.
Qed.

Lemma GrownDoc_mono c lo hi hi' old new :
  hi <= hi' -> GrownDoc c lo hi old new -> GrownDoc c lo hi' old new.
Proof.
  intros Hle (us & ovs & Hnew & Hus & Hovs & Hnd & Hb & Hr0 & Hone).
  exists us, ovs. split; [assumption|]. split.
  { eapply Forall_impl; [exact Hus|]. simpl. intros; lia. }
  split; [|tauto].
  eapply Forall_impl; [exact Hovs|]. simpl. intros x (u & Hx & H1 & H2).
  exists u. repeat split; auto; lia.
Qed.

Lemma Grown_refl c pg : Grown c pg pg.
Proof. repeat split; auto. intros d. apply GrownDoc_refl. Qed.

Lemma styled_link (u : nat) : hasAttr "href" stylesHref (linkData u) = true.
Proof. reflexivity. Qed.

Lemma GrownDoc_link c lo hi old cur :
  lo <= hi ->
  GrownDoc c lo hi old cur ->
  styled cur = [] -> documentElement cur <> None ->
  GrownDoc c lo (S hi) old (prependTo (stylesheetLink hi) cur).
Proof.
  intros Hle (us & ovs & -> & Hus & Hovs & Hnd & Hb & Hr0 & Hone) Hs Hr.
  apply graft_root in Hr.
  destruct (elements_graft (map stylesheetLink us) ovs old Hb Hr) as (r & l1 & l2 & Ho & Hn).
  unfold styled in Hs. rewrite Hn, preorder_links in Hs.
  rewrite filter_nil_iff in Hs.
  assert (Hus0 : us = []).
  { destruct us as [|u us]; [reflexivity|]. exfalso.
    assert (Hin : In (linkData u)
                    (r :: map linkData (u :: us) ++ l1 ++ flat_map preorder ovs ++ l2)).
    { right. apply in_or_app. left. now left. }
    apply Hs in Hin. rewrite styled_link in Hin. discriminate. }
  subst us.
  assert (Hso : styled old = []).
  { unfold styled. rewrite filter_nil_iff. intros e He. apply Hs.
    rewrite Ho in He. simpl in *. rewrite !in_app_iff in *. tauto. }
  exists [hi], ovs. rewrite prependTo_graft.
  split; [reflexivity|]. split; [constructor; [lia | constructor]|].
  split; [|repeat split; auto; intros; contradiction].
  eapply Forall_impl; [exact Hovs|]. simpl. intros x (u & Hx & H1 & H2).
  exists u. repeat split; auto; lia.
Qed.

Lemma IsOverlay_uid c u x : IsOverlay c u x -> uid (data x) = u.
Proof. intros (r & dnd & text & ->). reflexivity. Qed.

Lemma GrownDoc_overlay c lo hi old cur x :
  lo <= hi ->
  GrownDoc c lo hi old cur ->
  IsOverlay c hi x -> body cur <> None ->
  GrownDoc c lo (hi + 2) old (onBody (addChild x) cur).
Proof.
  intros Hle (us & ovs & -> & Hus & Hovs & Hnd & Hb & Hr0 & Hone) Hx Hbody.
  exists us, (ovs ++ [x]).
  rewrite addChild_graft by apply links_not_body.
  split; [reflexivity|]. split.
  { eapply Forall_impl; [exact Hus|]. simpl. intros; lia. }
  split.
  { apply Forall_app. split.
    - eapply Forall_impl; [exact Hovs|]. simpl. intros y (u & Hy & H1 & H2).
      exists u. repeat split; auto; lia.
    - constructor; [|constructor]. exists hi. repeat split; auto; lia. }
  split.
  { rewrite map_app. simpl. rewrite (IsOverlay_uid _ _ _ Hx).
    apply NoDup_app. repeat split; [assumption | | apply NoDup_singleton].
    intros u Hu Hhi. apply list_elem_of_singleton in Hhi. subst u.
    apply list_elem_of_In, in_map_iff in Hu as (y & Hy & Hin).
    rewrite Forall_forall in Hovs. apply list_elem_of_In in Hin.
    destruct (Hovs y Hin) as (u & Hyo & _ & Hlt).
    rewrite (IsOverlay_uid _ _ _ Hyo) in Hy. lia. }
  split; [|split; assumption].
  intros Hn. exfalso. apply Hbody.
  rewrite body_graft by apply links_not_body. now rewrite Hn.
Qed.

Lemma Grown_step c d base st st' :
  Grown c base (page st) -> Step c d st st' -> Grown c base (page st').
Proof.
  intros HG Hstep. revert HG.
  destruct Hstep as [s n | s Hs Hr | s x Hx Hb]; intros (Hlen & Hle & Hdocs); simpl in *.
  - split; [exact Hlen|]. split; [simpl; lia|].
    intros d'. eapply GrownDoc_mono; [|apply Hdocs]. simpl. lia.
  - split; [simpl; now rewrite length_insert|]. split; [simpl; lia|].
    intros d'. simpl. destruct (Nat.eq_dec d d') as [<-|Hne].
    + rewrite docOf_setDoc_eq by exact Hr. now apply GrownDoc_link.
    + rewrite docOf_setDoc_ne by exact Hne.
      eapply GrownDoc_mono; [|apply Hdocs]. simpl. lia.
  - split; [simpl; now rewrite length_insert|]. split; [simpl; lia|].
    intros d'. simpl. destruct (Nat.eq_dec d d') as [<-|Hne].
    + rewrite docOf_setDoc_eq by (apply body_root; exact Hb). now apply GrownDoc_overlay.
    + rewrite docOf_setDoc_ne by exact Hne.
      eapply GrownDoc_mono; [|apply Hdocs]. simpl. lia.
Qed.

Lemma Grown_steps c ds base st st' :
  Steps c ds st st' -> Grown c base (page st) -> Grown c base (page st').
Proof.
  induction 1 as [|x y z [d [_ Hstep]] _ IH]; [auto|].
  intros H. apply IH. eapply Grown_step; eauto.
Qed.

(** Documents outside [ds] are not touched. *)
Lemma Steps_elsewhere c ds st st' d :
  Steps c ds st st' -> ~ In d ds -> docOf (page st') d = docOf (page st) d.
Proof.
  induction 1 as [|x y z [d' [Hin Hstep]] _ IH]; [reflexivity|].
  intros Hd. rewrite (IH Hd).
  assert (Hne : d' <> d) by (intros ->; auto).
  destruct Hstep as [s n | s Hs Hr | s x' Hx Hb]; simpl;
    [reflexivity | now rewrite docOf_setDoc_ne | now rewrite docOf_setDoc_ne].
Qed.

(** ** What a grown document shows *)

Lemma grown_elements c lo hi old new us ovs :
  GrownAs c lo hi old new us ovs ->
  documentElement old <> None ->
  exists r l1 l2,
    elements old = r :: l1 ++ l2 /\
    elements new = r :: map linkData us ++ l1 ++ flat_map preorder ovs ++ l2.
Proof.
  intros (-> & _ & _ & _ & Hb & _ & _) Hr.
  destruct (elements_graft (map stylesheetLink us) ovs old Hb Hr) as (r & l1 & l2 & Ho & Hn).
  exists r, l1, l2. now rewrite Hn, preorder_links.
Qed.

Lemma grown_rootless c lo hi old new us ovs :
  GrownAs c lo hi old new us ovs ->
  documentElement old = None -> new = old /\ us = [] /\ ovs = [].
Proof.
  intros (-> & _ & _ & _ & Hb & Hr0 & _) Hr.
  rewrite graft_rootless by exact Hr. repeat split; auto.
  apply Hb. unfold body. now rewrite Hr.
Qed.

Lemma filter_overlays_none (P : ElemData -> bool) c lo hi (ovs : list Element) :
  Forall (fun x => exists u, IsOverlay c u x /\ lo <= u /\ S u < hi) ovs ->
  (forall u r dnd text, List.filter P (preorder (overlayOf c u r dnd text)) = []) ->
  List.filter P (flat_map preorder ovs) = [].
Proof.
  intros Hovs HP. induction Hovs as [|x ovs (u & (r & dnd & text & ->) & _) _ IH];
    [reflexivity|].
  cbn [flat_map]. rewrite List.filter_app, HP, IH. reflexivity.
Qed.

(** A test that no link and no overlay passes sees the old document. *)
Lemma grown_filter_same (P : ElemData -> bool) c lo hi old new :
  GrownDoc c lo hi old new ->
  (forall u, P (linkData u) = false) ->
  (forall u r dnd text, List.filter P (preorder (overlayOf c u r dnd text)) = []) ->
  List.filter P (elements new) = List.filter P (elements old).
Proof.
  intros (us & ovs & HG) Hl Ho.
  destruct (documentElement old) eqn:Hr.
  - destruct (grown_elements _ _ _ _ _ _ _ HG) as (r & l1 & l2 & Hold & Hnew);
      [congruence|].
    rewrite Hold, Hnew.
    destruct HG as (_ & _ & Hovs & _).
    change (r :: map linkData us ++ l1 ++ flat_map preorder ovs ++ l2)
      with ([r] ++ map linkData us ++ l1 ++ flat_map preorder ovs ++ l2).
    change (r :: l1 ++ l2) with ([r] ++ l1 ++ l2).
    rewrite !List.filter_app, (filter_overlays_none _ _ _ _ _ Hovs Ho).
    replace (List.filter P (map linkData us)) with (@nil ElemData); [reflexivity|].
    symmetry. apply filter_nil_iff. intros x Hx.
    apply in_map_iff in Hx as (u & <- & _). apply Hl.
  - now destruct (grown_rootless _ _ _ _ _ _ _ HG Hr) as (-> & _).
Qed.

(** The reachable documents are the same after a run of transitions. *)
Lemma Grown_reachable c base cur : Grown c base cur -> reachable cur = reachable base.
Proof.
  intros (_ & _ & Hd). unfold reachable. do 2 f_equal.
  apply (grown_filter_same _ _ _ _ _ _ (Hd document)); reflexivity.
Qed.

Lemma grown_styled c lo hi old new us ovs :
  GrownAs c lo hi old new us ovs ->
  styled new = match us with [] => styled old | _ => map linkData us end.
Proof.
  intros HG. destruct (documentElement old) eqn:Hr.
  - destruct (grown_elements _ _ _ _ _ _ _ HG) as (r & l1 & l2 & Hold & Hnew);
      [congruence|].
    destruct HG as (_ & _ & Hovs & _ & _ & _ & Hone).
    unfold styled in *. rewrite Hnew.
    change (r :: map linkData us ++ l1 ++ flat_map preorder ovs ++ l2)
      with ([r] ++ map linkData us ++ l1 ++ flat_map preorder ovs ++ l2).
    rewrite !List.filter_app,
      (filter_overlays_none (hasAttr "href" stylesHref) _ _ _ _ Hovs
         (fun _ _ _ _ => eq_refl)).
    destruct Hone as [-> | [Hs Hlen]].
    + rewrite Hold. change (r :: l1 ++ l2) with ([r] ++ l1 ++ l2).
      now rewrite !List.filter_app.
    + rewrite Hold in Hs. change (r :: l1 ++ l2) with ([r] ++ l1 ++ l2) in Hs.
      rewrite !List.filter_app in Hs.
      apply app_eq_nil in Hs as [H0 Hs]. apply app_eq_nil in Hs as [H1 H2].
      rewrite H0, H1, H2. simpl. rewrite app_nil_r.
      destruct us as [|u us]; [discriminate|].
      apply List.forallb_filter_id.
      apply forallb_forall. intros x Hx.
      apply in_map_iff in Hx as (v & <- & _). reflexivity.
  - destruct (grown_rootless _ _ _ _ _ _ _ HG Hr) as (-> & -> & _). reflexivity.
Qed.

Lemma quirks_onBody (f : Element -> Element) (doc : Document) :
  quirks (onBody f doc) = quirks doc.
Proof.
  unfold onBody. destruct (documentElement doc) as [[r ks]|]; [|reflexivity].
  now destruct (tagIs "html" r).
Qed.

Lemma quirks_prependAll (xs : list Element) (doc : Document) :
  quirks (prependAll xs doc) = quirks doc.
Proof. unfold prependAll. now destruct (documentElement doc) as [[r ks]|]. Qed.

Lemma quirks_graft (links ovs : list Element) (doc : Document) :
  quirks (graft links ovs doc) = quirks doc.
Proof. unfold graft. now rewrite quirks_prependAll, quirks_onBody. Qed.

Lemma marked_overlays q c lo hi (ovs : list Element) :
  Forall (fun x => exists u, IsOverlay c u x /\ lo <= u /\ S u < hi) ovs ->
  List.filter (isMarked q c) (flat_map preorder ovs) = map data ovs.
Proof.
  intros Hovs. induction Hovs as [|x ovs (u & (r & dnd & text & ->) & _) _ IH];
    [reflexivity|].
  cbn [flat_map map]. rewrite List.filter_app, IH.
  cbn. unfold isMarked, hasClassIn, hasClassFolded, hasClass. cbn.
  destruct q; now rewrite String.eqb_refl.
Qed.

Lemma link_not_marked q c u : isMarked q c (linkData u) = false.
Proof. now destruct q. Qed.

(** When the old document has no marked element, the marked elements of
    the grown one are its overlays, in the order of insertion. *)
Lemma grown_marked c lo hi old new us ovs :
  GrownAs c lo hi old new us ovs ->
  marked c old = [] -> marked c new = map data ovs.
Proof.
  intros HG Hm. destruct (documentElement old) eqn:Hr.
  - destruct (grown_elements _ _ _ _ _ _ _ HG) as (r & l1 & l2 & Hold & Hnew);
      [congruence|].
    destruct HG as (Hnew' & _ & Hovs & _).
    assert (Hq : quirks new = quirks old) by (rewrite Hnew'; apply quirks_graft).
    unfold marked in *. rewrite Hq, Hnew. rewrite Hold in Hm.
    change (r :: map linkData us ++ l1 ++ flat_map preorder ovs ++ l2)
      with ([r] ++ map linkData us ++ l1 ++ flat_map preorder ovs ++ l2).
    change (r :: l1 ++ l2) with ([r] ++ l1 ++ l2) in Hm.
    rewrite !List.filter_app in *.
    apply app_eq_nil in Hm as [H0 Hm]. apply app_eq_nil in Hm as [H1 H2].
    rewrite H0, H1, H2, (marked_overlays _ _ _ _ _ Hovs), app_nil_r.
    replace (List.filter (isMarked (quirks old) c) (map linkData us))
      with (@nil ElemData);
      [reflexivity|].
    symmetry. apply filter_nil_iff. intros x Hx.
    apply in_map_iff in Hx as (u & <- & _). apply link_not_marked.
  - destruct (grown_rootless _ _ _ _ _ _ _ HG Hr) as (-> & _ & ->). now rewrite Hm.
Qed.

Lemma grown_bodyChildren c lo hi old new us ovs :
  GrownAs c lo hi old new us ovs ->
  bodyChildren new = bodyChildren old ++ ovs.
Proof.
  intros (-> & _ & _ & _ & Hb & _). unfold bodyChildren.
  rewrite body_graft by apply links_not_body.
  destruct (body old) as [b|]; simpl; [reflexivity|]. now rewrite Hb.
Qed.

Lemma Grown_bodies c base cur (d : DocId) :
  Grown c base cur ->
  exists ovs,
    bodyChildren (docOf cur d) = bodyChildren (docOf base d) ++ ovs /\
    Forall (fun x => exists u, IsOverlay c u x) ovs.
Proof.
  intros (_ & _ & Hd). destruct (Hd d) as (us & ovs & HG).
  exists ovs. split; [eapply grown_bodyChildren; exact HG|].
  destruct HG as (_ & _ & Hovs & _).
  eapply Forall_impl; [exact Hovs|]. simpl. intros x (u & Hx & _). eauto.
Qed.

Lemma idsBelow_spec (pg : Page) : idsBelow pg = true -> IdsBelow pg.
Proof.
  unfold idsBelow, IdsBelow. rewrite forallb_forall. intros H d e He.
  unfold docOf in He. destruct (docs pg !! d) as [doc|] eqn:Hd; simpl in He; [|contradiction].
  specialize (H doc). rewrite forallb_forall in H.
  apply Nat.ltb_lt. apply H; [|exact He].
  apply list_elem_of_In. eapply list_elem_of_lookup_2. exact Hd.
Qed.

Lemma overlay_ids c u x e :
  IsOverlay c u x -> In e (preorder x) -> uid e = u \/ uid e = S u.
Proof.
  intros (r & dnd & text & ->) [<-|[<-|[]]]; [now left | now right].
Qed.

Lemma grown_ids c lo hi old new :
  GrownDoc c lo hi old new ->
  forall e, In e (elements new) -> In e (elements old) \/ lo <= uid e < hi.
Proof.
  intros (us & ovs & HG) e He. destruct (documentElement old) eqn:Hr.
  - destruct (grown_elements _ _ _ _ _ _ _ HG) as (r & l1 & l2 & Hold & Hnew);
      [congruence|].
    destruct HG as (_ & Hus & Hovs & _).
    rewrite Hnew in He. rewrite Hold. simpl in *. rewrite !in_app_iff in *.
    destruct He as [He|[He|[He|[He|He]]]]; try tauto.
    + right. apply in_map_iff in He as (u & <- & Hu).
      rewrite Forall_forall in Hus. apply list_elem_of_In in Hu.
      apply (Hus u Hu).
    + right. apply in_flat_map in He as (x & Hx & Hex).
      rewrite Forall_forall in Hovs. apply list_elem_of_In in Hx.
      destruct (Hovs x Hx) as (u & Hxo & H1 & H2).
      destruct (overlay_ids _ _ _ _ Hxo Hex); lia.
  - destruct (grown_rootless _ _ _ _ _ _ _ HG Hr) as (-> & _). now left.
Qed.

Lemma IdsBelow_grown c base cur : IdsBelow base -> Grown c base cur -> IdsBelow cur.
Proof.
  intros Hb (_ & Hle & Hd) d e He.
  destruct (grown_ids _ _ _ _ _ (Hd d) e He) as [Ho|Hn]; [|lia].
  specialize (Hb d e Ho). lia.
Qed.

(* ================================================================== *)
(** ** Removal when there is nothing to remove *)

Lemma forEach_idle {S A} (f : A -> M S unit) (l : list A) (s : S) :
  (forall a, In a l -> f a s = (Val tt, s)) -> forEach f l s = (Val tt, s).
Proof.
  induction l as [|a l IH]; intros Hf; [reflexivity|].
  simpl. unfold bind. rewrite (Hf a (or_introl eq_refl)).
  apply IH. intros b Hb. apply Hf. now right.
Qed.

Lemma markerFree_spec (c : string) (pg : Page) :
  markerFree c pg = true ->
  forall d, In d (reachable pg) -> marked c (docOf pg d) = [].
Proof.
  unfold markerFree. rewrite forallb_forall. intros H d Hd.
  specialize (H d Hd). rewrite forallb_forall in H.
  apply filter_nil_iff. intros e He. apply negb_true_iff. now apply H.
Qed.

Section Removal.
Context {engine : SelectorEngine}.

Lemma removeFrom_runs (c : string) (d : DocId) (pg : Page) :
  isClassName c = true ->
  removeFrom ("div." +:+ c) d pg
  = forEach (fun element => body_removeChild d element) (marked c (docOf pg d)) pg.
Proof.
  intros Hc. unfold removeFrom, bind. now rewrite querySelectorAll_marked.
Qed.

Lemma removeNodes_runs (c : string) (pg : Page) :
  removeNodes c pg = forEach (removeFrom ("div." +:+ c)) (reachable pg) pg.
Proof. unfold removeNodes, bind. now rewrite getAllDocuments_reachable. Qed.

(** C7 (amended).  For a marker class [c] that is a class name, when
    [div.c] selects no element of a reachable document, [removeNodes c]
    returns normally and leaves the page as it is; so does a second call
    after the first. *)
Theorem removeNodes_nothing_marked (c : string) (pg : Page) :
  isClassName c = true ->
  markerFree c pg = true ->
  removeNodes c pg = (Val tt, pg) /\
  (let* _ := removeNodes c in removeNodes c) pg = (Val tt, pg).
Proof.
  intros Hc Hfree.
  assert (H1 : removeNodes c pg = (Val tt, pg)).
  { rewrite removeNodes_runs. apply forEach_idle. intros d Hd.
    rewrite (removeFrom_runs _ _ _ Hc), (markerFree_spec _ _ Hfree d Hd). reflexivity. }
  split; [exact H1|]. unfold bind. now rewrite H1.
Qed.

End Removal.

(* ================================================================== *)
(** ** A document with no root element *)

Section Rootless.
Context {engine : SelectorEngine} {info : InfoModule}.

Lemma perTarget_rootless (p : Params) (d : DocId) (t : Target) (st : AddState) :
  documentElement (docOf (page st) d) = None ->
  compile (selector t) <> None ->
  perTarget p d t st = (Val tt, st).
Proof.
  intros Hr Hc. rewrite perTarget_runs. unfold queried.
  destruct (compile (selector t)) as [m|]; [|congruence].
  unfold elements. rewrite Hr. cbv zeta. cbn [List.filter kept].
  destruct (filter t); reflexivity.
Qed.

(** C9.  When a document that needs the stylesheet link has no first
    element child, [addNodes] creates the link element and never inserts
    it: no exception is raised, the document stays without the
    stylesheet, and the pass goes on through the targets (whose selectors
    are well formed) to the next document. *)
Theorem injectStylesheet_without_root (d : DocId) (pg : Page) :
  documentElement (docOf pg d) = None ->
  let pg' := mkPage (docs pg) (S (nextId pg)) in
  injectStylesheet d pg = (Val tt, pg') /\
  styled (docOf pg' d) = [] /\
  forall p k,
    Forall (fun t => compile (selector t) <> None) (targetList p) ->
    perDocument p d (mkAddState pg k) = (Val tt, mkAddState pg' k).
Proof.
  intros Hr pg'.
  assert (Hs : styled (docOf pg d) = []) by (unfold styled, elements; now rewrite Hr).
  assert (H1 : injectStylesheet d pg = (Val tt, pg')).
  { rewrite injectStylesheet_runs, Hs, Hr. reflexivity. }
  split; [exact H1|]. split; [exact Hs|].
  intros p k Hsel. unfold perDocument, bind, liftPage. simpl. rewrite H1.
  apply forEach_idle. intros t Ht.
  apply perTarget_rootless; [exact Hr|].
  rewrite Forall_forall in Hsel. apply Hsel. now apply list_elem_of_In.
Qed.

End Rootless.

(* ================================================================== *)
(** ** Handles stay valid while the page grows *)

Lemma locate_node (u : nat) (up : NodeRef) (d : ElemData) (ks : list Element) :
  locate u up (Node d ks)
  = if (uid d =? u)%nat then Some (RElement d up) else locateIn u (RElement d up) ks.
Proof. reflexivity. Qed.

Lemma locateIn_cons u up k r :
  locateIn u up (k :: r)
  = match locate u up k with Some found => Some found | None => locateIn u up r end.
Proof. reflexivity. Qed.

Lemma locateIn_app u up (l1 l2 : list Element) :
  locateIn u up (l1 ++ l2)
  = match locateIn u up l1 with Some found => Some found | None => locateIn u up l2 end.
Proof.
  induction l1 as [|k l1 IH]; [reflexivity|].
  cbn [app]. rewrite !locateIn_cons, IH. now destruct (locate u up k).
Qed.

Lemma locateIn_links u up (us : list nat) :
  Forall (fun v => v <> u) us -> locateIn u up (map stylesheetLink us) = None.
Proof.
  induction 1 as [|v us Hv _ IH]; [reflexivity|].
  cbn [map]. rewrite locateIn_cons, IH. unfold stylesheetLink. rewrite locate_node.
  change (uid _) with v. apply Nat.eqb_neq in Hv. now rewrite Hv.
Qed.

Lemma locate_overlay c u v up r dnd text :
  v <> u -> S v <> u -> locate u up (overlayOf c v r dnd text) = None.
Proof.
  intros H1 H2. unfold overlayOf. rewrite locate_node. cbn [uid].
  apply Nat.eqb_neq in H1. rewrite H1, locateIn_cons, locate_node.
  change (uid (setAttribute "title" text
                 (mkElemData (S v) "DIV" [] [] "block" "visible" None (0, 0, 0, 0)%Z false)))
    with (S v).
  apply Nat.eqb_neq in H2. now rewrite H2.
Qed.

Lemma locateIn_overlays c lo hi u up (ovs : list Element) :
  u < lo ->
  Forall (fun x => exists v, IsOverlay c v x /\ lo <= v /\ S v < hi) ovs ->
  locateIn u up ovs = None.
Proof.
  intros Hu Hovs.
  induction Hovs as [|x ovs (v & (r & dnd & text & ->) & Hv & _) _ IH]; [reflexivity|].
  rewrite locateIn_cons, IH, locate_overlay; [reflexivity | lia | lia].
Qed.

Lemma locateIn_onFirst u up (ovs ks : list Element) :
  (forall up', locateIn u up' ovs = None) ->
  locateIn u up (onFirst isBodyTag (addChildren ovs) ks) = locateIn u up ks.
Proof.
  intros Hovs. induction ks as [|k ks IH]; [reflexivity|].
  cbn [onFirst]. destruct (isBodyTag k).
  - rewrite !locateIn_cons. destruct k as [b bk]. unfold addChildren. cbn [data childNodes].
    rewrite !locate_node, locateIn_app, Hovs.
    destruct (uid b =? u)%nat; [reflexivity|].
    now destruct (locateIn u (RElement b up) bk).
  - now rewrite !locateIn_cons, IH.
Qed.

(** A handle to an element of the old document reads the same in the
    grown one. *)
Lemma grown_refOf c lo hi old new (e : ElemData) :
  GrownDoc c lo hi old new -> uid e < lo -> refOf new e = refOf old e.
Proof.
  intros (us & ovs & -> & Hus & Hovs & _ & Hb & _) Hu.
  unfold refOf, graft, prependAll, onBody.
  destruct old as [q [[r ks]|]]; [|reflexivity]. cbn [documentElement].
  assert (Hl : forall up, locateIn (uid e) up (map stylesheetLink us) = None).
  { intros up. apply locateIn_links. eapply Forall_impl; [exact Hus|].
    simpl. intros; lia. }
  assert (Ho : forall up, locateIn (uid e) up ovs = None).
  { intros up. eapply locateIn_overlays; eauto. }
  destruct (tagIs "html" r); cbn [documentElement];
    rewrite !locate_node, locateIn_app, Hl; [now rewrite locateIn_onFirst | reflexivity].
Qed.

Lemma Grown_refOf c base cur (d : DocId) (e : ElemData) :
  Grown c base cur -> uid e < nextId base ->
  refOf (docOf cur d) e = refOf (docOf base d) e.
Proof. intros (_ & _ & Hd) Hu. eapply grown_refOf; eauto. Qed.

(* ================================================================== *)
(** ** The count of [addNodes] *)

Section Counting.
Context {engine : SelectorEngine} {info : InfoModule}.

Lemma addNodes_runs (p : Params) (pg : Page) :
  addNodes p pg =
  match forEach (perDocument p) (reachable pg) (mkAddState pg 0) with
  | (Val _, st) => (Val (counter st), st)
  | (Exc x, st) => (Exc x, st)
  end.
Proof.
  unfold addNodes, bind at 1, liftPage. cbn [page counter].
  rewrite getAllDocuments_reachable. unfold bind.
  now destruct (forEach _ _ _) as [[[]|x] st].
Qed.

Lemma perDocument_runs (p : Params) (d : DocId) (st : AddState) :
  perDocument p d st
  = forEach (perTarget p d) (targetList p) (snd (liftPage (injectStylesheet d) st)).
Proof.
  unfold perDocument, bind.
  destruct (injectStylesheet_step (cssClass p) d st) as [s0 [H0 _]]. now rewrite H0.
Qed.

Lemma perElement_counts (p : Params) (d : DocId) (t : Target) (e : ElemData)
    (st st' : AddState) :
  perElement p d t e st = (Val tt, st') ->
  counter st' = counter st + (if shown (page st) d e then 1 else 0).
Proof.
  rewrite perElement_runs. cbv zeta. unfold shown.
  destruct (isVisible _) as [[|]|x].
  - destruct (getInfo p _ e t) as [i|x]; [|discriminate].
    destruct (match evalInfo p with Some f => f i t | None => Val i end) as [i'|x];
      [|discriminate].
    destruct (body (docOf (page st) d)); [|discriminate].
    intros H; inversion H; subst. reflexivity.
  - intros H; inversion H; subst. lia.
  - discriminate.
Qed.

(** The loop over the elements of one target counts the elements that
    were visible when the target was queried: overlays that go in
    meanwhile do not change what a handle shows. *)
Lemma perElements_count (p : Params) (d : DocId) (t : Target) (at_ : Page)
    (l : list ElemData) :
  (forall e, In e l -> uid e < nextId at_) ->
  forall st st',
    Grown (cssClass p) at_ (page st) ->
    forEach (perElement p d t) l st = (Val tt, st') ->
    counter st' = counter st + length (List.filter (shown at_ d) l).
Proof.
  induction l as [|e l IH]; intros Hids st st' HG Hrun; simpl in Hrun.
  - inversion Hrun; subst. simpl. lia.
  - unfold bind in Hrun. destruct (perElement p d t e st) as [[[]|x] s1] eqn:He;
      [|discriminate].
    pose proof (perElement_counts _ _ _ _ _ _ He) as Hc.
    pose proof (Grown_step _ _ _ _ _ HG (perElement_step _ _ _ _ _ _ _ He)) as HG1.
    rewrite (IH (fun a Ha => Hids a (or_intror Ha)) s1 st' HG1 Hrun), Hc.
    unfold shown at 1. rewrite (Grown_refOf _ _ _ d e HG (Hids e (or_introl eq_refl))).
    fold (shown at_ d e). cbn [List.filter]. destruct (shown at_ d e); simpl; lia.
Qed.

Lemma filter_all {X} (l : list X) : List.filter (fun _ => true) l = l.
Proof. induction l as [|a l IH]; [reflexivity|]. simpl. now rewrite IH. Qed.

Lemma kept_incl {X} (f : X -> Outcome bool) (l l' : list X) :
  kept f l = Val l' -> forall x, In x l' -> In x l.
Proof.
  revert l'. induction l as [|a r IH]; intros l' Hk x Hx.
  - cbn in Hk. injection Hk as <-. destruct Hx.
  - cbn [kept] in Hk. destruct (f a) as [keep|]; [|discriminate].
    destruct (kept f r) as [rest|]; [|discriminate]. injection Hk as <-.
    destruct keep; [destruct Hx as [<-|Hx]; [now left|]|]; right; now apply (IH rest).
Qed.

Lemma queried_elements (pg : Page) (d : DocId) (t : Target) (l : list ElemData) :
  queried pg d t = Val l -> forall e, In e l -> In e (elements (docOf pg d)).
Proof.
  unfold queried. destruct (compile (selector t)) as [m|]; [|discriminate].
  cbv zeta. intros Hq e He.
  assert (Hin : In e (List.filter (m (docOf pg d)) (elements (docOf pg d)))).
  { destruct (filter t) as [f|].
    - exact (kept_incl _ _ _ Hq e He).
    - injection Hq as <-. exact He. }
  now apply List.filter_In in Hin as [Hin _].
Qed.

Lemma candidates_elements (pg : Page) (d : DocId) (t : Target) (l : list ElemData) :
  candidates pg d t = Some l -> forall e, In e l -> In e (elements (docOf pg d)).
Proof.
  unfold candidates. destruct (queried pg d t) as [l'|] eqn:Hq; [|discriminate].
  intros [= <-]. now apply (queried_elements pg d t).
Qed.

(** One target adds to the counter the number of elements it selects in
    the page as it stands when the target is reached. *)
Lemma perTarget_count (p : Params) (d : DocId) (t : Target) (st st' : AddState) :
  IdsBelow (page st) ->
  perTarget p d t st = (Val tt, st') ->
  counter st' = counter st + length (selected (page st) d t).
Proof.
  intros Hids. rewrite perTarget_runs. unfold selected, candidates.
  destruct (queried (page st) d t) as [l|x] eqn:Hl; [|discriminate].
  intros Hrun.
  apply (perElements_count p d t (page st) _) in Hrun; [exact Hrun | | apply Grown_refl].
  intros e He. apply (Hids d e). exact (queried_elements _ _ _ _ Hl e He).
Qed.

Lemma Steps_ids c ds st st' : Steps c ds st st' -> IdsBelow (page st) -> IdsBelow (page st').
Proof.
  intros Hs Hids. eapply IdsBelow_grown; [exact Hids|].
  eapply Grown_steps; [exact Hs | apply Grown_refl].
Qed.

Lemma selectedIn_app vs1 vs2 : selectedIn (vs1 ++ vs2) = selectedIn vs1 + selectedIn vs2.
Proof. unfold selectedIn. rewrite map_app. apply sum_list_with_app. Qed.

Lemma selectedIn_cons d t at_ vs :
  selectedIn ((d, t, at_) :: vs) = length (selected at_ d t) + selectedIn vs.
Proof. reflexivity. Qed.

Lemma perTargets_count (p : Params) (d : DocId) (ts : list Target) :
  forall st st',
    IdsBelow (page st) ->
    forEach (perTarget p d) ts st = (Val tt, st') ->
    counter st' = counter st + selectedIn (targetVisits p d ts st).
Proof.
  induction ts as [|t ts IH]; intros st st' Hids Hrun; simpl in Hrun.
  - inversion Hrun; subst. unfold selectedIn. simpl. lia.
  - unfold bind in Hrun. destruct (perTarget p d t st) as [[[]|x] s1] eqn:Ht;
      [|discriminate].
    cbn [targetVisits]. rewrite Ht. cbn [snd].
    rewrite (IH s1 st' (Steps_ids _ _ _ _ (perTarget_steps _ _ _ _ _ _ Ht) Hids) Hrun).
    rewrite (perTarget_count _ _ _ _ _ Hids Ht).
    rewrite selectedIn_cons. lia.
Qed.

Lemma perDocument_count (p : Params) (d : DocId) (st st' : AddState) :
  IdsBelow (page st) ->
  perDocument p d st = (Val tt, st') ->
  counter st' = counter st
                + selectedIn (targetVisits p d (targetList p)
                                (snd (liftPage (injectStylesheet d) st))).
Proof.
  intros Hids Hd. unfold perDocument, bind in Hd.
  destruct (injectStylesheet_step (cssClass p) d st) as [s0 [H0 Hs0]].
  rewrite H0 in Hd. rewrite H0. cbn [snd].
  assert (Hids0 : IdsBelow (page s0)).
  { eapply (Steps_ids (cssClass p) [d]); [|exact Hids].
    eapply Steps_one; [|exact Hs0]. now left. }
  rewrite (perTargets_count _ _ _ _ _ Hids0 Hd).
  assert (Hk : counter s0 = counter st).
  { unfold liftPage in H0. destruct (injectStylesheet d (page st)).
    inversion H0; subst. reflexivity. }
  lia.
Qed.

Lemma perDocuments_count (p : Params) (ds : list DocId) :
  forall st st',
    IdsBelow (page st) ->
    forEach (perDocument p) ds st = (Val tt, st') ->
    counter st' = counter st + selectedIn (documentVisits p ds st).
Proof.
  induction ds as [|d ds IH]; intros st st' Hids Hrun; simpl in Hrun.
  - inversion Hrun; subst. unfold selectedIn. simpl. lia.
  - unfold bind in Hrun. destruct (perDocument p d st) as [[[]|x] s1] eqn:Hd;
      [|discriminate].
    cbn [documentVisits]. rewrite Hd. cbn [snd]. rewrite selectedIn_app.
    rewrite (IH s1 st' (Steps_ids _ _ _ _ (perDocument_steps _ _ _ _ _ Hd) Hids) Hrun).
    rewrite (perDocument_count _ _ _ _ Hids Hd). lia.
Qed.

(** The overlays go under the body of the document in which the
    elements were selected. *)
Lemma targetVisits_of (d0 : DocId) (p : Params) (d : DocId) (ts : list Target)
    (st : AddState) :
  visitsOf d0 (targetVisits p d ts st)
  = if (d =? d0)%nat then targetVisits p d ts st else [].
Proof.
  revert st. induction ts as [|t ts IH]; intros st.
  - now destruct (d =? d0)%nat.
  - cbn [targetVisits]. unfold visitsOf in *. cbn [List.filter fst].
    rewrite IH. now destruct (d =? d0)%nat.
Qed.

Lemma visitsOf_app (d0 : DocId) (vs1 vs2 : list (DocId * Target * Page)) :
  visitsOf d0 (vs1 ++ vs2) = visitsOf d0 vs1 ++ visitsOf d0 vs2.
Proof. apply List.filter_app. Qed.

Lemma perDocuments_bodies (p : Params) (ds : list DocId) :
  forall st st',
    IdsBelow (page st) ->
    forEach (perDocument p) ds st = (Val tt, st') ->
    forall d0,
      length (bodyChildren (docOf (page st') d0))
      = length (bodyChildren (docOf (page st) d0))
        + selectedIn (visitsOf d0 (documentVisits p ds st)).
Proof.
  induction ds as [|d ds IH]; intros st st' Hids Hrun d0; simpl in Hrun.
  - inversion Hrun; subst. unfold selectedIn. simpl. lia.
  - unfold bind in Hrun. destruct (perDocument p d st) as [[[]|x] s1] eqn:Hd;
      [|discriminate].
    pose proof (perDocument_steps _ _ _ _ _ Hd) as Hsteps.
    cbn [documentVisits]. rewrite Hd. cbn [snd].
    rewrite visitsOf_app, selectedIn_app, targetVisits_of.
    rewrite (IH s1 st' (Steps_ids _ _ _ _ Hsteps Hids) Hrun d0).
    destruct (Nat.eqb_spec d d0) as [->|Hne].
    + pose proof (Steps_bodies _ _ _ _ Hsteps) as Hb.
      pose proof (perDocument_count _ _ _ _ Hids Hd) as Hc. lia.
    + rewrite (Steps_elsewhere _ _ _ _ d0 Hsteps) by (intros [H|[]]; congruence).
      change (selectedIn []) with 0. lia.
Qed.

Lemma visitsOf_cons (d0 : DocId) v (vs : list (DocId * Target * Page)) :
  visitsOf d0 (v :: vs)
  = if (fst (fst v) =? d0)%nat then v :: visitsOf d0 vs else visitsOf d0 vs.
Proof. reflexivity. Qed.

Lemma flat_map_step {X Y} (f : X -> list Y) (a : X) (l : list X) :
  flat_map f (a :: l) = f a ++ flat_map f l.
Proof. reflexivity. Qed.

Lemma countedTriples_of (p : Params) (pg : Page) (d0 : DocId) :
  length (List.filter (fun x => (fst (fst x) =? d0)%nat) (countedTriples p pg))
  = selectedIn (visitsOf d0 (visits p pg)).
Proof.
  unfold countedTriples.
  induction (visits p pg) as [|[[d t] at_] vs IH]; [reflexivity|].
  rewrite flat_map_step, List.filter_app, length_app, visitsOf_cons. cbn [fst].
  destruct (Nat.eqb_spec d d0) as [->|Hne].
  - rewrite selectedIn_cons. f_equal; [|exact IH].
    rewrite List.forallb_filter_id, length_map; [reflexivity|].
    apply forallb_forall. intros x Hx. apply in_map_iff in Hx as (e & <- & _).
    cbn [fst]. apply Nat.eqb_refl.
  - replace (List.filter _ (map _ _)) with (@nil (DocId * Target * ElemData));
      [exact IH|].
    symmetry. apply filter_nil_iff. intros x Hx. apply in_map_iff in Hx as (e & <- & _).
    cbn [fst]. now apply Nat.eqb_neq.
Qed.

Lemma countedTriples_length (p : Params) (pg : Page) :
  length (countedTriples p pg) = selectedIn (visits p pg).
Proof.
  unfold countedTriples, selectedIn.
  induction (visits p pg) as [|[[d t] at_] vs IH]; [reflexivity|].
  cbn [flat_map map]. rewrite length_app, length_map, IH. reflexivity.
Qed.

Lemma targetVisits_pairs (p : Params) (d : DocId) (ts : list Target) (st : AddState) :
  map (fun v => (fst (fst v), snd (fst v))) (targetVisits p d ts st)
  = map (fun t => (d, t)) ts.
Proof.
  revert st. induction ts as [|t ts IH]; intros st; [reflexivity|].
  cbn [targetVisits map fst snd]. now rewrite IH.
Qed.

Lemma documentVisits_pairs (p : Params) (ds : list DocId) (st : AddState) :
  map (fun v => (fst (fst v), snd (fst v))) (documentVisits p ds st)
  = list_prod ds (targetList p).
Proof.
  revert st. induction ds as [|d ds IH]; intros st; [reflexivity|].
  cbn [documentVisits list_prod]. now rewrite map_app, targetVisits_pairs, IH.
Qed.

(** The count of a call that returns, in the pages of its visits: each
    target counts in the document as it stands when the target is
    processed in it. *)
Lemma addNodes_count_visits (p : Params) (pg : Page) (n : nat) (st : AddState) :
  idsBelow pg = true ->
  addNodes p pg = (Val n, st) ->
  n = length (countedTriples p pg) /\
  map (fun v => (fst (fst v), snd (fst v))) (visits p pg)
  = list_prod (reachable pg) (targetList p) /\
  (forall d t e, In (d, t, e) (countedTriples p pg) ->
     exists at_, In (d, t, at_) (visits p pg) /\ In e (selected at_ d t)) /\
  bodyTotal (page st) = bodyTotal pg + n /\
  (forall d, exists ovs,
     bodyChildren (docOf (page st) d) = bodyChildren (docOf pg d) ++ ovs /\
     Forall (fun x => exists u, IsOverlay (cssClass p) u x) ovs /\
     length ovs
     = length (List.filter (fun x => (fst (fst x) =? d)%nat) (countedTriples p pg))).
Proof.
  intros Hids Hrun. apply idsBelow_spec in Hids.
  pose proof (addNodes_steps _ _ _ _ Hrun) as Hsteps.
  pose proof (Grown_steps _ _ pg _ _ Hsteps (Grown_refl _ _)) as Hgrown.
  apply Steps_account in Hsteps. cbn [page counter] in Hsteps.
  unfold addNodes, bind at 1, liftPage in Hrun. cbn [page counter] in Hrun.
  rewrite getAllDocuments_reachable in Hrun. unfold bind, getState, ret in Hrun.
  destruct (forEach _ _ _) as [[[]|x] s1] eqn:Hloop; [|discriminate].
  inversion Hrun; subst.
  pose proof (perDocuments_bodies _ _ (mkAddState pg 0) _ Hids Hloop) as Hbodies.
  apply perDocuments_count in Hloop; [|exact Hids]. cbn [counter] in Hloop.
  split; [|split; [|split; [|split]]].
  - rewrite countedTriples_length. exact Hloop.
  - apply documentVisits_pairs.
  - intros d t e Hin. unfold countedTriples in Hin.
    apply in_flat_map in Hin as ([[d' t'] at_] & Hv & He).
    apply in_map_iff in He as (e' & Heq & He'). inversion Heq; subst.
    exists at_. split; assumption.
  - lia.
  - intros d. destruct (Grown_bodies _ _ _ d Hgrown) as (ovs & Hovs & Hshape).
    exists ovs. split; [exact Hovs|]. split; [exact Hshape|].
    specialize (Hbodies d). cbn [page] in Hbodies.
    rewrite Hovs, length_app in Hbodies. rewrite countedTriples_of.
    unfold visits. lia.
Qed.

(** The pages of the visits are grown from the page of the call. *)
Lemma targetVisits_grown (p : Params) (base : Page) (d : DocId) (ts : list Target) :
  forall st,
    Grown (cssClass p) base (page st) ->
    forall v, In v (targetVisits p d ts st) ->
      Grown (cssClass p) base (snd v) /\ fst (fst v) = d /\ In (snd (fst v)) ts.
Proof.
  induction ts as [|t ts IH]; intros st HG v Hv; [destruct Hv|].
  cbn [targetVisits] in Hv. destruct Hv as [<-|Hv].
  - cbn [fst snd]. split; [exact HG|]. split; [reflexivity | now left].
  - destruct (IH (snd (perTarget p d t st))) with (v := v) as (H1 & H2 & H3);
      [|exact Hv|split; [exact H1|]; split; [exact H2 | now right]].
    apply (Grown_steps _ [d] _ st); [|exact HG].
    apply (perTarget_steps p d t st (fst (perTarget p d t st))).
    apply surjective_pairing.
Qed.

Lemma documentVisits_grown (p : Params) (base : Page) (ds : list DocId) :
  forall st,
    Grown (cssClass p) base (page st) ->
    forall v, In v (documentVisits p ds st) ->
      Grown (cssClass p) base (snd v) /\ In (fst (fst v)) ds /\
      In (snd (fst v)) (targetList p).
Proof.
  induction ds as [|d ds IH]; intros st HG v Hv; [destruct Hv|].
  cbn [documentVisits] in Hv. apply in_app_iff in Hv as [Hv|Hv].
  - destruct (injectStylesheet_step (cssClass p) d st) as (s0 & H0 & Hs0).
    rewrite H0 in Hv. cbn [snd] in Hv.
    destruct (targetVisits_grown p base d (targetList p) s0) with (v := v)
      as (H1 & H2 & H3); [|exact Hv|].
    + exact (Grown_step _ _ _ _ _ HG Hs0).
    + split; [exact H1|]. split; [left; now symmetry | exact H3].
  - destruct (IH (snd (perDocument p d st))) with (v := v) as (H1 & H2 & H3);
      [|exact Hv|split; [exact H1|]; split; [now right | exact H3]].
    apply (Grown_steps _ [d] _ st); [|exact HG].
    apply (perDocument_steps p d st (fst (perDocument p d st))).
    apply surjective_pairing.
Qed.

(** A pass that returns has found, at every visit, a selector that is
    one and a filter that returns. *)
Lemma targetVisits_queried (p : Params) (d : DocId) (ts : list Target) :
  forall st st',
    forEach (perTarget p d) ts st = (Val tt, st') ->
    forall v, In v (targetVisits p d ts st) ->
      candidates (snd v) (fst (fst v)) (snd (fst v)) <> None.
Proof.
  induction ts as [|t ts IH]; intros st st' Hrun v Hv; [destruct Hv|].
  cbn [forEach] in Hrun. unfold bind at 1 in Hrun.
  destruct (perTarget p d t st) as [[[]|x] s1] eqn:Ht; [|discriminate].
  cbn [targetVisits] in Hv. rewrite Ht in Hv. cbn [snd] in Hv.
  destruct Hv as [<-|Hv]; [|exact (IH s1 st' Hrun v Hv)].
  cbn [fst snd]. rewrite perTarget_runs in Ht. unfold candidates.
  destruct (queried (page st) d t); [discriminate | discriminate].
Qed.

Lemma documentVisits_queried (p : Params) (ds : list DocId) :
  forall st st',
    forEach (perDocument p) ds st = (Val tt, st') ->
    forall v, In v (documentVisits p ds st) ->
      candidates (snd v) (fst (fst v)) (snd (fst v)) <> None.
Proof.
  induction ds as [|d ds IH]; intros st st' Hrun v Hv; [destruct Hv|].
  cbn [forEach] in Hrun. unfold bind at 1 in Hrun.
  destruct (perDocument p d st) as [[[]|x] s1] eqn:Hd; [|discriminate].
  cbn [documentVisits] in Hv. rewrite Hd in Hv. cbn [snd] in Hv.
  apply in_app_iff in Hv as [Hv|Hv]; [|exact (IH s1 st' Hrun v Hv)].
  rewrite perDocument_runs in Hd.
  exact (targetVisits_queried p d (targetList p) _ _ Hd v Hv).
Qed.

(** What a handle shows does not change as the page grows. *)
Lemma selected_grown (c : string) (pg q : Page) (d : DocId) (t : Target) :
  IdsBelow pg -> Grown c pg q ->
  candidates q d t = candidates pg d t ->
  selected q d t = selected pg d t.
Proof.
  intros Hids HG Hc. unfold selected. rewrite Hc.
  destruct (candidates pg d t) as [l|] eqn:Hl; [|reflexivity].
  apply filter_ext_in. intros e He. unfold shown.
  rewrite (Grown_refOf _ _ _ d e HG); [reflexivity|].
  apply (Hids d). exact (candidates_elements _ _ _ _ Hl e He).
Qed.

Lemma kept_In {X} (f : X -> Outcome bool) (l l' : list X) :
  kept f l = Val l' -> forall x, In x l' <-> In x l /\ f x = Val true.
Proof.
  revert l'. induction l as [|a r IH]; intros l' Hk x.
  - cbn in Hk. injection Hk as <-. cbn. tauto.
  - cbn [kept] in Hk. destruct (f a) as [keep|] eqn:Hfa; [|discriminate].
    destruct (kept f r) as [rest|]; [|discriminate]. injection Hk as <-.
    specialize (IH rest eq_refl x). cbn [In].
    destruct keep; cbn [In]; rewrite IH; split.
    + intros [<-|[H1 H2]]; auto.
    + intros [[<-|H1] H2]; auto.
    + intros [H1 H2]; auto.
    + intros [[<-|H1] H2]; [congruence | auto].
Qed.

(** The elements that a target selects, in the words of the count. *)
Lemma selected_Counted (pg : Page) (d : DocId) (t : Target) (e : ElemData) :
  candidates pg d t <> None ->
  In e (selected pg d t) <-> Counted pg d t e.
Proof.
  unfold selected, candidates, queried, Counted. intros Hc.
  destruct (compile (selector t)) as [m|] eqn:Hm; [|congruence]. cbv zeta in *.
  assert (Hshown : shown pg d e = true <-> isVisible (refOf (docOf pg d) e) = Val true).
  { unfold shown. destruct (isVisible (refOf (docOf pg d) e)) as [[|]|]; split;
      congruence. }
  destruct (filter t) as [f|] eqn:Hf.
  - destruct (kept (f (docOf pg d)) _) as [l|] eqn:Hk; [|congruence].
    rewrite List.filter_In, (kept_In _ _ _ Hk), List.filter_In, Hshown. split.
    + intros ((( He & Hme) & Hfe) & Hv). repeat split; try assumption.
      * now exists m.
      * intros f' [= <-]. exact Hfe.
    + intros (He & (m' & [= <-] & Hme) & Hfe & Hv). auto.
  - rewrite !List.filter_In, Hshown. split.
    + intros ((He & Hme) & Hv). repeat split; try assumption.
      * now exists m.
      * intros f' Hf'. discriminate Hf'.
    + intros (He & (m' & [= <-] & Hme) & _ & Hv). auto.
Qed.

Lemma triples_In (p : Params) (pg : Page) (d : DocId) (t : Target) (e : ElemData) :
  In (d, t, e) (triples p pg) <->
  In d (reachable pg) /\ In t (targetList p) /\ In e (selected pg d t).
Proof.
  unfold triples. rewrite in_flat_map. split.
  - intros ([d' t'] & Hdt & He). cbn [fst snd] in He.
    apply in_map_iff in He as (e' & [= <- <- <-] & He').
    apply in_prod_iff in Hdt as (Hd & Ht). auto.
  - intros (Hd & Ht & He). exists (d, t). split; [now apply in_prod|].
    cbn [fst snd]. apply in_map_iff. now exists e.
Qed.

(** When the targets select the same in the grown pages, the triples
    counted in the visits are those of the page of the call. *)
Lemma countedTriples_static (p : Params) (pg : Page) :
  IdsBelow pg -> SelectsTheSame p pg ->
  countedTriples p pg = triples p pg.
Proof.
  intros Hids Hsame. unfold countedTriples, triples.
  rewrite <- (documentVisits_pairs p (reachable pg) (mkAddState pg 0)).
  fold (visits p pg).
  assert (Hvs : forall v, In v (visits p pg) ->
            selected (snd v) (fst (fst v)) (snd (fst v))
            = selected pg (fst (fst v)) (snd (fst v))).
  { intros v Hv.
    destruct (documentVisits_grown p pg (reachable pg) (mkAddState pg 0)
                (Grown_refl _ _) v Hv) as (HG & Hd & Ht).
    apply (selected_grown (cssClass p)); [exact Hids | exact HG|].
    now apply Hsame. }
  induction (visits p pg) as [|[[d t] at_] vs IH]; [reflexivity|].
  cbn [map flat_map fst snd]. f_equal.
  - f_equal. exact (Hvs (d, t, at_) (or_introl eq_refl)).
  - apply IH. intros v Hv. apply Hvs. now right.
Qed.

(** C1 (amended).  For every call of [addNodes] that returns, and whose
    targets select in the page as it grows during the call what they
    select in the page that the call receives (none of them selects a
    node that the call inserts), the returned value is the number of
    triples (document, target, element) where the document is reachable,
    the target is in the list, and the element matches the selector of
    the target in that document, passes the filter of the target when
    there is one, and is visible; and exactly one overlay has been
    created per counted triple, behind the children of the body of the
    document of the triple. *)
Theorem addNodes_count (p : Params) (pg : Page) (n : nat) (st : AddState) :
  idsBelow pg = true ->
  SelectsTheSame p pg ->
  addNodes p pg = (Val n, st) ->
  n = length (triples p pg) /\
  (forall d t e,
     In (d, t, e) (triples p pg) <->
     In d (reachable pg) /\ In t (targetList p) /\ Counted pg d t e) /\
  bodyTotal (page st) = bodyTotal pg + n /\
  (forall d, exists ovs,
     bodyChildren (docOf (page st) d) = bodyChildren (docOf pg d) ++ ovs /\
     Forall (fun x => exists u, IsOverlay (cssClass p) u x) ovs /\
     length ovs
     = length (List.filter (fun x => (fst (fst x) =? d)%nat) (triples p pg))).
Proof.
  intros Hids Hsame Hrun.
  destruct (addNodes_count_visits p pg n st Hids Hrun) as (Hn & _ & _ & Hb & Hovs).
  apply idsBelow_spec in Hids.
  rewrite (countedTriples_static p pg Hids Hsame) in Hn, Hovs.
  split; [exact Hn|]. split; [|split; [exact Hb | exact Hovs]].
  intros d t e. rewrite triples_In.
  assert (Hq : In d (reachable pg) -> In t (targetList p) -> candidates pg d t <> None).
  { intros Hd Ht.
    rewrite addNodes_runs in Hrun.
    destruct (forEach (perDocument p) (reachable pg) (mkAddState pg 0))
      as [[[]|x] s1] eqn:Hloop; [|discriminate].
    assert (Hpair : In (d, t) (map (fun v => (fst (fst v), snd (fst v)))
                                   (documentVisits p (reachable pg) (mkAddState pg 0)))).
    { rewrite documentVisits_pairs. now apply in_prod. }
    apply in_map_iff in Hpair as (v & Hv & Hin). injection Hv as Hvd Hvt.
    pose proof (documentVisits_queried p _ _ _ Hloop v Hin) as Hc.
    destruct (documentVisits_grown p pg (reachable pg) (mkAddState pg 0)
                (Grown_refl _ _) v Hin) as (HG & _ & _).
    rewrite Hvd, Hvt in Hc. now rewrite <- (Hsame (snd v) d t HG Hd Ht). }
  split.
  - intros (Hd & Ht & He). split; [exact Hd|]. split; [exact Ht|].
    now apply selected_Counted; [apply Hq|].
  - intros (Hd & Ht & He). split; [exact Hd|]. split; [exact Ht|].
    now apply selected_Counted; [apply Hq|].
Qed.

End Counting.

(* ================================================================== *)
(** ** A throw during [addNodes] *)

Section Throwing.
Context {engine : SelectorEngine} {info : InfoModule}.

(** A throw at a target is not caught: it ends the call, in the frame in
    which it happened. *)
Lemma target_throw_aborts (p : Params) (pg : Page) d t st x st' :
  ReachesTarget p pg d t st ->
  perTarget p d t st = (Exc x, st') ->
  addNodes p pg = (Exc x, st').
Proof.
  intros (D1 & D2 & T1 & T2 & st1 & HD & HT & H1 & H2) Ht.
  rewrite addNodes_runs, HD.
  rewrite (forEach_throw _ D1 D2 d _ st1 st' x H1); [reflexivity|].
  rewrite perDocument_runs, HT. now apply (forEach_throw _ T1 T2 t _ st).
Qed.

Lemma element_throw_aborts (p : Params) (pg : Page) d t e st x st' :
  ReachesElement p pg d t e st ->
  perElement p d t e st = (Exc x, st') ->
  addNodes p pg = (Exc x, st').
Proof.
  intros (st2 & E1 & E2 & HT & Hc & H1) He.
  apply (target_throw_aborts _ _ _ _ _ _ _ HT).
  rewrite perTarget_runs. unfold candidates in Hc.
  destruct (queried (page st2) d t) as [l|]; [|discriminate]. injection Hc as ->.
  now apply (forEach_throw _ E1 E2 e _ st).
Qed.

(** C5.  During a pass of [addNodes], a malformed selector, a throw of
    [getInfo] or of [evalInfo], and a missing body at the insertion of
    an overlay are not caught: [addNodes] raises the exception and the
    call ends there, in the frame in which the exception was raised;
    whenever the call ends by an exception, every overlay inserted before
    it is still under its body (the bodies of the page hold what they
    held at the call plus one overlay for each increment of the counter:
    nothing is rolled back). *)
Theorem addNodes_throw_aborts (p : Params) (pg : Page) :
  (forall d t st,
     ReachesTarget p pg d t st -> compile (selector t) = None ->
     addNodes p pg = (Exc SyntaxError, st)) /\
  (forall d t e st,
     ReachesElement p pg d t e st ->
     isVisible (refOf (docOf (page st) d) e) = Val true ->
     (forall x, getInfo p (docOf (page st) d) e t = Exc x ->
        addNodes p pg = (Exc x, st)) /\
     (forall i f x, getInfo p (docOf (page st) d) e t = Val i ->
        evalInfo p = Some f -> f i t = Exc x ->
        addNodes p pg = (Exc x, st)) /\
     (forall i i', getInfo p (docOf (page st) d) e t = Val i ->
        match evalInfo p with Some f => f i t | None => Val i end = Val i' ->
        body (docOf (page st) d) = None ->
        addNodes p pg
        = (Exc TypeError,
           mkAddState (mkPage (docs (page st)) (nextId (page st) + 2)) (counter st)))) /\
  (forall x st',
     addNodes p pg = (Exc x, st') ->
     bodyTotal (page st') = bodyTotal pg + counter st' /\
     forall d, exists ovs,
       bodyChildren (docOf (page st') d) = bodyChildren (docOf pg d) ++ ovs /\
       Forall (fun o => exists u, IsOverlay (cssClass p) u o) ovs).
Proof.
  split; [|split].
  - intros d t st HT Hc. apply (target_throw_aborts _ _ _ _ _ _ _ HT).
    rewrite perTarget_runs. unfold queried. now rewrite Hc.
  - intros d t e st HE Hv. split; [|split].
    + intros x Hg. apply (element_throw_aborts _ _ _ _ _ _ _ _ HE).
      rewrite perElement_runs. cbv zeta. now rewrite Hv, Hg.
    + intros i f x Hg Hf Hx. apply (element_throw_aborts _ _ _ _ _ _ _ _ HE).
      rewrite perElement_runs. cbv zeta. now rewrite Hv, Hg, Hf, Hx.
    + intros i i' Hg Hi Hb. apply (element_throw_aborts _ _ _ _ _ _ _ _ HE).
      rewrite perElement_runs. cbv zeta. now rewrite Hv, Hg, Hi, Hb.
  - intros x st' Hrun.
    pose proof (addNodes_steps _ _ _ _ Hrun) as Hsteps.
    pose proof (Grown_steps _ _ pg _ _ Hsteps (Grown_refl _ _)) as Hgrown.
    apply Steps_account in Hsteps. cbn [page counter] in Hsteps.
    split; [lia|]. intros d. apply (Grown_bodies _ _ _ d Hgrown).
Qed.

End Throwing.

(* ================================================================== *)
(** ** Removal of an element that is not a child of the body *)

Lemma in_split_first {X} (eq_dec : forall a b : X, {a = b} + {a <> b}) (a : X) (l : list X) :
  In a l -> exists l1 l2, l = l1 ++ a :: l2 /\ ~ In a l1.
Proof.
  induction l as [|b l IH]; [contradiction|].
  intros Hin. destruct (eq_dec b a) as [->|Hne].
  - exists [], l. split; [reflexivity | intros []].
  - destruct Hin as [->|Hin]; [congruence|].
    destruct (IH Hin) as (l1 & l2 & -> & Hn).
    exists (b :: l1), l2. split; [reflexivity|]. intros [H|H]; [congruence | auto].
Qed.

Lemma dropChild_incl (u : nat) (l : list Element) :
  incl (map (fun k => uid (data k)) (dropChild u l)) (map (fun k => uid (data k)) l).
Proof.
  induction l as [|k l IH]; [apply incl_refl|].
  simpl. destruct (uid (data k) =? u)%nat.
  - apply incl_tl, incl_refl.
  - apply incl_cons; [now left | apply incl_tl, IH].
Qed.

Lemma isChildOf_uids (u : nat) (b : Element) :
  isChildOf u b = true <-> In u (map (fun k => uid (data k)) (childNodes b)).
Proof.
  unfold isChildOf. rewrite existsb_exists, in_map_iff. split.
  - intros (k & Hk & Hu). apply Nat.eqb_eq in Hu. eauto.
  - intros (k & Hu & Hk). exists k. split; [assumption | now apply Nat.eqb_eq].
Qed.

Lemma bodyChildren_withoutChild (u : nat) (doc : Document) :
  bodyChildren (onBody (withoutChild u) doc) = dropChild u (bodyChildren doc).
Proof.
  unfold bodyChildren. rewrite body_onBody by (intros; apply isBodyTag_withoutChild).
  now destruct (body doc).
Qed.

(** [removeChild] throws on an element that is not a child of the body,
    and then leaves the page as it is. *)
Lemma body_removeChild_stray (d : DocId) (e : ElemData) (pg : Page) :
  ~ In (uid e) (bodyUids (docOf pg d)) ->
  exists x, body_removeChild d e pg = (Exc x, pg) /\ (x = NotFoundError \/ x = TypeError).
Proof.
  intros Hn. unfold body_removeChild, bodyUids, bodyChildren in *.
  destruct (body (docOf pg d)) as [b|]; [|eauto].
  destruct (isChildOf (uid e) b) eqn:Hc; [|eauto].
  apply isChildOf_uids in Hc. contradiction.
Qed.

(** Whatever [removeChild] does, it touches one document and adds no
    child to its body. *)
Lemma body_removeChild_effect (d : DocId) (e : ElemData) (pg : Page) o pg' :
  body_removeChild d e pg = (o, pg') ->
  (forall d', d' <> d -> docOf pg' d' = docOf pg d') /\
  incl (bodyUids (docOf pg' d)) (bodyUids (docOf pg d)).
Proof.
  unfold body_removeChild.
  destruct (body (docOf pg d)) as [b|] eqn:Hb.
  - destruct (isChildOf (uid e) b); intros H; inversion H; subst.
    + split.
      * intros d' Hne. apply docOf_setDoc_ne. congruence.
      * rewrite docOf_setDoc_eq by (apply body_root; congruence).
        unfold bodyUids. rewrite bodyChildren_withoutChild. apply dropChild_incl.
    + split; [reflexivity | apply incl_refl].
  - intros H; inversion H; subst. split; [reflexivity | apply incl_refl].
Qed.

Lemma removeEach_effect (d : DocId) (l : list ElemData) (pg : Page) o pg' :
  forEach (fun element => body_removeChild d element) l pg = (o, pg') ->
  (forall d', d' <> d -> docOf pg' d' = docOf pg d') /\
  incl (bodyUids (docOf pg' d)) (bodyUids (docOf pg d)).
Proof.
  apply (forEach_keeps
           (fun s => (forall d', d' <> d -> docOf s d' = docOf pg d') /\
                     incl (bodyUids (docOf s d)) (bodyUids (docOf pg d)))).
  - intros e s o' s' _ [H1 H2] He.
    destruct (body_removeChild_effect _ _ _ _ _ He) as [H3 H4]. split.
    + intros d' Hne. now rewrite H3, H1.
    + eapply incl_tran; eauto.
  - split; [reflexivity | apply incl_refl].
Qed.

Section Stray.
Context {engine : SelectorEngine}.

Lemma removeFrom_elsewhere (c : string) (d d' : DocId) (pg : Page) o pg' :
  isClassName c = true ->
  removeFrom ("div." +:+ c) d' pg = (o, pg') -> d <> d' ->
  docOf pg' d = docOf pg d.
Proof.
  intros Hc Hrun Hne. rewrite (removeFrom_runs _ _ _ Hc) in Hrun.
  apply removeEach_effect in Hrun as [H _]. now apply H.
Qed.

Lemma removeLoop_elsewhere (c : string) (d : DocId) (ds : list DocId) (pg : Page) o pg' :
  isClassName c = true ->
  forEach (removeFrom ("div." +:+ c)) ds pg = (o, pg') -> ~ In d ds ->
  docOf pg' d = docOf pg d.
Proof.
  intros Hc Hrun Hn. revert Hrun.
  apply (forEach_keeps (fun s => docOf s d = docOf pg d)); [|reflexivity].
  intros d' s o' s' Hin Hs Hd'. rewrite <- Hs.
  eapply removeFrom_elsewhere; eauto. intros ->. contradiction.
Qed.

(** In one document: the removals stop at the first element that is not
    a child of the body, with the page as the removals before it have
    left it. *)
Lemma removeFrom_stops (c : string) (d : DocId) (q q1 : Page) l1 e l2 :
  isClassName c = true ->
  marked c (docOf q d) = l1 ++ e :: l2 ->
  forEach (fun element => body_removeChild d element) l1 q = (Val tt, q1) ->
  ~ In (uid e) (bodyUids (docOf q1 d)) ->
  exists x, removeFrom ("div." +:+ c) d q = (Exc x, q1) /\
            (x = NotFoundError \/ x = TypeError).
Proof.
  intros Hc Hm H1 Hn.
  destruct (body_removeChild_stray d e q1 Hn) as (x & Hx & Hwhich).
  exists x. split; [|exact Hwhich].
  rewrite (removeFrom_runs _ _ _ Hc), Hm.
  now apply (forEach_throw _ l1 l2 e q q1 q1 x).
Qed.

Lemma removeFrom_stray (c : string) (d : DocId) (q : Page) (e : ElemData) :
  isClassName c = true ->
  In e (marked c (docOf q d)) ->
  ~ In (uid e) (bodyUids (docOf q d)) ->
  exists x q', removeFrom ("div." +:+ c) d q = (Exc x, q').
Proof.
  intros Hc He Hn. apply in_split in He as (l1 & l2 & Hm).
  destruct (forEach (fun element => body_removeChild d element) l1 q)
    as [[[]|x] q1] eqn:H1.
  - destruct (removeFrom_stops c d q q1 l1 e l2 Hc Hm H1) as (x & Hx & _); [|eauto].
    intros Hin. apply Hn. apply removeEach_effect in H1 as [_ H1]. now apply H1.
  - exists x, q1. rewrite (removeFrom_runs _ _ _ Hc), Hm, forEach_app, H1. reflexivity.
Qed.

End Stray.

(* ================================================================== *)
(** ** Removal after insertion *)

Lemma onFirst_ext_found {X} (p : X -> bool) (f g : X -> X) (l : list X) (b : X) :
  List.find p l = Some b -> f b = g b -> onFirst p f l = onFirst p g l.
Proof.
  induction l as [|x l IH]; [discriminate|].
  simpl. destruct (p x).
  - intros H Hfg. inversion H; subst. now rewrite Hfg.
  - intros H Hfg. now rewrite IH.
Qed.

Lemma onBody_ext_body (f g : Element -> Element) (doc : Document) (b : Element) :
  body doc = Some b -> f b = g b -> onBody f doc = onBody g doc.
Proof.
  unfold body, onBody. destruct doc as [q [[r ks]|]]; simpl; [|discriminate].
  destruct (tagIs "html" r); [|discriminate].
  intros Hb Hfg. now rewrite (onFirst_ext_found _ f g ks b Hb Hfg).
Qed.

Lemma dropChild_app_fresh (u : nat) (bk r : list Element) (x : Element) :
  ~ In u (map (fun k => uid (data k)) bk) -> uid (data x) = u ->
  dropChild u (bk ++ x :: r) = bk ++ r.
Proof.
  intros Hn Hx. induction bk as [|k bk IH]; simpl.
  - apply Nat.eqb_eq in Hx. now rewrite Hx.
  - simpl in Hn. destruct (Nat.eqb_spec (uid (data k)) u) as [He|He]; [tauto|].
    rewrite IH; [reflexivity | tauto].
Qed.

(** Taking the first overlay of a grafted document out again. *)
Lemma withoutChild_graft (links : list Element) (x : Element) (ovs : list Element)
    (old : Document) (b : Element) :
  Forall (fun l => isBodyTag l = false) links ->
  body old = Some b ->
  ~ In (uid (data x)) (map (fun k => uid (data k)) (childNodes b)) ->
  onBody (withoutChild (uid (data x))) (graft links (x :: ovs) old) = graft links ovs old.
Proof.
  intros Hl Hb Hn. rewrite (onBody_graft _ _ _ _ Hl). unfold graft. f_equal.
  apply (onBody_ext_body _ _ _ b Hb).
  unfold withoutChild, addChildren. cbn [data childNodes].
  now rewrite dropChild_app_fresh.
Qed.

Lemma body_children_elements (doc : Document) (b k : Element) :
  body doc = Some b -> In k (childNodes b) -> In (data k) (elements doc).
Proof.
  unfold body, elements. destruct doc as [q [[r ks]|]]; simpl; [|discriminate].
  destruct (tagIs "html" r); [|discriminate].
  intros Hb Hk. apply find_some in Hb as [Hb _]. right.
  apply in_flat_map. exists b. split; [exact Hb|].
  destruct b as [bd bk]. simpl in *. right.
  apply in_flat_map. exists k. split; [exact Hk|]. destruct k. now left.
Qed.

Lemma graft_no_overlay (links : list Element) (doc : Document) :
  graft links [] doc = prependAll links doc.
Proof.
  unfold graft. f_equal. unfold onBody. destruct doc as [q [[r ks]|]]; simpl; [|reflexivity].
  destruct (tagIs "html" r); [|reflexivity].
  rewrite (onFirst_ext _ _ (fun x => x)); [now rewrite onFirst_id | apply addChildren_nil].
Qed.

(** The removals of all the overlays of one document, one by one,
    succeed and give back the document without them. *)
Lemma removeOverlays c lo hi (d : DocId) (us : list nat) (old : Document) (b : Element) :
  body old = Some b ->
  (forall k, In k (childNodes b) -> uid (data k) < lo) ->
  forall ovs q,
    docOf q d = graft (map stylesheetLink us) ovs old ->
    Forall (fun x => exists u, IsOverlay c u x /\ lo <= u /\ S u < hi) ovs ->
    NoDup (map (fun x => uid (data x)) ovs) ->
    exists q',
      forEach (fun element => body_removeChild d element) (map data ovs) q = (Val tt, q') /\
      docOf q' d = graft (map stylesheetLink us) [] old /\
      (forall d', d' <> d -> docOf q' d' = docOf q d').
Proof.
  intros Hb Hold. induction ovs as [|x ovs IH]; intros q Hq Hovs Hnd.
  - exists q. repeat split; auto.
  - apply Forall_cons in Hovs as [(u & Hx & Hlo & _) Hovs].
    apply NoDup_cons in Hnd as [_ Hnd].
    assert (Hfresh : ~ In (uid (data x)) (map (fun k => uid (data k)) (childNodes b))).
    { rewrite (IsOverlay_uid _ _ _ Hx). intros Hin.
      apply in_map_iff in Hin as (k & Hk & Hin). specialize (Hold k Hin). lia. }
    assert (Hroot : documentElement (docOf q d) <> None).
    { apply body_root. rewrite Hq, body_graft by apply links_not_body. now rewrite Hb. }
    assert (Hchild : isChildOf (uid (data x)) (addChildren (x :: ovs) b) = true).
    { apply isChildOf_uids. unfold addChildren. cbn [childNodes].
      rewrite map_app. apply in_or_app. right. now left. }
    assert (Hstep : body_removeChild d (data x) q
                    = (Val tt, setDoc d (graft (map stylesheetLink us) ovs old) q)).
    { unfold body_removeChild. rewrite Hq, body_graft by apply links_not_body.
      rewrite Hb. cbn [option_map].
      now rewrite Hchild, (withoutChild_graft _ _ _ _ _ (links_not_body us) Hb Hfresh). }
    destruct (IH (setDoc d (graft (map stylesheetLink us) ovs old) q)) as (q' & H1 & H2 & H3);
      [now apply docOf_setDoc_eq | exact Hovs | exact Hnd |].
    exists q'. split; [|split; [exact H2|]].
    + cbn [map forEach]. unfold bind. now rewrite Hstep.
    + intros d' Hne. rewrite (H3 d' Hne). apply docOf_setDoc_ne. congruence.
Qed.

Section RemovalAfter.
Context {engine : SelectorEngine}.

Lemma removeFrom_cleans c lo hi (base q : Page) (d : DocId) :
  isClassName c = true ->
  IdsBelow base -> lo = nextId base ->
  marked c (docOf base d) = [] ->
  GrownDoc c lo hi (docOf base d) (docOf q d) ->
  exists q',
    removeFrom ("div." +:+ c) d q = (Val tt, q') /\
    Clean c lo hi base q' d /\
    (forall d', d' <> d -> docOf q' d' = docOf q d').
Proof.
  intros Hc Hids Hlo Hm (us & ovs & HG).
  rewrite (removeFrom_runs _ _ _ Hc), (grown_marked _ _ _ _ _ _ _ HG Hm).
  destruct HG as (Hq & Hus & Hovs & Hnd & Hb & Hr0 & Hone).
  destruct (body (docOf base d)) as [b|] eqn:Hbody.
  - destruct (removeOverlays c lo hi d us (docOf base d) b Hbody) with (ovs := ovs) (q := q)
      as (q' & H1 & H2 & H3); auto.
    { intros k Hk. subst lo. apply (Hids d). eapply body_children_elements; eauto. }
    exists q'. split; [exact H1|]. split; [|exact H3].
    exists us. unfold GrownAs. repeat split; auto. constructor.
  - rewrite (Hb eq_refl) in *. exists q. split; [reflexivity|]. split; [|auto].
    exists us. unfold GrownAs. repeat split; auto.
Qed.

Lemma Clean_grown c lo hi base q d : Clean c lo hi base q d -> GrownDoc c lo hi (docOf base d) (docOf q d).
Proof. intros (us & HG). exists us, []. exact HG. Qed.

Lemma removeLoop_cleans c lo hi (base : Page) (ds : list DocId) :
  isClassName c = true ->
  IdsBelow base -> lo = nextId base ->
  (forall d, In d ds -> marked c (docOf base d) = []) ->
  forall q,
    (forall d, GrownDoc c lo hi (docOf base d) (docOf q d)) ->
    exists q',
      forEach (removeFrom ("div." +:+ c)) ds q = (Val tt, q') /\
      (forall d, GrownDoc c lo hi (docOf base d) (docOf q' d)) /\
      (forall d, In d ds -> Clean c lo hi base q' d) /\
      (forall d, Clean c lo hi base q d -> Clean c lo hi base q' d) /\
      (forall d, ~ In d ds -> docOf q' d = docOf q d).
Proof.
  intros Hc Hids Hlo. induction ds as [|d ds IH]; intros Hm q Hq.
  - exists q. repeat split; auto. intros d [].
  - destruct (removeFrom_cleans c lo hi base q d Hc Hids Hlo (Hm d (or_introl eq_refl)) (Hq d))
      as (q1 & H1 & Hclean & Hother).
    assert (Hq1 : forall d', GrownDoc c lo hi (docOf base d') (docOf q1 d')).
    { intros d'. destruct (Nat.eq_dec d' d) as [->|Hne].
      - now apply Clean_grown.
      - rewrite (Hother d' Hne). apply Hq. }
    assert (Hkeep : forall d', Clean c lo hi base q d' -> Clean c lo hi base q1 d').
    { intros d' Hd'. destruct (Nat.eq_dec d' d) as [->|Hne]; [exact Hclean|].
      unfold Clean. now rewrite (Hother d' Hne). }
    destruct (IH (fun d' Hd' => Hm d' (or_intror Hd')) q1 Hq1)
      as (q' & H2 & Hq' & Hall & Hkeep' & Helse).
    exists q'. split; [|split; [|split; [|split]]].
    + cbn [forEach]. unfold bind. now rewrite H1.
    + exact Hq'.
    + intros d' [<-|Hd']; [apply Hkeep', Hclean | now apply Hall].
    + intros d' Hd'. apply Hkeep', Hkeep, Hd'.
    + intros d' Hn. rewrite Helse by (intros H; apply Hn; now right).
      apply Hother. intros ->. apply Hn. now left.
Qed.

End RemovalAfter.

Section AddThenRemove.
Context {engine : SelectorEngine} {info : InfoModule}.

(** C3 (amended).  For a marker class [c] that is a class name, and
    such that [div.c] selects no element of a reachable document when
    [addNodes] is called with it (in a document in quirks mode the
    selector takes the class without regard to the case of ASCII
    letters), [removeNodes c] after that call returns normally and leaves
    no element that [div.c] selects in any reachable document; it deletes
    all the overlays that the call created and nothing else: every body
    has the children it had before [addNodes], and every document is the
    document it was, with at most the stylesheet link in front of the
    children of its root. *)
Theorem removeNodes_after_addNodes (p : Params) (pg : Page) (n : nat) (st : AddState) :
  isClassName (cssClass p) = true ->
  idsBelow pg = true ->
  markerFree (cssClass p) pg = true ->
  addNodes p pg = (Val n, st) ->
  exists pg',
    removeNodes (cssClass p) (page st) = (Val tt, pg') /\
    reachable pg' = reachable pg /\
    (forall d, In d (reachable pg') -> marked (cssClass p) (docOf pg' d) = []) /\
    (forall d, bodyChildren (docOf pg' d) = bodyChildren (docOf pg d)) /\
    (forall d, exists us,
       length us <= 1 /\
       docOf pg' d = prependAll (map stylesheetLink us) (docOf pg d)).
Proof.
  intros Hc Hids Hfree Hrun. apply idsBelow_spec in Hids.
  pose proof (addNodes_steps _ _ _ _ Hrun) as Hsteps.
  pose proof (Grown_steps _ _ pg _ _ Hsteps (Grown_refl _ _)) as Hgrown.
  pose proof (Grown_reachable _ _ _ Hgrown) as Hreach.
  destruct Hgrown as (_ & _ & Hdocs).
  destruct (removeLoop_cleans (cssClass p) (nextId pg) (nextId (page st)) pg (reachable pg)
              Hc Hids eq_refl (markerFree_spec _ _ Hfree) (page st) Hdocs)
    as (pg' & Hloop & Hall & Hclean & _ & Helse).
  assert (Hshape : forall d, exists us,
             length us <= 1 /\
             docOf pg' d = prependAll (map stylesheetLink us) (docOf pg d)).
  { intros d. destruct (in_dec Nat.eq_dec d (reachable pg)) as [Hin|Hout].
    - destruct (Hclean d Hin) as (us & Hq & _ & _ & _ & _ & _ & Hone).
      exists us. split; [destruct Hone as [->|[_ ->]]; simpl; lia|].
      now rewrite Hq, graft_no_overlay.
    - exists []. split; [simpl; lia|].
      rewrite (Helse d Hout), (Steps_elsewhere _ _ _ _ d Hsteps Hout).
      cbn [page]. now rewrite <- graft_no_overlay, graft_nil. }
  assert (Hreach' : reachable pg' = reachable pg).
  { unfold reachable. do 2 f_equal.
    apply (grown_filter_same (tagIs "iframe") _ _ _ _ _ (Hall document)); reflexivity. }
  exists pg'. split; [|split; [|split; [|split]]].
  - now rewrite removeNodes_runs, Hreach.
  - exact Hreach'.
  - intros d Hd. rewrite Hreach' in Hd.
    destruct (Hclean d Hd) as (us & HG).
    rewrite (grown_marked _ _ _ _ _ _ _ HG (markerFree_spec _ _ Hfree d Hd)). reflexivity.
  - intros d. destruct (Hshape d) as (us & _ & ->).
    unfold bodyChildren. now rewrite body_prependAll by apply links_not_body.
  - exact Hshape.
Qed.

End AddThenRemove.

(* ================================================================== *)
(** ** The stylesheet link *)

Lemma graft_rooted (links ovs : list Element) (doc : Document) :
  documentElement doc <> None -> documentElement (graft links ovs doc) <> None.
Proof.
  unfold graft, prependAll, onBody. destruct doc as [q [[r ks]|]]; simpl; [|congruence].
  intros _. destruct (tagIs "html" r); simpl; congruence.
Qed.

Lemma grown_rooted c lo hi old new :
  GrownDoc c lo hi old new -> documentElement old <> None -> documentElement new <> None.
Proof. intros (us & ovs & -> & _). apply graft_rooted. Qed.

Lemma grown_styled_keeps c lo hi old new :
  GrownDoc c lo hi old new -> styled old <> [] -> styled new <> [].
Proof.
  intros (us & ovs & HG) Hs. rewrite (grown_styled _ _ _ _ _ _ _ HG).
  destruct us; [exact Hs | discriminate].
Qed.

Lemma styled_prependTo (u : nat) (doc : Document) :
  documentElement doc <> None -> styled (prependTo (stylesheetLink u) doc) <> [].
Proof.
  intros Hr. destruct doc as [q [[r ks]|]]; [|exfalso; now apply Hr].
  unfold styled, elements, prependTo. cbn [documentElement preorder flat_map].
  rewrite filter_nil_iff. intros H.
  specialize (H (linkData u)). rewrite styled_link in H.
  assert (Hin : In (linkData u) (r :: preorder (stylesheetLink u) ++ flat_map preorder ks)).
  { right. apply in_or_app. left. now left. }
  specialize (H Hin). discriminate.
Qed.

Section Stylesheet.
Context {engine : SelectorEngine} {info : InfoModule}.

Lemma injectStylesheet_styles (d : DocId) (st : AddState) :
  documentElement (docOf (page st) d) <> None ->
  styled (docOf (page (snd (liftPage (injectStylesheet d) st))) d) <> [].
Proof.
  intros Hr. unfold liftPage. rewrite injectStylesheet_runs. cbn [snd page].
  destruct (styled (docOf (page st) d)) eqn:Hs; [|congruence].
  destruct (documentElement (docOf (page st) d)) eqn:Hroot; [|congruence].
  rewrite docOf_setDoc_eq by (cbn; unfold docOf in *; cbn; congruence).
  apply styled_prependTo. congruence.
Qed.

Lemma Steps_styles_keep c ds st st' (d : DocId) :
  Steps c ds st st' ->
  styled (docOf (page st) d) <> [] -> styled (docOf (page st') d) <> [].
Proof.
  intros Hs. pose proof (Grown_steps _ _ (page st) _ _ Hs (Grown_refl _ _)) as (_ & _ & Hd).
  apply (grown_styled_keeps _ _ _ _ _ (Hd d)).
Qed.

Lemma Steps_rooted c ds st st' (d : DocId) :
  Steps c ds st st' ->
  documentElement (docOf (page st) d) <> None ->
  documentElement (docOf (page st') d) <> None.
Proof.
  intros Hs. pose proof (Grown_steps _ _ (page st) _ _ Hs (Grown_refl _ _)) as (_ & _ & Hd).
  apply (grown_rooted _ _ _ _ _ (Hd d)).
Qed.

Lemma perDocument_styles (p : Params) (d : DocId) (st : AddState) o st' :
  perDocument p d st = (o, st') ->
  documentElement (docOf (page st) d) <> None ->
  styled (docOf (page st') d) <> [].
Proof.
  rewrite perDocument_runs. intros Hrun Hr.
  apply (Steps_styles_keep (cssClass p) [d] (snd (liftPage (injectStylesheet d) st))).
  - eapply forEach_steps; [|exact Hrun]. intros t s o' s' _ Ht.
    eapply perTarget_steps; exact Ht.
  - now apply injectStylesheet_styles.
Qed.

(** After the loop over the documents, every one of them that has a root
    element has an element with the stylesheet href. *)
Lemma perDocuments_style (p : Params) (ds : list DocId) :
  forall st st',
    forEach (perDocument p) ds st = (Val tt, st') ->
    forall d, In d ds -> documentElement (docOf (page st) d) <> None ->
              styled (docOf (page st') d) <> [].
Proof.
  induction ds as [|d0 ds IH]; intros st st' Hrun d Hin Hr; [contradiction|].
  simpl in Hrun. unfold bind in Hrun.
  destruct (perDocument p d0 st) as [[[]|x] s1] eqn:Hd0; [|discriminate].
  pose proof (perDocument_steps _ _ _ _ _ Hd0) as Hs0.
  destruct (in_dec Nat.eq_dec d ds) as [Hds|Hds].
  - apply (IH s1 st' Hrun d Hds). apply (Steps_rooted _ _ _ _ d Hs0 Hr).
  - destruct Hin as [->|Hin]; [|contradiction].
    apply (Steps_styles_keep (cssClass p) ds s1).
    + eapply forEach_steps; [|exact Hrun]. intros a s o' s' Ha Hd'.
      eapply Steps_mono; [|eapply perDocument_steps; exact Hd'].
      intros d' [<-|[]]; exact Ha.
    + apply (perDocument_styles _ _ _ _ _ Hd0 Hr).
Qed.

(** One call, seen from one document. *)
Lemma addNodes_styles (p : Params) (pg : Page) (n : nat) (st : AddState) (d : DocId) :
  addNodes p pg = (Val n, st) ->
  (documentElement (docOf pg d) = None -> docOf (page st) d = docOf pg d) /\
  (styled (docOf pg d) <> [] -> styled (docOf (page st) d) = styled (docOf pg d)) /\
  (In d (reachable pg) -> documentElement (docOf pg d) <> None ->
   styled (docOf pg d) = [] ->
   exists u r ks,
     styled (docOf (page st) d) = [linkData u] /\
     documentElement (docOf (page st) d) = Some (Node r (stylesheetLink u :: ks))).
Proof.
  intros Hrun.
  pose proof (addNodes_steps _ _ _ _ Hrun) as Hsteps.
  pose proof (Grown_steps _ _ pg _ _ Hsteps (Grown_refl _ _)) as (_ & _ & Hdocs).
  destruct (Hdocs d) as (us & ovs & HG). cbn [page] in HG.
  pose proof (grown_styled _ _ _ _ _ _ _ HG) as Hst.
  split; [|split].
  - intros Hr. now destruct (grown_rootless _ _ _ _ _ _ _ HG Hr) as (-> & _).
  - intros Hs. rewrite Hst.
    destruct HG as (_ & _ & _ & _ & _ & _ & [->|[Hnil _]]); [reflexivity | contradiction].
  - intros Hin Hr Hs.
    rewrite addNodes_runs in Hrun.
    destruct (forEach _ _ _) as [[[]|x] s1] eqn:Hloop; [|discriminate].
    inversion Hrun; subst.
    pose proof (perDocuments_style _ _ _ _ Hloop d Hin Hr) as Hne.
    destruct HG as (Hq & _ & _ & _ & _ & _ & Hone).
    destruct us as [|u us].
    + rewrite Hst in Hne. contradiction.
    + destruct Hone as [Hone|[_ Hlen]]; [discriminate|].
      destruct us; [|discriminate]. exists u.
      rewrite Hst, Hq. cbn [map].
      unfold graft, prependAll, onBody.
      destruct (docOf pg d) as [q [[r ks]|]]; [|exfalso; now apply Hr].
      cbn [documentElement].
      destruct (tagIs "html" r); cbn [documentElement app]; eauto.
Qed.

(** C6 (amended).  After a call of [addNodes] that returns, a reachable
    document that has a root element and had no element with the fixed
    stylesheet href holds exactly one, the link that the call has put in
    front of the children of the root; a document that had such elements
    has the same ones, and no link was inserted into it; a further call
    of [addNodes] inserts no second link.  A document that has no root
    element is left as it is, without a link. *)
Theorem addNodes_stylesheet_once (p : Params) (pg : Page) (n : nat) (st : AddState)
    (d : DocId) :
  addNodes p pg = (Val n, st) ->
  In d (reachable pg) ->
  (documentElement (docOf pg d) = None -> styled (docOf (page st) d) = []) /\
  (documentElement (docOf pg d) <> None ->
   (styled (docOf pg d) = [] ->
    exists u r ks,
      styled (docOf (page st) d) = [linkData u] /\
      documentElement (docOf (page st) d) = Some (Node r (stylesheetLink u :: ks))) /\
   (styled (docOf pg d) <> [] -> styled (docOf (page st) d) = styled (docOf pg d)) /\
   (forall p2 n2 st2,
      addNodes p2 (page st) = (Val n2, st2) ->
      styled (docOf (page st2) d) = styled (docOf (page st) d))).
Proof.
  intros Hrun Hin.
  destruct (addNodes_styles _ _ _ _ d Hrun) as (Hnone & Hsame & Hnew).
  split.
  - intros Hr. rewrite (Hnone Hr). unfold styled, elements. now rewrite Hr.
  - intros Hr. split; [|split].
    + intros Hs. now apply Hnew.
    + exact Hsame.
    + intros p2 n2 st2 Hrun2.
      destruct (addNodes_styles _ _ _ _ d Hrun2) as (_ & Hsame2 & _).
      apply Hsame2.
      destruct (styled (docOf pg d)) eqn:Hs.
      * destruct (Hnew Hin Hr eq_refl) as (u & r & ks & -> & _). discriminate.
      * rewrite Hsame; congruence.
Qed.

End Stylesheet.

(* ================================================================== *)
(** ** Concrete runs *)

(** The hidden attribute of the paragraph hides the span inside it;
    without it the span is visible. *)
Lemma isVisible_chain_spans :
  isVisible hiddenSpan = Val false /\ isVisible shownSpan = Val true.
Proof.
  split.
  - apply (proj1 (isVisible_chain hiddenSpan)).
    exists (data (elWith 6 "P" [("hidden", "")] [])). split.
    + simpl. auto.
    + right. right. left. simpl. discriminate.
  - apply (proj2 (isVisible_chain shownSpan)); [reflexivity|].
    intros a Ha [H|[H|[H|H]]]; simpl in Ha;
      repeat (destruct Ha as [<-|Ha]; [simpl in H; congruence|]); contradiction.
Defined.

(** The span is the child of a paragraph, the root has no parent
    element. *)
Lemma hasParentWithName_span :
  hasParentWithName shownSpan ["div"; "p"] = Val true /\
  hasParentWithName (RElement (data (el 0 "HTML" [] [])) RDocument) ["div"; "p"]
  = Exc TypeError.
Proof.
  destruct (hasParentWithName_parent shownSpan ["div"; "p"]) as (_ & Hroot & Hp).
  split; [|apply Hroot].
  destruct (Hp (data (el 6 "P" [] [])) eq_refl) as (b & Hb & Hiff); [discriminate|].
  rewrite Hb. f_equal. apply Hiff. simpl. auto.
Defined.

(** The selector [p] selects neither the stylesheet link nor an overlay. *)
Lemma paragraphs_select_the_same :
  SelectsTheSame (sampleParams [paragraphs]) samplePage.
Proof.
  intros q d t (_ & _ & Hd) _ [<-|[]].
  unfold candidates, queried. cbn [selector filter paragraphs]. cbv zeta.
  change (compile "p") with (Some (fun (_ : Document) e => tagIs "p" e)).
  cbv beta iota. f_equal.
  apply (grown_filter_same (tagIs "p") _ _ _ _ _ (Hd d)); reflexivity.
Qed.

(** Three visible paragraphs in the two reachable documents. *)
Lemma addNodes_count_sample :
  fst (addNodes (sampleParams [paragraphs]) samplePage) = Val 3 /\
  length (triples (sampleParams [paragraphs]) samplePage) = 3 /\
  bodyTotal (page (snd (addNodes (sampleParams [paragraphs]) samplePage)))
  = bodyTotal samplePage + 3.
Proof.
  assert (Hrun : addNodes (sampleParams [paragraphs]) samplePage
                 = (Val 3, snd (addNodes (sampleParams [paragraphs]) samplePage)))
    by (vm_compute; reflexivity).
  destruct (addNodes_count (sampleParams [paragraphs]) samplePage 3 _ eq_refl
              paragraphs_select_the_same Hrun)
    as (Hn & _ & Hb & _).
  split; [now rewrite Hrun|]. split; [now symmetry | exact Hb].
Defined.

(** The triples of that page: the paragraphs [3] and [6] of the top
    document and the paragraph [13] of the frame; the paragraph [8],
    hidden by [aria-hidden], is not counted. *)
Example triples_sample :
  map (fun x => (fst (fst x), uid (snd x)))
      (triples (sampleParams [paragraphs]) samplePage)
  = [(0, 3); (0, 6); (1, 13)].
Proof. vm_compute. reflexivity. Qed.

(** Of two paragraphs, one hidden by [aria-hidden], one gets an
    overlay. *)
Example addNodes_one_of_two :
  fst (addNodes (sampleParams [paragraphs])
         (mkPage [htmlDoc 0 [el 3 "P" [] [];
                             elWith 4 "P" [("aria-hidden", "true")] []]] 10))
  = Val 1.
Proof. vm_compute. reflexivity. Qed.

(** The frame that can be read is enumerated, the other one is not. *)
Example getAllDocuments_sample : fst (getAllDocuments samplePage) = Val [0; 1].
Proof. vm_compute. reflexivity. Qed.

(** C1, as stated, fails: a target that selects the overlays themselves
    counts the overlays that the target before it has put in.  The page
    that the call receives has three triples, the three visible
    paragraphs, and no element that [div.mark] selects; the call returns
    6 and has created six overlays. *)
Lemma addNodes_counts_inserted :
  length (triples (sampleParams [paragraphs; overlaysThemselves]) samplePage) = 3 /\
  fst (addNodes (sampleParams [paragraphs; overlaysThemselves]) samplePage) = Val 6 /\
  bodyTotal (page (snd (addNodes (sampleParams [paragraphs; overlaysThemselves])
                          samplePage)))
  = bodyTotal samplePage + 6.
Proof. vm_compute. repeat split. Qed.

(** Insertion, then removal, on the sample page. *)
Lemma removeNodes_after_addNodes_sample :
  exists pg',
    removeNodes "mark" (page (snd (addNodes (sampleParams [paragraphs]) samplePage)))
    = (Val tt, pg') /\
    forall d, bodyChildren (docOf pg' d) = bodyChildren (docOf samplePage d).
Proof.
  assert (Hrun : addNodes (sampleParams [paragraphs]) samplePage
                 = (Val 3, snd (addNodes (sampleParams [paragraphs]) samplePage)))
    by (vm_compute; reflexivity).
  destruct (removeNodes_after_addNodes (sampleParams [paragraphs]) samplePage 3 _
              eq_refl eq_refl eq_refl Hrun) as (pg' & H1 & _ & _ & H2 & _).
  exists pg'. split; assumption.
Defined.

(** C3, as stated, fails: on a page that already has a [div] of the
    marker class inside a paragraph, [addNodes] returns, [removeNodes]
    then throws, and the reachable document still has elements that
    [div.mark] selects. *)
Lemma removeNodes_after_addNodes_stray :
  fst (addNodes (sampleParams []) strayPage) = Val 0 /\
  fst (removeNodes "mark" (page (snd (addNodes (sampleParams []) strayPage))))
  = Exc NotFoundError /\
  map uid
    (marked "mark"
       (docOf (snd (removeNodes "mark" (page (snd (addNodes (sampleParams []) strayPage)))))
          document))
  = [4; 5].
Proof. vm_compute. repeat split. Qed.

(** The second target is malformed: the call throws when it reaches that
    target in the top document, and the two overlays that the first
    target has put there stay. *)
Lemma addNodes_throw_sample :
  addNodes (sampleParams [paragraphs; malformed]) samplePage
  = (Exc SyntaxError,
     snd (perTarget (sampleParams [paragraphs; malformed]) document paragraphs
            (snd (liftPage (injectStylesheet document) (mkAddState samplePage 0))))) /\
  bodyTotal (page (snd (addNodes (sampleParams [paragraphs; malformed]) samplePage)))
  = bodyTotal samplePage + 2.
Proof.
  destruct (addNodes_throw_aborts (sampleParams [paragraphs; malformed]) samplePage)
    as (Hmalformed & _ & Hkeep).
  assert (Hrun : addNodes (sampleParams [paragraphs; malformed]) samplePage
                 = (Exc SyntaxError,
                    snd (perTarget (sampleParams [paragraphs; malformed]) document paragraphs
                           (snd (liftPage (injectStylesheet document)
                                   (mkAddState samplePage 0)))))).
  { apply (Hmalformed document malformed); [|reflexivity].
    exists [], [1], [paragraphs], [], (mkAddState samplePage 0).
    repeat split; vm_compute; reflexivity. }
  split; [exact Hrun|].
  destruct (Hkeep _ _ Hrun) as (Hb & _).
  rewrite Hrun. cbn [snd]. rewrite Hb. vm_compute. reflexivity.
Defined.

(** The link goes into both documents of the sample page, once. *)
Lemma addNodes_stylesheet_sample :
  exists u r ks,
    styled (docOf (page (snd (addNodes (sampleParams [paragraphs]) samplePage))) 1)
    = [linkData u] /\
    documentElement (docOf (page (snd (addNodes (sampleParams [paragraphs]) samplePage))) 1)
    = Some (Node r (stylesheetLink u :: ks)).
Proof.
  assert (Hrun : addNodes (sampleParams [paragraphs]) samplePage
                 = (Val 3, snd (addNodes (sampleParams [paragraphs]) samplePage)))
    by (vm_compute; reflexivity).
  assert (Hin : In 1 (reachable samplePage)) by (vm_compute; auto).
  destruct (addNodes_stylesheet_once (sampleParams [paragraphs]) samplePage 3 _ 1 Hrun Hin)
    as (_ & Hrooted).
  destruct Hrooted as (Hnew & _ & _); [discriminate|].
  apply Hnew. reflexivity.
Defined.

(** C6, as stated, fails: the top document of [rootlessPage] has no
    element with the stylesheet href, [addNodes] returns, and no link has
    been inserted into it. *)
Lemma addNodes_stylesheet_rootless :
  reachable rootlessPage = [document] /\
  styled (docOf rootlessPage document) = [] /\
  fst (addNodes (sampleParams [paragraphs]) rootlessPage) = Val 0 /\
  styled (docOf (page (snd (addNodes (sampleParams [paragraphs]) rootlessPage))) document)
  = [].
Proof. vm_compute. repeat split. Qed.

(** C7, as stated, fails for a marker class that is not a class name:
    with the empty string the selector is [div.]; no element of
    [samplePage] is a [div] of that class, and [removeNodes] throws a
    [SyntaxError]. *)
Lemma removeNodes_nothing_marked_empty_class :
  markerFree "" samplePage = true /\
  removeNodes "" samplePage = (Exc SyntaxError, samplePage).
Proof. vm_compute. split; reflexivity. Qed.

(** Nothing to remove on the sample page. *)
Lemma removeNodes_nothing_marked_sample :
  removeNodes "mark" samplePage = (Val tt, samplePage).
Proof.
  apply (proj1 (removeNodes_nothing_marked "mark" samplePage eq_refl eq_refl)).
Defined.

(** The link is created for the rootless document and not inserted. *)
Lemma injectStylesheet_without_root_sample :
  injectStylesheet document rootlessPage = (Val tt, mkPage [emptyDocument] 1) /\
  perDocument (sampleParams [paragraphs]) document (mkAddState rootlessPage 0)
  = (Val tt, mkAddState (mkPage [emptyDocument] 1) 0).
Proof.
  destruct (injectStylesheet_without_root document rootlessPage eq_refl) as (H1 & _ & H2).
  split; [exact H1|].
  apply (H2 (sampleParams [paragraphs]) 0).
  constructor; [discriminate | constructor].
Defined.

(* ================================================================== *)
(** * Further properties of the functions *)

(* ================================================================== *)
(** ** Letter case *)

Lemma lowerAscii_idem (c : ascii) : lowerAscii (lowerAscii c) = lowerAscii c.
Proof. destruct c as [[] [] [] [] [] [] [] []]; reflexivity. Qed.

Lemma toLowerCase_idem (s : string) : toLowerCase (toLowerCase s) = toLowerCase s.
Proof.
  induction s as [|c s IH]; [reflexivity|].
  simpl. now rewrite lowerAscii_idem, IH.
Qed.

(* ================================================================== *)
(** ** Counting the children of a name *)

Lemma indexOfFrom_bounds (i : Z) (l : list string) (x : string) :
  (0 <= i)%Z -> indexOfFrom i l x = (-1)%Z \/ (i <= indexOfFrom i l x)%Z.
Proof.
  revert i. induction l as [|y r IH]; intros i Hi; simpl; [now left|].
  destruct (String.eqb y x); [right; lia|].
  destruct (IH (i + 1)%Z ltac:(lia)) as [H|H]; [now left | right; lia].
Qed.

Lemma indexOfFrom_found (i : Z) (l : list string) (x : string) :
  (0 <= i)%Z ->
  (indexOfFrom i l x >? -1)%Z = existsb (fun name => String.eqb name x) l.
Proof.
  revert i. induction l as [|y r IH]; intros i Hi; simpl; [reflexivity|].
  destruct (String.eqb y x); simpl.
  - apply Z.gtb_lt. lia.
  - apply IH. lia.
Qed.

Lemma indexOf_found (l : list string) (k : Element) :
  (indexOf l (tagName (data k)) >? -1)%Z = namedIn l k.
Proof. unfold indexOf, namedIn. now apply indexOfFrom_found. Qed.

Lemma countLoop_counts (tagNames : list string) (child : list Element) (count : nat) :
  countLoop tagNames child count
  = count + length (List.filter (namedIn tagNames) child).
Proof.
  revert count. induction child as [|c r IH]; intros count; simpl; [lia|].
  rewrite IH, indexOf_found. destruct (namedIn tagNames c); simpl; lia.
Qed.

Lemma namedIn_In (tagNames : list string) (k : Element) :
  namedIn tagNames k = true <-> In (tagName (data k)) tagNames.
Proof.
  unfold namedIn. rewrite existsb_exists. split.
  - intros (name & Hin & Heq). apply String.eqb_eq in Heq. now subst.
  - intros Hin. exists (tagName (data k)). split; [exact Hin | apply String.eqb_refl].
Qed.

Lemma filter_length_le_pointwise {X} (P Q : X -> bool) (l : list X) :
  (forall x, In x l -> P x = true -> Q x = true) ->
  length (List.filter P l) <= length (List.filter Q l).
Proof.
  induction l as [|x r IH]; intros H; simpl; [lia|].
  specialize (IH (fun y Hy => H y (or_intror Hy))).
  destruct (P x) eqn:HP.
  - rewrite (H x (or_introl eq_refl) HP). simpl. lia.
  - destruct (Q x); simpl; lia.
Qed.

(** X1.  [countChildrenWithTagNames] returns the number of children of
    the element whose [tagName] is, letter for letter, an entry of the
    list; the elements further down are not counted, and the result is
    at most the number of children. *)
Theorem countChildrenWithTagNames_counts (element : Element) (tagNames : list string) :
  countChildrenWithTagNames element tagNames
  = length (List.filter (namedIn tagNames) (childNodes element)) /\
  (forall k, namedIn tagNames k = true <-> In (tagName (data k)) tagNames) /\
  countChildrenWithTagNames element tagNames <= length (childNodes element).
Proof.
  unfold countChildrenWithTagNames. cbv zeta. rewrite countLoop_counts.
  split; [reflexivity|]. split; [intros k; apply namedIn_In|].
  simpl. apply List.filter_length_le.
Qed.

(** X2.  [countChildrenWithTagNames] compares [tagName] as it stands:
    when the children have their names in upper case, as the elements of
    an HTML document have, a list whose entries are not in upper case
    counts nothing. *)
Theorem countChildrenWithTagNames_upper_case (element : Element) (tagNames : list string) :
  Forall (fun k => toUpperCase (tagName (data k)) = tagName (data k)) (childNodes element) ->
  Forall (fun name => toUpperCase name <> name) tagNames ->
  countChildrenWithTagNames element tagNames = 0.
Proof.
  intros Hkids Hnames.
  unfold countChildrenWithTagNames. cbv zeta. rewrite countLoop_counts. simpl.
  apply length_zero_iff_nil, filter_nil_iff.
  intros k Hk. destruct (namedIn tagNames k) eqn:Hn; [|reflexivity].
  apply namedIn_In in Hn.
  rewrite List.Forall_forall in Hkids, Hnames.
  exfalso. apply (Hnames _ Hn). now apply Hkids.
Qed.

(** X3.  Only the membership of a name in the list matters to
    [countChildrenWithTagNames]: a list with all the entries of another
    counts at least as much, so that the order of the entries and their
    repetition change nothing. *)
Theorem countChildrenWithTagNames_incl (element : Element) (l1 l2 : list string) :
  (forall name, In name l1 -> In name l2) ->
  countChildrenWithTagNames element l1 <= countChildrenWithTagNames element l2.
Proof.
  intros Hincl.
  unfold countChildrenWithTagNames. cbv zeta. rewrite !countLoop_counts. simpl.
  apply filter_length_le_pointwise.
  intros k _ Hk. apply namedIn_In. apply Hincl. now apply namedIn_In.
Qed.

(* ================================================================== *)
(** ** The closest element of a name *)

Section Descendants.
Context {engine : SelectorEngine} {strings : StringModule}.

Lemma closestFrom_chain (m : ElemData -> bool) (el : NodeRef) :
  closestFrom m el = List.find m (chain el).
Proof.
  induction el as [| |e up IH]; simpl; try reflexivity.
  destruct (m e); [reflexivity | exact IH].
Qed.

Lemma find_found {X} (P : X -> bool) (l : list X) :
  match List.find P l with Some _ => true | None => false end = existsb P l.
Proof.
  induction l as [|x r IH]; simpl; [reflexivity|].
  destruct (P x); [reflexivity | exact IH].
Qed.

Lemma some_app {X} (f : X -> Outcome bool) (l1 l2 : list X) :
  some f (l1 ++ l2)
  = match some f l1 with
    | Val false => some f l2
    | o => o
    end.
Proof.
  induction l1 as [|x r IH]; simpl; [reflexivity|].
  destruct (f x) as [[|]|]; [reflexivity | exact IH | reflexivity].
Qed.

(** With selectors only, the loop of [some] is a plain disjunction. *)
Lemma isDescendantOf_selectors (doc : Document) (e : ElemData) (up : NodeRef)
    (tagNames : list string) :
  Forall (fun name => compile name <> None) tagNames ->
  isDescendantOf doc (RElement e up) tagNames
  = Val (existsb (fun name =>
                    match compile name with
                    | Some m => existsb (m doc) (e :: chain up)
                    | None => false
                    end) tagNames).
Proof.
  unfold isDescendantOf.
  induction tagNames as [|name r IH]; intros Hall; [reflexivity|].
  inversion Hall as [|? ? Hname Hr]; subst.
  cbn [some existsb]. unfold closest at 1.
  destruct (compile name) as [m|] eqn:Hm; [|congruence].
  rewrite closestFrom_chain, find_found.
  change (chain (RElement e up)) with (e :: chain up). cbn [existsb].
  destruct (m doc e || existsb (m doc) (chain up)); [reflexivity|].
  now apply IH.
Qed.

(** X4.  For an element, and names that are all selectors,
    [isDescendantOf] returns true exactly when one of the names selects
    the element itself or one of its ancestors: the element counts as its
    own descendant.  For a Document node, and for an empty list, it
    returns false; for [null] it throws a [TypeError]. *)
Theorem isDescendantOf_closest (doc : Document) (e : ElemData) (up : NodeRef)
    (tagNames : list string) :
  (Forall (fun name => compile name <> None) tagNames ->
   exists b, isDescendantOf doc (RElement e up) tagNames = Val b /\
     (b = true <->
      exists name m a, In name tagNames /\ compile name = Some m /\
                       (a = e \/ In a (chain up)) /\ m doc a = true)) /\
  isDescendantOf doc (RElement e up) [] = Val false /\
  isDescendantOf doc RDocument tagNames = Val false /\
  isDescendantOf doc RNull tagNames = Exc TypeError.
Proof.
  split; [|repeat split].
  intros Hall. rewrite (isDescendantOf_selectors _ _ _ _ Hall).
  eexists; split; [reflexivity|].
  rewrite existsb_exists. split.
  - intros (name & Hin & Hm).
    destruct (compile name) as [m|] eqn:Hc; [|discriminate].
    apply existsb_exists in Hm. destruct Hm as (a & Ha & Hma).
    exists name, m, a. repeat split; try assumption.
    destruct Ha as [<-|Ha]; [now left | now right].
  - intros (name & m & a & Hin & Hc & Ha & Hma).
    exists name. split; [exact Hin|]. rewrite Hc.
    apply existsb_exists. exists a. split; [|exact Hma].
    destruct Ha as [->|Ha]; [now left | now right].
Qed.

(** X5.  A name that is not a selector makes [isDescendantOf] throw a
    [SyntaxError] when no name before it in the list selects the element
    or an ancestor; when a name before it does, the result is true and
    the malformed name is never looked at. *)
Theorem isDescendantOf_malformed (doc : Document) (e : ElemData) (up : NodeRef)
    (l1 l2 : list string) (bad : string) :
  compile bad = None ->
  Forall (fun name => compile name <> None) l1 ->
  ((forall name m a, In name l1 -> compile name = Some m ->
                     In a (e :: chain up) -> m doc a = false) ->
   isDescendantOf doc (RElement e up) (l1 ++ bad :: l2) = Exc SyntaxError) /\
  ((exists name m a, In name l1 /\ compile name = Some m /\
                     In a (e :: chain up) /\ m doc a = true) ->
   isDescendantOf doc (RElement e up) (l1 ++ bad :: l2) = Val true).
Proof.
  intros Hbad Hall.
  pose proof (isDescendantOf_selectors doc e up l1 Hall) as Hl1.
  unfold isDescendantOf in *. rewrite some_app, Hl1.
  split.
  - intros Hnone.
    replace (existsb _ l1) with false.
    + cbn [some]. unfold closest. now rewrite Hbad.
    + symmetry. apply not_true_is_false. intros Hex.
      apply existsb_exists in Hex. destruct Hex as (name & Hin & Hm).
      destruct (compile name) as [m|] eqn:Hc; [|discriminate].
      apply existsb_exists in Hm. destruct Hm as (a & Ha & Hma).
      rewrite (Hnone name m a Hin Hc Ha) in Hma. discriminate.
  - intros (name & m & a & Hin & Hc & Ha & Hma).
    replace (existsb _ l1) with true; [reflexivity|].
    symmetry. apply existsb_exists. exists name. split; [exact Hin|].
    rewrite Hc. apply existsb_exists. now exists a.
Qed.

(** X6.  When the names are type selectors and the name of the parent
    is made of ASCII characters, an element for which
    [hasParentWithName] returns true is one for which [isDescendantOf]
    returns true.  (The two lower a name differently, and part on a name
    with other letters: see [hasParentWithName_latin].) *)
Theorem hasParentWithName_isDescendantOf (doc : Document) (element : NodeRef)
    (tagNames : list string) :
  Forall TypeSelector tagNames ->
  (forall p, parentElement element = Some p -> isAsciiString (tagName p) = true) ->
  hasParentWithName element tagNames = Val true ->
  isDescendantOf doc element tagNames = Val true.
Proof.
  intros Hsel Hascii Hparent.
  unfold hasParentWithName in Hparent.
  destruct element as [| |e [| |p up]]; simpl in Hparent; try discriminate.
  rewrite (toLowerCase_of_ascii _ (Hascii p eq_refl)) in Hparent.
  destruct (truthy (toLowerCase (tagName p))); [|discriminate].
  injection Hparent as Hex. apply existsb_exists in Hex.
  destruct Hex as (name & Hin & Heq). apply String.eqb_eq in Heq.
  rewrite isDescendantOf_selectors.
  - f_equal. apply existsb_exists. exists name. split; [exact Hin|].
    rewrite List.Forall_forall in Hsel.
    destruct (Hsel name Hin) as (m & -> & Hm).
    apply existsb_exists. exists p. split; [simpl; auto|].
    rewrite Hm. unfold tagIs. rewrite <- Heq, toLowerCase_idem.
    apply String.eqb_refl.
  - eapply Forall_impl; [exact Hsel|].
    intros name' (m & -> & _). discriminate.
Qed.

End Descendants.

(* ================================================================== *)
(** ** The parent test and letter case *)

(** X7.  [hasParentWithName] compares the lower-cased name of the parent
    with the entries as they stand: a list none of whose entries is in
    lower case gives false, whatever the parent. *)
Theorem hasParentWithName_lower_case {strings : StringModule} (element : NodeRef)
    (tagNames : list string) (p : ElemData) :
  parentElement element = Some p ->
  Forall (fun name => toLowerCase name <> name) tagNames ->
  hasParentWithName element tagNames = Val false.
Proof.
  intros Hp Hnames. unfold hasParentWithName. rewrite Hp. cbv zeta.
  destruct (truthy (String_prototype_toLowerCase (tagName p))); [|reflexivity].
  f_equal. apply not_true_is_false. intros Hex.
  apply existsb_exists in Hex. destruct Hex as (name & Hin & Heq).
  apply String.eqb_eq in Heq.
  rewrite List.Forall_forall in Hnames. apply (Hnames name Hin).
  rewrite <- Heq. apply toLowerCase_no_capital.
Qed.

(* ================================================================== *)
(** ** The outcomes of the visibility check *)

Lemma isVisibleRec_node (e : ElemData) (up : NodeRef) :
  (HiddenSignal e /\ isVisibleRec (RElement e up) = Val false) \/
  (~ HiddenSignal e /\ isVisibleRec (RElement e up) = isVisibleRec up).
Proof.
  pose proof (hidden_test e) as Ht. simpl.
  destruct (String.eqb (display e) "none" || String.eqb (visibility e) "hidden"
            || match getAttribute "hidden" (attributes e) with
               | Some _ => true
               | None => false
               end
            || match getAttribute "aria-hidden" (attributes e) with
               | Some v => String.eqb v "true"
               | None => false
               end).
  - left. split; [now apply Ht | reflexivity].
  - right. split; [|reflexivity]. intros Hs. apply Ht in Hs. discriminate.
Qed.

Lemma isVisibleRec_outcome (el : NodeRef) :
  (isVisibleRec el = Val false /\ exists a, In a (chain el) /\ HiddenSignal a) \/
  ((forall a, In a (chain el) -> ~ HiddenSignal a) /\
   ((isVisibleRec el = Val true /\ inDocument el = true) \/
    (isVisibleRec el = Exc TypeError /\ inDocument el = false))).
Proof.
  induction el as [| |e up IH].
  - right. split; [intros a []|]. now right.
  - right. split; [intros a []|]. now left.
  - destruct (isVisibleRec_node e up) as [[Hs Heq]|[Hs Heq]].
    + left. split; [exact Heq|]. exists e. split; [now left | exact Hs].
    + rewrite Heq. simpl chain. simpl inDocument.
      destruct IH as [[Hf (a & Ha & Hsa)]|[Hnone Hout]].
      * left. split; [exact Hf|]. exists a. split; [now right | exact Hsa].
      * right. split; [|exact Hout].
        intros a [<-|Ha]; [exact Hs | now apply Hnone].
Qed.

(** X8.  The three outcomes of [isVisible]: false exactly when the
    element or an ancestor carries one of the four signals; true exactly
    when none does and the [parentNode] links end at a Document node; a
    throw, which is a [TypeError], exactly when none does and the links
    end at [null], as those of a detached element do. *)
Theorem isVisible_outcomes (el : NodeRef) :
  (isVisible el = Val false <-> exists a, In a (chain el) /\ HiddenSignal a) /\
  (isVisible el = Val true <->
   inDocument el = true /\ forall a, In a (chain el) -> ~ HiddenSignal a) /\
  (forall x, isVisible el = Exc x <->
   x = TypeError /\ inDocument el = false /\
   forall a, In a (chain el) -> ~ HiddenSignal a).
Proof.
  unfold isVisible.
  destruct (isVisibleRec_outcome el) as [[Hf Hex]|[Hnone [[Ht Hd]|[Ht Hd]]]];
    rewrite ?Hf, ?Ht.
  - destruct Hex as (a & Ha & Hs).
    split; [|split].
    + split; [intros _; now exists a | reflexivity].
    + split; [discriminate|]. intros (_ & Hn). exfalso. exact (Hn a Ha Hs).
    + intros x. split; [discriminate|]. intros (_ & _ & Hn). exfalso. exact (Hn a Ha Hs).
  - split; [|split].
    + split; [discriminate|]. intros (a & Ha & Hs). exfalso. exact (Hnone a Ha Hs).
    + split; [now intros _ | reflexivity].
    + intros x. split; [discriminate|]. intros (_ & Hd' & _). congruence.
  - split; [|split].
    + split; [discriminate|]. intros (a & Ha & Hs). exfalso. exact (Hnone a Ha Hs).
    + split; [discriminate|]. intros (Hd' & _). congruence.
    + intros x. split; [intros [= <-]; now repeat split|].
      intros (-> & _). reflexivity.
Qed.

(** X9.  Visibility is inherited: an element that [isVisible] finds
    visible has a parent that it finds visible, and an element whose
    parent it finds invisible is invisible. *)
Theorem isVisible_inherited (e : ElemData) (up : NodeRef) :
  (isVisible (RElement e up) = Val true -> isVisible up = Val true) /\
  (isVisible up = Val false -> isVisible (RElement e up) = Val false).
Proof.
  unfold isVisible.
  destruct (isVisibleRec_node e up) as [[_ Heq]|[_ Heq]]; rewrite Heq.
  - split; [discriminate | reflexivity].
  - split; intros H; exact H.
Qed.

(* ================================================================== *)
(** ** The documents behind the frames of the top document *)

Section Frames.
Context {engine : SelectorEngine}.

Lemma omap_length_le {X Y} (g : X -> option Y) (l : list X) :
  length (omap g l) <= length l.
Proof.
  induction l as [|x r IH]; [simpl; lia|].
  change (omap g (x :: r))
    with (match g x with Some y => y :: omap g r | None => omap g r end).
  destruct (g x); simpl; lia.
Qed.

(** X10.  [getAllDocuments] reads the frames of the top document only:
    its result begins with the top document, has at most one more entry
    per [iframe] of the top document, and is the same for two pages with
    the same top document, whatever their other documents hold. *)
Theorem getAllDocuments_top_only (pg : Page) :
  (exists rest,
     fst (getAllDocuments pg) = Val (document :: rest) /\
     length rest
     <= length (List.filter (tagIs "iframe") (elements (docOf pg document)))) /\
  (forall pg', docOf pg' document = docOf pg document ->
               fst (getAllDocuments pg') = fst (getAllDocuments pg)).
Proof.
  split.
  - rewrite getAllDocuments_reachable. unfold reachable. simpl.
    eexists; split; [reflexivity|]. apply omap_length_le.
  - intros pg' Htop. rewrite !getAllDocuments_reachable. simpl.
    unfold reachable. now rewrite Htop.
Qed.

End Frames.

(* ================================================================== *)
(** ** What [addNodes] leaves as it is *)

Section Frame.
Context {engine : SelectorEngine} {info : InfoModule}.

Lemma addNodes_grown (p : Params) (pg : Page) o st :
  addNodes p pg = (o, st) -> Grown (cssClass p) pg (page st).
Proof.
  intros Hrun.
  apply (Grown_steps _ _ _ _ _ (addNodes_steps _ _ _ _ Hrun)).
  apply Grown_refl.
Qed.

(** X11.  Whether it returns or throws, [addNodes] leaves every document
    that is not reachable as it is, keeps the number of documents, and
    leaves the same documents reachable. *)
Theorem addNodes_frame (p : Params) (pg : Page) o st :
  addNodes p pg = (o, st) ->
  (forall d, ~ In d (reachable pg) -> docOf (page st) d = docOf pg d) /\
  reachable (page st) = reachable pg /\
  length (docs (page st)) = length (docs pg).
Proof.
  intros Hrun. split; [|split].
  - intros d Hd.
    exact (Steps_elsewhere _ _ _ _ d (addNodes_steps _ _ _ _ Hrun) Hd).
  - exact (Grown_reachable _ _ _ (addNodes_grown _ _ _ _ Hrun)).
  - now destruct (addNodes_grown _ _ _ _ Hrun) as (Hlen & _).
Qed.


Lemma injectStylesheet_bodies (d d' : DocId) (pg : Page) :
  bodyChildren (docOf (snd (injectStylesheet d pg)) d') = bodyChildren (docOf pg d').
Proof.
  rewrite injectStylesheet_runs. cbn [snd].
  destruct (styled (docOf pg d)); [|reflexivity].
  destruct (documentElement (docOf pg d)) eqn:Hr; [|reflexivity].
  destruct (Nat.eq_dec d d') as [<-|Hne].
  - rewrite docOf_setDoc_eq.
    + apply bodyChildren_prependTo, stylesheetLink_not_body.
    + unfold docOf at 1. cbn [docs]. fold (docOf pg d). congruence.
  - now rewrite docOf_setDoc_ne.
Qed.

Lemma perDocument_no_targets (p : Params) (d : DocId) (st : AddState) :
  targetList p = [] ->
  perDocument p d st
  = (Val tt, mkAddState (snd (injectStylesheet d (page st))) (counter st)).
Proof.
  intros Hnil. rewrite perDocument_runs, Hnil. cbn [forEach]. unfold ret.
  f_equal. unfold liftPage. now destruct (injectStylesheet d (page st)).
Qed.

Lemma perDocuments_no_targets (p : Params) (ds : list DocId) :
  targetList p = [] ->
  forall st, exists st',
    forEach (perDocument p) ds st = (Val tt, st') /\
    counter st' = counter st /\
    forall d, bodyChildren (docOf (page st') d) = bodyChildren (docOf (page st) d).
Proof.
  intros Hnil. induction ds as [|d0 r IH]; intros st.
  - exists st. now repeat split.
  - cbn [forEach]. unfold bind at 1. rewrite (perDocument_no_targets _ _ _ Hnil).
    destruct (IH (mkAddState (snd (injectStylesheet d0 (page st))) (counter st)))
      as (st' & Hrun & Hcount & Hbodies).
    exists st'. split; [exact Hrun|]. split; [exact Hcount|].
    intros d. rewrite Hbodies. cbn [page]. apply injectStylesheet_bodies.
Qed.

(** Once every document of [ds] has no root element or has the
    stylesheet, a pass with no target changes no document. *)
Lemma perDocuments_settled (p : Params) (ds : list DocId) :
  targetList p = [] ->
  forall st,
    (forall d, In d ds ->
       documentElement (docOf (page st) d) = None \/ styled (docOf (page st) d) <> []) ->
    forall o st', forEach (perDocument p) ds st = (o, st') ->
                  docs (page st') = docs (page st).
Proof.
  intros Hnil. induction ds as [|d0 r IH]; intros st Hset o st' Hrun.
  - cbn in Hrun. now injection Hrun as _ <-.
  - cbn [forEach] in Hrun. unfold bind at 1 in Hrun.
    rewrite (perDocument_no_targets _ _ _ Hnil) in Hrun.
    assert (Hdocs : docs (snd (injectStylesheet d0 (page st))) = docs (page st)).
    { rewrite injectStylesheet_runs. cbn [snd].
      destruct (Hset d0 (or_introl eq_refl)) as [Hr|Hs].
      - assert (Hs : styled (docOf (page st) d0) = []).
        { unfold styled, elements. now rewrite Hr. }
        now rewrite Hs, Hr.
      - destruct (styled (docOf (page st) d0)); [congruence | reflexivity]. }
    apply IH in Hrun.
    + cbn [page] in Hrun. congruence.
    + intros d Hd. cbn [page]. unfold docOf. rewrite Hdocs.
      apply (Hset d (or_intror Hd)).
Qed.

(** X13.  With an empty target list [addNodes] returns 0 and never
    throws; it changes the children of no body (all it inserts is the
    stylesheet link), and a second such call changes no document. *)
Theorem addNodes_no_targets (p : Params) (pg : Page) :
  targetList p = [] ->
  exists st,
    addNodes p pg = (Val 0, st) /\
    (forall d, bodyChildren (docOf (page st) d) = bodyChildren (docOf pg d)) /\
    (forall o2 st2, addNodes p (page st) = (o2, st2) ->
                    docs (page st2) = docs (page st)).
Proof.
  intros Hnil.
  destruct (perDocuments_no_targets p (reachable pg) Hnil (mkAddState pg 0))
    as (st & Hloop & Hcount & Hbodies).
  assert (Hrun : addNodes p pg = (Val 0, st)).
  { rewrite addNodes_runs, Hloop. cbn [counter] in Hcount. now rewrite Hcount. }
  exists st. split; [exact Hrun|]. split; [exact Hbodies|].
  intros o2 st2 Hrun2.
  rewrite addNodes_runs in Hrun2.
  destruct (forEach (perDocument p) (reachable (page st)) (mkAddState (page st) 0))
    as [o3 st3] eqn:Hloop2.
  assert (Hdocs : docs (page st3) = docs (page st)).
  { apply (perDocuments_settled p _ Hnil _) in Hloop2; [exact Hloop2|].
    intros d Hd. cbn [page].
    rewrite (Grown_reachable _ _ _ (addNodes_grown _ _ _ _ Hrun)) in Hd.
    destruct (documentElement (docOf pg d)) eqn:Hr.
    - right. apply (perDocuments_style p (reachable pg) _ _ Hloop d Hd).
      cbn [page]. congruence.
    - left. destruct (addNodes_styles _ _ _ _ d Hrun) as (Hnone & _).
      now rewrite (Hnone Hr). }
  destruct o3; injection Hrun2 as _ <-; exact Hdocs.
Qed.

End Frame.

(* ================================================================== *)
(** ** Removal in general

    What [removeNodes] does to a page whatever put the marked elements
    there.  The identities of the elements of a document are taken to be
    distinct, as those of the nodes of a DOM tree are. *)

Section RemovalInGeneral.
Context {engine : SelectorEngine}.

Lemma onBody_twice (f g : Element -> Element) (doc : Document) :
  (forall x, isBodyTag (g x) = isBodyTag x) ->
  onBody f (onBody g doc) = onBody (fun b => f (g b)) doc.
Proof.
  intros Hg. unfold onBody.
  destruct (documentElement doc) as [[r ks]|] eqn:Hr; [|now rewrite Hr].
  destruct (tagIs "html" r) eqn:Hh.
  - cbn [documentElement]. rewrite Hh. now rewrite onFirst_twice.
  - now rewrite Hr, Hh.
Qed.

Lemma onBody_bodyless (f : Element -> Element) (doc : Document) :
  body doc = None -> onBody f doc = doc.
Proof.
  unfold body, onBody. destruct doc as [q [[r ks]|]]; cbn [documentElement]; [|reflexivity].
  destruct (tagIs "html" r); [|reflexivity].
  intros Hnone. now rewrite onFirst_none.
Qed.

Lemma body_removeChild_child (d : DocId) (e : ElemData) (pg : Page) :
  In (uid e) (bodyUids (docOf pg d)) ->
  body_removeChild d e pg
  = (Val tt, setDoc d (onBody (withoutChild (uid e)) (docOf pg d)) pg) /\
  docOf (setDoc d (onBody (withoutChild (uid e)) (docOf pg d)) pg) d
  = onBody (withoutChild (uid e)) (docOf pg d).
Proof.
  intros Hin. unfold bodyUids, bodyChildren in Hin. unfold body_removeChild.
  destruct (body (docOf pg d)) as [b|] eqn:Hb; [|destruct Hin].
  apply isChildOf_uids in Hin. rewrite Hin. split; [reflexivity|].
  apply docOf_setDoc_eq. apply body_root. congruence.
Qed.

Lemma body_removeChild_val (d : DocId) (e : ElemData) (pg pg' : Page) :
  body_removeChild d e pg = (Val tt, pg') ->
  In (uid e) (bodyUids (docOf pg d)) /\
  pg' = setDoc d (onBody (withoutChild (uid e)) (docOf pg d)) pg.
Proof.
  unfold body_removeChild, bodyUids, bodyChildren.
  destruct (body (docOf pg d)) as [b|] eqn:Hb; [|discriminate].
  destruct (isChildOf (uid e) b) eqn:Hc; [|discriminate].
  intros [= <-]. split; [now apply isChildOf_uids | reflexivity].
Qed.


Lemma onBody_ext (f g : Element -> Element) (doc : Document) :
  (forall b, f b = g b) -> onBody f doc = onBody g doc.
Proof.
  intros Hfg. unfold onBody.
  destruct (documentElement doc) as [[r ks]|]; [|reflexivity].
  destruct (tagIs "html" r); [|reflexivity].
  now rewrite (onFirst_ext isBodyTag f g ks Hfg).
Qed.

Lemma onBody_same (f : Element -> Element) (doc : Document) :
  (forall b, f b = b) -> onBody f doc = doc.
Proof.
  intros Hf. rewrite (onBody_ext f (fun b => b) doc Hf). unfold onBody.
  destruct doc as [q [[r ks]|]]; cbn [documentElement]; [|reflexivity].
  destruct (tagIs "html" r); [|reflexivity]. now rewrite onFirst_id.
Qed.

Lemma withoutChildren_nil (b : Element) : withoutChildren [] b = b.
Proof. now destruct b. Qed.

Lemma isBodyTag_unmarkedChildren q c b :
  isBodyTag (unmarkedChildren q c b) = isBodyTag b.
Proof. reflexivity. Qed.

(** The removals of a list of handles that all succeed. *)
Lemma removeEach_result (d : DocId) (l : list ElemData) :
  forall q q',
    forEach (fun element => body_removeChild d element) l q = (Val tt, q') ->
    docOf q' d = onBody (withoutChildren (map uid l)) (docOf q d) /\
    (forall d', d' <> d -> docOf q' d' = docOf q d').
Proof.
  induction l as [|e r IH]; intros q q' Hrun.
  - cbn in Hrun. injection Hrun as <-. split; [|reflexivity].
    symmetry. apply onBody_same, withoutChildren_nil.
  - cbn [forEach] in Hrun. unfold bind at 1 in Hrun.
    destruct (body_removeChild d e q) as [[[]|x] q1] eqn:H1; [|discriminate].
    apply body_removeChild_val in H1 as (Hin & ->).
    destruct (body_removeChild_child d e q Hin) as (_ & Hdoc).
    apply IH in Hrun as (Hd & Hother). split.
    + rewrite Hd, Hdoc. rewrite onBody_twice; [|intros x; apply isBodyTag_withoutChild].
      reflexivity.
    + intros d' Hne. rewrite (Hother d' Hne). apply docOf_setDoc_ne. congruence.
Qed.

Lemma NoDup_map_filter {X Y} (f : X -> Y) (P : X -> bool) (l : list X) :
  NoDup (map f l) -> NoDup (map f (List.filter P l)).
Proof.
  induction l as [|x r IH]; intros Hnd; [exact Hnd|].
  cbn [map] in Hnd. apply NoDup_cons in Hnd as (Hx & Hr).
  cbn [List.filter]. destruct (P x); [|now apply IH].
  cbn [map]. apply NoDup_cons. split; [|now apply IH].
  intros Hin. apply Hx.
  apply list_elem_of_In, in_map_iff in Hin as (y & Hy & Hin).
  apply list_elem_of_In, in_map_iff. exists y. split; [exact Hy|].
  now apply List.filter_In in Hin.
Qed.

Lemma NoDup_map_same {X Y} (f : X -> Y) (l : list X) (a b : X) :
  NoDup (map f l) -> In a l -> In b l -> f a = f b -> a = b.
Proof.
  induction l as [|x r IH]; intros Hnd Ha Hb Hf; [destruct Ha|].
  cbn [map] in Hnd. apply NoDup_cons in Hnd as (Hx & Hr).
  destruct Ha as [<-|Ha], Hb as [<-|Hb]; [reflexivity| | |now apply IH].
  - exfalso. apply Hx. rewrite Hf. apply list_elem_of_In, in_map, Hb.
  - exfalso. apply Hx. rewrite <- Hf. apply list_elem_of_In, in_map, Ha.
Qed.

Lemma dropChild_filter (u : nat) (ks : list Element) :
  NoDup (map (fun k => uid (data k)) ks) ->
  dropChild u ks = List.filter (fun k => negb (uid (data k) =? u)%nat) ks.
Proof.
  induction ks as [|k r IH]; intros Hnd; [reflexivity|].
  cbn [map] in Hnd. apply NoDup_cons in Hnd as (Hk & Hr).
  cbn [dropChild List.filter].
  destruct (uid (data k) =? u)%nat eqn:Hu; cbn [negb].
  - apply Nat.eqb_eq in Hu. symmetry. apply List.forallb_filter_id.
    apply forallb_forall. intros x Hx.
    apply negb_true_iff, Nat.eqb_neq. intros Heq. apply Hk.
    apply list_elem_of_In, in_map_iff. exists x. split; [congruence | exact Hx].
  - f_equal. now apply IH.
Qed.

Lemma filter_twice {X} (P Q : X -> bool) (l : list X) :
  List.filter P (List.filter Q l) = List.filter (fun x => Q x && P x) l.
Proof.
  induction l as [|x r IH]; [reflexivity|].
  cbn [List.filter]. destruct (Q x); cbn [List.filter andb]; [|exact IH].
  destruct (P x); [f_equal|]; exact IH.
Qed.

Lemma dropChildren_filter (us : list nat) :
  forall ks,
    NoDup (map (fun k => uid (data k)) ks) ->
    fold_left (fun ks u => dropChild u ks) us ks
    = List.filter (fun k => negb (existsb (Nat.eqb (uid (data k))) us)) ks.
Proof.
  induction us as [|u r IH]; intros ks Hnd.
  - cbn. symmetry. apply filter_all.
  - cbn [fold_left]. rewrite IH.
    + rewrite (dropChild_filter _ _ Hnd), filter_twice.
      apply List.filter_ext. intros k. cbn [existsb].
      now rewrite negb_orb.
    + rewrite (dropChild_filter _ _ Hnd). now apply NoDup_map_filter.
Qed.

Lemma bodyChildren_elements (doc : Document) (k : Element) :
  In k (bodyChildren doc) -> In (data k) (elements doc).
Proof.
  unfold bodyChildren. destruct (body doc) as [b|] eqn:Hb; [|intros []].
  now apply body_children_elements.
Qed.

Lemma flat_map_preorder_uids (ks : list Element) :
  forall k, In k ks -> In (data k) (flat_map preorder ks).
Proof.
  intros k Hk. apply in_flat_map. exists k. split; [exact Hk|].
  destruct k. now left.
Qed.

Lemma NoDup_body_uids (doc : Document) :
  NoDup (map uid (elements doc)) ->
  NoDup (map (fun k => uid (data k)) (bodyChildren doc)).
Proof.
  unfold bodyChildren, body, elements.
  destruct (documentElement doc) as [[r ks]|]; [|intros _; constructor].
  destruct (tagIs "html" r); [|intros _; constructor].
  cbn [preorder map]. intros Hnd. apply NoDup_cons in Hnd as (_ & Hnd).
  induction ks as [|k rest IH]; [constructor|].
  cbn [flat_map] in Hnd. rewrite map_app in Hnd.
  apply NoDup_app in Hnd as (Hk & Hdisj & Hrest).
  cbn [List.find]. destruct (isBodyTag k); [|now apply IH].
  destruct k as [b kids]. cbn [childNodes]. cbn [preorder map] in Hk.
  apply NoDup_cons in Hk as (_ & Hk). clear -Hk.
  induction kids as [|x xs IHx]; [constructor|].
  cbn [flat_map] in Hk. rewrite map_app in Hk.
  apply NoDup_app in Hk as (Hx & Hdisj & Hxs).
  cbn [map]. apply NoDup_cons. split; [|now apply IHx].
  intros Hin. apply list_elem_of_In, in_map_iff in Hin as (y & Hy & Hin).
  apply (Hdisj (uid (data x))).
  - destruct x as [dx ?]. cbn. left.
  - apply list_elem_of_In, in_map_iff. exists (data y). split; [exact Hy|].
    now apply flat_map_preorder_uids.
Qed.

(** In a document whose identities are distinct, the children of the
    body that leave are those that [div.c] selects. *)
Lemma withoutChildren_marked (c : string) (doc : Document) :
  NoDup (map uid (elements doc)) ->
  bodyChildren
    (onBody (withoutChildren (map uid (marked c doc))) doc)
  = List.filter (fun k => negb (isMarked (quirks doc) c (data k))) (bodyChildren doc) /\
  onBody (withoutChildren (map uid (marked c doc))) doc = cleaned c doc.
Proof.
  intros Hnd.
  assert (Hkids : forall b, body doc = Some b ->
            withoutChildren (map uid (marked c doc)) b
            = unmarkedChildren (quirks doc) c b).
  { intros b Hb. unfold withoutChildren, unmarkedChildren. f_equal.
    pose proof (NoDup_body_uids doc Hnd) as Hnb.
    unfold bodyChildren in Hnb. rewrite Hb in Hnb.
    rewrite (dropChildren_filter _ _ Hnb).
    apply filter_ext_in. intros k Hk. f_equal.
    assert (Hel : In (data k) (elements doc)) by now apply (body_children_elements doc b).
    destruct (isMarked (quirks doc) c (data k)) eqn:Hm.
    - apply existsb_exists. exists (uid (data k)). split; [|apply Nat.eqb_refl].
      apply in_map. apply List.filter_In. now split.
    - apply not_true_is_false. intros Hex.
      apply existsb_exists in Hex as (u & Hu & Heq). apply Nat.eqb_eq in Heq. subst u.
      apply in_map_iff in Hu as (e & He & Hin).
      apply List.filter_In in Hin as (Hin & Hme).
      assert (e = data k) by (apply (NoDup_map_same uid (elements doc)); auto).
      subst e. congruence. }
  assert (Heq : onBody (withoutChildren (map uid (marked c doc))) doc = cleaned c doc).
  { unfold cleaned. destruct (body doc) as [b|] eqn:Hb.
    - apply (onBody_ext_body _ _ _ b Hb). now apply Hkids.
    - now rewrite !onBody_bodyless. }
  split; [|exact Heq].
  rewrite Heq. unfold cleaned, bodyChildren.
  rewrite body_onBody; [|intros b; reflexivity].
  now destruct (body doc).
Qed.


Lemma preorder_split (P : Element -> bool) (l : list Element) :
  flat_map preorder l
  ≡ₚ flat_map preorder (List.filter (fun k => negb (P k)) l)
     ++ flat_map preorder (List.filter P l).
Proof.
  induction l as [|x r IH]; [reflexivity|].
  cbn [flat_map List.filter]. destruct (P x); cbn [negb flat_map].
  - rewrite IH at 1. apply Permutation_app_swap_app.
  - rewrite <- app_assoc. now apply Permutation_app_head.
Qed.

Lemma preorder_onFirst_split (q : bool) (c : string) (ks : list Element) :
  flat_map preorder ks
  ≡ₚ flat_map preorder (onFirst isBodyTag (unmarkedChildren q c) ks)
     ++ flat_map preorder
          (List.filter (fun k => isMarked q c (data k))
             (match List.find isBodyTag ks with
              | Some b => childNodes b
              | None => []
              end)).
Proof.
  induction ks as [|k r IH]; [reflexivity|].
  cbn [onFirst List.find]. destruct (isBodyTag k).
  - destruct k as [b kids]. cbn [flat_map preorder unmarkedChildren data childNodes].
    rewrite (preorder_split (fun k => isMarked q c (data k)) kids) at 1.
    cbn [app].
    apply Permutation_cons; [reflexivity|].
    rewrite <- !app_assoc. apply Permutation_app_head.
    apply Permutation_app_comm.
  - cbn [flat_map]. rewrite <- app_assoc. now apply Permutation_app_head.
Qed.

(** The elements of a document are those of the cleaned document and
    those of the children of the body that [div.c] selects. *)
Lemma cleaned_elements (c : string) (doc : Document) :
  elements doc
  ≡ₚ elements (cleaned c doc)
     ++ flat_map preorder
          (List.filter (fun k => isMarked (quirks doc) c (data k)) (bodyChildren doc)).
Proof.
  unfold cleaned, onBody, elements, bodyChildren, body.
  destruct (documentElement doc) as [[r ks]|] eqn:Hr; [|now rewrite Hr].
  destruct (tagIs "html" r).
  - cbn [documentElement preorder app].
    apply Permutation_cons; [reflexivity|]. apply preorder_onFirst_split.
  - rewrite Hr. cbn [List.filter flat_map]. now rewrite app_nil_r.
Qed.

Lemma quirks_cleaned (c : string) (doc : Document) :
  quirks (cleaned c doc) = quirks doc.
Proof. apply quirks_onBody. Qed.

Lemma cleaned_incl (c : string) (doc : Document) (e : ElemData) :
  In e (elements (cleaned c doc)) -> In e (elements doc).
Proof.
  intros He. apply list_elem_of_In. rewrite (cleaned_elements c doc).
  apply list_elem_of_In, in_app_iff. now left.
Qed.

Lemma cleaned_distinct (c : string) (doc : Document) :
  NoDup (map uid (elements doc)) -> NoDup (map uid (elements (cleaned c doc))).
Proof.
  intros Hnd. rewrite (cleaned_elements c doc), map_app in Hnd.
  now apply NoDup_app in Hnd as (Hnd & _).
Qed.

(** When its marked elements are children of the body, the cleaned
    document has none. *)
Lemma cleaned_unmarked (c : string) (doc : Document) :
  NoDup (map uid (elements doc)) -> MarkedInBody c doc ->
  marked c (cleaned c doc) = [].
Proof.
  intros Hnd Hin. apply filter_nil_iff. intros e He.
  apply not_true_is_false. intros Hm. rewrite quirks_cleaned in Hm.
  pose proof (cleaned_incl c doc e He) as Hold.
  assert (Hmarked : In e (marked c doc)) by (apply List.filter_In; now split).
  apply Hin in Hmarked. unfold bodyUids in Hmarked.
  apply in_map_iff in Hmarked as (k & Hk & Hkin).
  assert (Hdk : data k = e).
  { apply (NoDup_map_same uid (elements doc)); auto.
    now apply bodyChildren_elements. }
  pose proof Hnd as Hnd'.
  rewrite (cleaned_elements c doc), map_app in Hnd'.
  apply NoDup_app in Hnd' as (_ & Hdisj & _).
  apply (Hdisj (uid e)).
  - apply list_elem_of_In, in_map, He.
  - apply list_elem_of_In, in_map. rewrite <- Hdk.
    apply flat_map_preorder_uids. apply List.filter_In. split; [exact Hkin|].
    now rewrite Hdk.
Qed.

Lemma cleaned_bodyChildren (c : string) (doc : Document) :
  bodyChildren (cleaned c doc)
  = List.filter (fun k => negb (isMarked (quirks doc) c (data k))) (bodyChildren doc).
Proof.
  unfold cleaned, bodyChildren.
  rewrite body_onBody; [|intros b; reflexivity].
  now destruct (body doc).
Qed.

Lemma cleaned_twice (c : string) (doc : Document) :
  cleaned c (cleaned c doc) = cleaned c doc.
Proof.
  unfold cleaned. rewrite quirks_onBody, onBody_twice; [|intros b; reflexivity].
  apply onBody_ext. intros b. unfold unmarkedChildren. cbn [data childNodes].
  f_equal. rewrite filter_twice. apply List.filter_ext.
  intros k. now destruct (isMarked (quirks doc) c (data k)).
Qed.

Lemma cleaned_nothing (c : string) (doc : Document) :
  marked c doc = [] -> cleaned c doc = doc.
Proof.
  intros Hm. unfold cleaned.
  destruct (body doc) as [b|] eqn:Hb; [|now apply onBody_bodyless].
  rewrite (onBody_ext_body _ (fun x => x) doc b Hb).
  - now apply onBody_same.
  - unfold unmarkedChildren. destruct b as [bd kids]. cbn [data childNodes]. f_equal.
    apply List.forallb_filter_id, forallb_forall. intros k Hk.
    apply negb_true_iff.
    apply (proj1 (filter_nil_iff _ _) Hm).
    now apply (body_children_elements doc (Node bd kids)).
Qed.

(** One document: a removal that returns has cleaned it. *)
Lemma removeFrom_cleaned (c : string) (d : DocId) (q q' : Page) :
  isClassName c = true ->
  NoDup (map uid (elements (docOf q d))) ->
  removeFrom ("div." +:+ c) d q = (Val tt, q') ->
  docOf q' d = cleaned c (docOf q d) /\
  (forall d', d' <> d -> docOf q' d' = docOf q d') /\
  MarkedInBody c (docOf q d).
Proof.
  intros Hc Hnd Hrun. split; [|split].
  - rewrite (removeFrom_runs _ _ _ Hc) in Hrun.
    apply removeEach_result in Hrun as (Hd & _).
    rewrite Hd. now apply withoutChildren_marked.
  - rewrite (removeFrom_runs _ _ _ Hc) in Hrun.
    now apply removeEach_result in Hrun as (_ & Hother).
  - intros e He.
    destruct (in_dec Nat.eq_dec (uid e) (bodyUids (docOf q d))) as [Hin|Hn];
      [exact Hin|].
    destruct (removeFrom_stray c d q e Hc He Hn) as (x & q1 & Hexc).
    congruence.
Qed.

Lemma dropChild_keeps (u v : nat) (ks : list Element) :
  v <> u -> In v (map (fun k => uid (data k)) ks) ->
  In v (map (fun k => uid (data k)) (dropChild u ks)).
Proof.
  intros Hne. induction ks as [|k r IH]; [intros []|].
  cbn [map dropChild]. intros [Hk|Hin].
  - destruct (uid (data k) =? u)%nat eqn:Hu.
    + apply Nat.eqb_eq in Hu. congruence.
    + now left.
  - destruct (uid (data k) =? u)%nat; [exact Hin|]. right. now apply IH.
Qed.

(** The removals of handles that are distinct children of the body all
    succeed. *)
Lemma removeEach_children (d : DocId) (l : list ElemData) :
  NoDup (map uid l) ->
  forall q,
    (forall e, In e l -> In (uid e) (bodyUids (docOf q d))) ->
    exists q', forEach (fun element => body_removeChild d element) l q = (Val tt, q').
Proof.
  induction l as [|e r IH]; intros Hnd q Hin.
  - exists q. reflexivity.
  - cbn [map] in Hnd. apply NoDup_cons in Hnd as (He & Hr).
    destruct (body_removeChild_child d e q (Hin e (or_introl eq_refl))) as (Hrun & Hdoc).
    cbn [forEach]. unfold bind at 1. rewrite Hrun.
    apply (IH Hr). intros e' He'.
    rewrite Hdoc. unfold bodyUids. rewrite bodyChildren_withoutChild.
    apply dropChild_keeps.
    + intros Heq. apply He. rewrite <- Heq. apply list_elem_of_In, in_map, He'.
    + apply (Hin e' (or_intror He')).
Qed.

Lemma removeFrom_children (c : string) (d : DocId) (q : Page) :
  isClassName c = true ->
  NoDup (map uid (elements (docOf q d))) ->
  MarkedInBody c (docOf q d) ->
  exists q', removeFrom ("div." +:+ c) d q = (Val tt, q').
Proof.
  intros Hc Hnd Hin. rewrite (removeFrom_runs _ _ _ Hc).
  apply removeEach_children; [|exact Hin].
  unfold marked. now apply NoDup_map_filter.
Qed.

Lemma DistinctIds_cleaned (c : string) (d : DocId) (q q' : Page) :
  DistinctIds q ->
  docOf q' d = cleaned c (docOf q d) ->
  (forall d', d' <> d -> docOf q' d' = docOf q d') ->
  DistinctIds q'.
Proof.
  intros Hq Hd Hother d'. destruct (Nat.eq_dec d' d) as [->|Hne].
  - rewrite Hd. apply cleaned_distinct, Hq.
  - rewrite (Hother d' Hne). apply Hq.
Qed.

(** The loop over the documents, when it returns. *)
Lemma removeLoop_cleaned (c : string) (ds : list DocId) :
  isClassName c = true ->
  forall q q',
    DistinctIds q ->
    forEach (removeFrom ("div." +:+ c)) ds q = (Val tt, q') ->
    (forall d, In d ds ->
       docOf q' d = cleaned c (docOf q d) /\ MarkedInBody c (docOf q d)) /\
    (forall d, ~ In d ds -> docOf q' d = docOf q d).
Proof.
  intros Hc. induction ds as [|d0 r IH]; intros q q' Hq Hrun.
  - cbn in Hrun. injection Hrun as <-. split; [intros d []|reflexivity].
  - cbn [forEach] in Hrun. unfold bind at 1 in Hrun.
    destruct (removeFrom ("div." +:+ c) d0 q) as [[[]|x] q1] eqn:H1; [|discriminate].
    apply (removeFrom_cleaned c d0 q q1 Hc (Hq d0)) in H1 as (Hd0 & Hother & Hbody).
    pose proof (DistinctIds_cleaned c d0 q q1 Hq Hd0 Hother) as Hq1.
    destruct (IH q1 q' Hq1 Hrun) as (Hin & Hout).
    split.
    + intros d Hd. destruct (Nat.eq_dec d d0) as [->|Hne].
      * split; [|exact Hbody].
        destruct (in_dec Nat.eq_dec d0 r) as [Hr|Hr].
        -- destruct (Hin d0 Hr) as (-> & _). rewrite Hd0. apply cleaned_twice.
        -- now rewrite (Hout d0 Hr).
      * destruct Hd as [Hd|Hd]; [congruence|].
        destruct (Hin d Hd) as (Hdoc & Hb). rewrite (Hother d Hne) in Hdoc, Hb.
        now split.
    + intros d Hd.
      rewrite (Hout d (fun H => Hd (or_intror H))).
      apply Hother. intros ->. apply Hd. now left.
Qed.

(** The loop over the documents returns when the marked elements are
    children of the bodies. *)
Lemma removeLoop_children (c : string) (ds : list DocId) :
  isClassName c = true ->
  forall q,
    DistinctIds q ->
    (forall d, In d ds -> MarkedInBody c (docOf q d)) ->
    exists q', forEach (removeFrom ("div." +:+ c)) ds q = (Val tt, q').
Proof.
  intros Hc. induction ds as [|d0 r IH]; intros q Hq Hin.
  - exists q. reflexivity.
  - destruct (removeFrom_children c d0 q Hc (Hq d0) (Hin d0 (or_introl eq_refl)))
      as (q1 & H1).
    cbn [forEach]. unfold bind at 1. rewrite H1.
    apply (removeFrom_cleaned c d0 q q1 Hc (Hq d0)) in H1 as (Hd0 & Hother & Hbody).
    apply IH.
    + exact (DistinctIds_cleaned c d0 q q1 Hq Hd0 Hother).
    + intros d Hd. destruct (Nat.eq_dec d d0) as [->|Hne].
      * rewrite Hd0. intros e He.
        rewrite (cleaned_unmarked c _ (Hq d0) Hbody) in He. destruct He.
      * rewrite (Hother d Hne). apply Hin. now right.
Qed.

Lemma distinct_NoDup (l : list nat) : distinct l = true -> NoDup l.
Proof.
  induction l as [|x r IH]; [constructor|].
  cbn [distinct]. intros H. apply andb_prop in H as (Hx & Hr).
  apply NoDup_cons. split; [|now apply IH].
  intros Hin. apply negb_true_iff in Hx.
  assert (existsb (Nat.eqb x) r = true); [|congruence].
  apply existsb_exists. exists x. split; [now apply list_elem_of_In | apply Nat.eqb_refl].
Qed.

Lemma distinctIds_spec (pg : Page) : distinctIds pg = true -> DistinctIds pg.
Proof.
  unfold distinctIds, DistinctIds, docOf. intros H d.
  destruct (docs pg !! d) as [doc|] eqn:Hd; [|constructor].
  cbn [default]. apply distinct_NoDup.
  rewrite forallb_forall in H. apply H.
  apply list_elem_of_In. eapply list_elem_of_lookup_2. exact Hd.
Qed.

Lemma reachable_In (pg : Page) (d : DocId) :
  In d (reachable pg) <->
  d = document \/
  exists iframe, In iframe (elements (docOf pg document)) /\
                 tagIs "iframe" iframe = true /\ frameDoc iframe = Some d.
Proof.
  unfold reachable. simpl. rewrite <- list_elem_of_In, list_elem_of_omap.
  split.
  - intros [H|[e [Hin Hd]]]; [now left|right].
    apply list_elem_of_In, List.filter_In in Hin. exists e. tauto.
  - intros [H|[e [Hin [Htag Hd]]]]; [now left|right].
    exists e. split; [|assumption]. apply list_elem_of_In, List.filter_In. tauto.
Qed.

Lemma removeNodes_cleaned (c : string) (pg pg' : Page) :
  isClassName c = true -> DistinctIds pg ->
  removeNodes c pg = (Val tt, pg') ->
  (forall d, In d (reachable pg) ->
     docOf pg' d = cleaned c (docOf pg d) /\ MarkedInBody c (docOf pg d)) /\
  (forall d, ~ In d (reachable pg) -> docOf pg' d = docOf pg d).
Proof.
  intros Hc Hids Hrun. rewrite removeNodes_runs in Hrun.
  now apply (removeLoop_cleaned c _ Hc pg pg' Hids).
Qed.

Lemma removeNodes_reachable (c : string) (pg pg' : Page) :
  isClassName c = true -> DistinctIds pg ->
  removeNodes c pg = (Val tt, pg') ->
  forall d, In d (reachable pg') -> In d (reachable pg).
Proof.
  intros Hc Hids Hrun d Hd.
  destruct (removeNodes_cleaned c pg pg' Hc Hids Hrun) as (Hin & _).
  destruct (Hin document) as (Htop & _); [now left|].
  apply reachable_In in Hd. apply reachable_In.
  destruct Hd as [->|(fr & Hfr & Htag & Hdoc)]; [now left|right].
  exists fr. split; [|now split].
  rewrite Htop in Hfr. now apply cleaned_incl in Hfr.
Qed.

(** X14.  [removeNodes] with a class for which [div.] followed by the
    class is not a selector throws a [SyntaxError] and leaves the page
    as it is. *)
Theorem removeNodes_malformed (c : string) (pg : Page) :
  compile ("div." +:+ c) = None ->
  removeNodes c pg = (Exc SyntaxError, pg).
Proof.
  intros Hbad. rewrite removeNodes_runs. unfold reachable.
  cbn [forEach]. unfold bind at 1, removeFrom at 1, bind at 1, querySelectorAll at 1.
  now rewrite Hbad.
Qed.

(** X15.  When [removeNodes] returns, it has taken out of the body of
    every reachable document the children that [div.c] selects, those
    that [addNodes] did not create as well, and nothing else: the other
    children are there in their order, no element of a reachable
    document matches [div.c] any more, and the documents that are not
    reachable are as they were. *)
Theorem removeNodes_removes_marked (c : string) (pg pg' : Page) :
  isClassName c = true ->
  distinctIds pg = true ->
  removeNodes c pg = (Val tt, pg') ->
  (forall d, In d (reachable pg) ->
     docOf pg' d = cleaned c (docOf pg d) /\
     bodyChildren (docOf pg' d)
     = List.filter (fun k => negb (isMarked (quirks (docOf pg d)) c (data k)))
         (bodyChildren (docOf pg d)) /\
     marked c (docOf pg' d) = []) /\
  (forall d, ~ In d (reachable pg) -> docOf pg' d = docOf pg d).
Proof.
  intros Hc Hids Hrun. apply distinctIds_spec in Hids.
  destruct (removeNodes_cleaned c pg pg' Hc Hids Hrun) as (Hin & Hout).
  split; [|exact Hout].
  intros d Hd. destruct (Hin d Hd) as (Hdoc & Hbody).
  split; [exact Hdoc|]. rewrite Hdoc. split.
  - apply cleaned_bodyChildren.
  - now apply cleaned_unmarked.
Qed.

(** X16.  [removeNodes] returns exactly when, in every reachable
    document, every element that [div.c] selects is a child of the
    body. *)
Theorem removeNodes_returns_iff (c : string) (pg : Page) :
  isClassName c = true ->
  distinctIds pg = true ->
  (exists pg', removeNodes c pg = (Val tt, pg')) <->
  (forall d, In d (reachable pg) -> MarkedInBody c (docOf pg d)).
Proof.
  intros Hc Hids. apply distinctIds_spec in Hids. split.
  - intros (pg' & Hrun) d Hd.
    destruct (removeNodes_cleaned c pg pg' Hc Hids Hrun) as (Hin & _).
    now destruct (Hin d Hd).
  - intros Hin. rewrite removeNodes_runs.
    now apply removeLoop_children.
Qed.

(** X17.  [removeNodes] is idempotent: after a call that has returned, a
    second call with the same class returns and leaves the page as the
    first has left it. *)
Theorem removeNodes_twice (c : string) (pg pg' : Page) :
  isClassName c = true ->
  distinctIds pg = true ->
  removeNodes c pg = (Val tt, pg') ->
  removeNodes c pg' = (Val tt, pg').
Proof.
  intros Hc Hids Hrun. apply distinctIds_spec in Hids.
  rewrite removeNodes_runs. apply forEach_idle.
  intros d Hd.
  apply (removeNodes_reachable c pg pg' Hc Hids Hrun) in Hd.
  destruct (removeNodes_cleaned c pg pg' Hc Hids Hrun) as (Hin & _).
  destruct (Hin d Hd) as (Hdoc & Hbody).
  rewrite (removeFrom_runs _ _ _ Hc), Hdoc.
  now rewrite (cleaned_unmarked c _ (Hids d) Hbody).
Qed.

(** *** The first element that is not a child of the body *)

Lemma body_removeChild_kinds (d : DocId) (e : ElemData) (pg : Page) x pg' :
  body_removeChild d e pg = (Exc x, pg') ->
  pg' = pg /\
  x = match body (docOf pg d) with Some _ => NotFoundError | None => TypeError end.
Proof.
  unfold body_removeChild. destruct (body (docOf pg d)) as [b|].
  - destruct (isChildOf (uid e) b); [discriminate|]. intros [= <- <-]. now split.
  - intros [= <- <-]. now split.
Qed.

Lemma removeEach_kinds (d : DocId) (l : list ElemData) :
  forall pg x pg',
    forEach (fun element => body_removeChild d element) l pg = (Exc x, pg') ->
    x = NotFoundError \/ x = TypeError.
Proof.
  induction l as [|e r IH]; intros pg x pg' Hrun; [discriminate|].
  cbn [forEach] in Hrun. unfold bind at 1 in Hrun.
  destruct (body_removeChild d e pg) as [[[]|y] q] eqn:H1.
  - exact (IH _ _ _ Hrun).
  - injection Hrun as <- <-. apply body_removeChild_kinds in H1 as (_ & ->).
    destruct (body (docOf pg d)); auto.
Qed.

Lemma removeLoop_kinds (c : string) (ds : list DocId) :
  isClassName c = true ->
  forall pg x pg',
    forEach (removeFrom ("div." +:+ c)) ds pg = (Exc x, pg') ->
    x = NotFoundError \/ x = TypeError.
Proof.
  intros Hc. induction ds as [|d r IH]; intros pg x pg' Hrun; [discriminate|].
  cbn [forEach] in Hrun. unfold bind at 1 in Hrun.
  destruct (removeFrom ("div." +:+ c) d pg) as [[[]|y] q] eqn:H1.
  - exact (IH _ _ _ Hrun).
  - injection Hrun as <- <-. rewrite (removeFrom_runs _ _ _ Hc) in H1.
    exact (removeEach_kinds _ _ _ _ _ H1).
Qed.

Lemma body_withoutChildren (us : list nat) (doc : Document) :
  body (onBody (withoutChildren us) doc) = option_map (withoutChildren us) (body doc).
Proof. apply body_onBody. intros b. reflexivity. Qed.

Lemma bodyChildren_withoutChildren (us : list nat) (doc : Document) :
  NoDup (map uid (elements doc)) ->
  bodyChildren (onBody (withoutChildren us) doc)
  = List.filter (fun k => negb (existsb (Nat.eqb (uid (data k))) us)) (bodyChildren doc).
Proof.
  intros Hnd. pose proof (NoDup_body_uids doc Hnd) as Hnb.
  unfold bodyChildren in *. rewrite body_withoutChildren.
  destruct (body doc) as [b|]; [|reflexivity].
  cbn [option_map]. unfold withoutChildren. cbn [childNodes].
  now apply dropChildren_filter.
Qed.

(** The first match that is not a child of the body: where the call
    ends, and with what page. *)
Lemma removeNodes_first_stray (c : string) (pg : Page) D1 d D2 l1 e l2 :
  isClassName c = true -> DistinctIds pg ->
  reachable pg = D1 ++ d :: D2 ->
  (forall d', In d' D1 -> MarkedInBody c (docOf pg d')) ->
  marked c (docOf pg d) = l1 ++ e :: l2 ->
  (forall a, In a l1 -> In (uid a) (bodyUids (docOf pg d))) ->
  ~ In (uid e) (bodyUids (docOf pg d)) ->
  exists pg',
    removeNodes c pg
    = (Exc (match body (docOf pg d) with Some _ => NotFoundError | None => TypeError end),
       pg') /\
    docOf pg' d = onBody (withoutChildren (map uid l1)) (docOf pg d) /\
    (forall d', In d' D1 -> docOf pg' d' = cleaned c (docOf pg d')) /\
    (forall d', ~ In d' D1 -> d' <> d -> docOf pg' d' = docOf pg d').
Proof.
  intros Hc Hids HD HD1 Hm Hl1 He.
  assert (HdD1 : ~ In d D1).
  { intros Hin. apply He. apply (HD1 d Hin). rewrite Hm. apply in_app_iff. right. now left. }
  destruct (removeLoop_children c D1 Hc pg Hids HD1) as (q & Hq).
  destruct (removeLoop_cleaned c D1 Hc pg q Hids Hq) as (Hin & Hout).
  assert (Hqd : docOf q d = docOf pg d) by now apply Hout.
  assert (Hnd : NoDup (map uid (l1 ++ e :: l2))).
  { rewrite <- Hm. unfold marked. apply NoDup_map_filter, Hids. }
  assert (Hnd1 : NoDup (map uid l1)).
  { rewrite map_app in Hnd. now apply NoDup_app in Hnd as (Hnd & _). }
  destruct (removeEach_children d l1 Hnd1 q) as (q1 & Hq1).
  { intros a Ha. rewrite Hqd. now apply Hl1. }
  destruct (removeEach_result d l1 q q1 Hq1) as (Hd1 & Hother1).
  rewrite Hqd in Hd1.
  assert (Hstray : ~ In (uid e) (bodyUids (docOf q1 d))).
  { intros Hin1. apply He.
    apply removeEach_effect in Hq1 as (_ & Hincl). rewrite <- Hqd. now apply Hincl. }
  destruct (body_removeChild d e q1) as [[[]|x] q2] eqn:H2.
  { apply body_removeChild_val in H2 as (Hin2 & _). contradiction. }
  apply body_removeChild_kinds in H2 as H2'. destruct H2' as (-> & Hx).
  assert (Hbody : match body (docOf q1 d) with Some _ => NotFoundError | None => TypeError end
                  = match body (docOf pg d) with Some _ => NotFoundError | None => TypeError end).
  { rewrite Hd1, body_withoutChildren. now destruct (body (docOf pg d)). }
  rewrite Hbody in Hx. subst x.
  exists q1. split; [|split; [exact Hd1|split]].
  - rewrite removeNodes_runs, HD.
    apply (forEach_throw _ D1 D2 d pg q q1 _ Hq).
    rewrite (removeFrom_runs _ _ _ Hc), Hqd, Hm.
    now apply (forEach_throw _ l1 l2 e q q1 q1).
  - intros d' Hd'. rewrite Hother1; [now apply Hin | congruence].
  - intros d' Hd' Hne. rewrite Hother1; [now apply Hout | exact Hne].
Qed.


(** C8 (amended).  [removeNodes] removes each match by [removeChild] on
    the body of its document.  So, for a class name, when a reachable
    document holds an element that [div.c] selects and that is not a
    child of its body, [removeNodes] throws (a [NotFoundError], or a
    [TypeError] when the document has no body).  At the first such
    element of the pass the call ends: the documents before have lost
    their matches; its document is what it was but for the matches
    before it, which have left the body with what they hold, so that
    every other child of the body is there, the later matches among
    them; the other documents are as they were. *)
Theorem removeNodes_stray (c : string) (pg : Page) :
  isClassName c = true ->
  distinctIds pg = true ->
  (forall d e,
     In d (reachable pg) -> In e (marked c (docOf pg d)) ->
     ~ In (uid e) (bodyUids (docOf pg d)) ->
     exists x pg', removeNodes c pg = (Exc x, pg') /\
                   (x = NotFoundError \/ x = TypeError)) /\
  (forall D1 d D2 l1 e l2,
     reachable pg = D1 ++ d :: D2 ->
     (forall d', In d' D1 -> MarkedInBody c (docOf pg d')) ->
     marked c (docOf pg d) = l1 ++ e :: l2 ->
     (forall a, In a l1 -> In (uid a) (bodyUids (docOf pg d))) ->
     ~ In (uid e) (bodyUids (docOf pg d)) ->
     exists pg',
       removeNodes c pg
       = (Exc (match body (docOf pg d) with
               | Some _ => NotFoundError
               | None => TypeError
               end), pg') /\
       docOf pg' d = onBody (withoutChildren (map uid l1)) (docOf pg d) /\
       bodyChildren (docOf pg' d)
       = List.filter (fun k => negb (existsb (Nat.eqb (uid (data k))) (map uid l1)))
           (bodyChildren (docOf pg d)) /\
       (forall a, In a l1 -> ~ In (uid a) (bodyUids (docOf pg' d))) /\
       (forall k, In k (bodyChildren (docOf pg d)) -> ~ In (data k) l1 ->
                  In k (bodyChildren (docOf pg' d))) /\
       (forall d', In d' D1 ->
          docOf pg' d' = cleaned c (docOf pg d') /\ marked c (docOf pg' d') = []) /\
       (forall d', ~ In d' D1 -> d' <> d -> docOf pg' d' = docOf pg d')).
Proof.
  intros Hc Hids. apply distinctIds_spec in Hids. split.
  - intros d e Hd He Hn.
    assert (Hthrows : exists x pg', removeNodes c pg = (Exc x, pg')).
    { rewrite removeNodes_runs.
      destruct (in_split_first Nat.eq_dec d _ Hd) as (D1 & D2 & HD & Hfirst).
      rewrite HD, forEach_app.
      destruct (forEach (removeFrom ("div." +:+ c)) D1 pg) as [[[]|x] q] eqn:H1; [|eauto].
      pose proof (removeLoop_elsewhere _ _ _ _ _ _ Hc H1 Hfirst) as Hsame.
      destruct (removeFrom_stray c d q e Hc) as (x & q' & Hx); [now rewrite Hsame..|].
      exists x, q'. simpl. unfold bind. now rewrite Hx. }
    destruct Hthrows as (x & pg' & Hrun). exists x, pg'. split; [exact Hrun|].
    rewrite removeNodes_runs in Hrun. exact (removeLoop_kinds c _ Hc _ _ _ Hrun).
  - intros D1 d D2 l1 e l2 HD HD1 Hm Hl1 He.
    destruct (removeNodes_first_stray c pg D1 d D2 l1 e l2 Hc Hids HD HD1 Hm Hl1 He)
      as (pg' & Hrun & Hd & Hbefore & Hother).
    assert (Hkids : bodyChildren (docOf pg' d)
                    = List.filter
                        (fun k => negb (existsb (Nat.eqb (uid (data k))) (map uid l1)))
                        (bodyChildren (docOf pg d))).
    { rewrite Hd. apply bodyChildren_withoutChildren, Hids. }
    exists pg'. split; [exact Hrun|]. split; [exact Hd|]. split; [exact Hkids|].
    split; [|split; [|split; [|exact Hother]]].
    + intros a Ha Hin. unfold bodyUids in Hin. rewrite Hkids in Hin.
      apply in_map_iff in Hin as (k & Hk & Hin).
      apply List.filter_In in Hin as (_ & Hno).
      apply negb_true_iff in Hno.
      assert (existsb (Nat.eqb (uid (data k))) (map uid l1) = true); [|congruence].
      apply existsb_exists. exists (uid a). split; [now apply in_map|].
      apply Nat.eqb_eq. exact Hk.
    + intros k Hk Hnot. rewrite Hkids. apply List.filter_In. split; [exact Hk|].
      apply negb_true_iff, not_true_is_false. intros Hex.
      apply existsb_exists in Hex as (u & Hu & Heq). apply Nat.eqb_eq in Heq. subst u.
      apply in_map_iff in Hu as (a & Hua & Ha).
      apply Hnot. replace (data k) with a; [exact Ha|].
      apply (NoDup_map_same uid (elements (docOf pg d)) _ _ (Hids d)); auto.
      * assert (Hin : In a (marked c (docOf pg d))).
        { rewrite Hm. apply in_app_iff. now left. }
        now apply List.filter_In in Hin.
      * now apply bodyChildren_elements.
    + intros d' Hd'. split; [now apply Hbefore|].
      rewrite (Hbefore d' Hd'). apply cleaned_unmarked; [apply Hids | now apply HD1].
Qed.

End RemovalInGeneral.

(* ================================================================== *)
(** ** Handles to the elements of a document *)

Lemma Element_rect_list (P : Element -> Prop) :
  (forall d ks, Forall P ks -> P (Node d ks)) -> forall x, P x.
Proof.
  intros H. fix IH 1. intros [d ks]. apply H.
  induction ks as [|k r IHr]; constructor; [apply IH | exact IHr].
Qed.

(** What [locate] finds is under the node it was given. *)
Lemma locate_under (u : nat) (x : Element) :
  forall up found,
    locate u up x = Some found ->
    inDocument found = inDocument up /\
    In (data x) (chain found) /\
    (forall a, In a (chain up) -> In a (chain found)).
Proof.
  induction x as [d ks IH] using Element_rect_list. intros up found.
  rewrite locate_node. destruct (uid d =? u)%nat.
  - intros [= <-]. cbn. auto.
  - cbn [data]. revert IH. induction ks as [|k r IHr]; intros IH; [discriminate|].
    rewrite locateIn_cons. inversion IH as [|? ? Hk Hr]; subst.
    destruct (locate u (RElement d up) k) as [f|] eqn:Hf.
    + intros [= <-]. destruct (Hk _ _ Hf) as (Hdoc & _ & Hup).
      split; [exact Hdoc|]. split; [apply Hup; now left|].
      intros a Ha. apply Hup. now right.
    + now apply IHr.
Qed.

Lemma locateIn_finds (u : nat) (up : NodeRef) (ks : list Element) (k : Element) :
  In k ks -> locate u up k <> None -> locateIn u up ks <> None.
Proof.
  induction ks as [|k' r IH]; [intros []|].
  intros [->|Hin] Hk; rewrite locateIn_cons.
  - destruct (locate u up k); [discriminate | congruence].
  - destruct (locate u up k'); [discriminate | now apply IH].
Qed.

(** [locate] finds a node for the identity of every element below. *)
Lemma locate_finds (e : ElemData) (x : Element) :
  forall up, In e (preorder x) -> locate (uid e) up x <> None.
Proof.
  induction x as [d ks IH] using Element_rect_list. intros up He.
  rewrite locate_node. destruct (uid d =? uid e)%nat eqn:Hu; [discriminate|].
  destruct He as [->|He]; [rewrite Nat.eqb_refl in Hu; discriminate|].
  apply in_flat_map in He as (k & Hk & He).
  apply (locateIn_finds _ _ _ k Hk).
  rewrite List.Forall_forall in IH. now apply IH.
Qed.

(** A handle to an element of a document resolves to a node whose
    [parentNode] links end at the Document node, past the root. *)
Lemma refOf_attached (doc : Document) (e : ElemData) :
  In e (elements doc) ->
  inDocument (refOf doc e) = true /\
  forall r ks, documentElement doc = Some (Node r ks) -> In r (chain (refOf doc e)).
Proof.
  unfold elements, refOf.
  destruct (documentElement doc) as [x|]; [|intros []].
  intros He. pose proof (locate_finds e x RDocument He) as Hf.
  destruct (locate (uid e) RDocument x) as [found|] eqn:Hl; [|congruence].
  destruct (locate_under _ _ _ _ Hl) as (Hdoc & Hx & _).
  split; [exact Hdoc|]. intros r ks [= ->]. exact Hx.
Qed.

(* ================================================================== *)
(** ** When [addNodes] returns *)

Section Attached.
Context {engine : SelectorEngine} {info : InfoModule}.

Lemma isVisible_attached_val (doc : Document) (e : ElemData) :
  In e (elements doc) -> exists b, isVisible (refOf doc e) = Val b.
Proof.
  intros He. destruct (refOf_attached doc e He) as (Hdoc & _).
  unfold isVisible.
  destruct (isVisibleRec_outcome (refOf doc e)) as [[-> _]|[_ [[-> _]|[_ Hd]]]];
    [eauto | eauto | congruence].
Qed.

Lemma isVisible_root_hidden (doc : Document) (e : ElemData) :
  In e (elements doc) -> RootHidden doc -> isVisible (refOf doc e) = Val false.
Proof.
  intros He Hroot. destruct (refOf_attached doc e He) as (_ & Hr).
  unfold elements in He.
  destruct (documentElement doc) as [[r ks]|] eqn:Hd; [|destruct He].
  apply isVisibleRec_hidden. exists r. split; [now apply (Hr r ks) | now apply (Hroot r ks)].
Qed.

(** X18.  For a handle to an element of a document, [isVisible] does not
    throw; and it returns false for every element of a document whose
    root element carries one of the four signals. *)
Theorem isVisible_attached (doc : Document) (e : ElemData) :
  In e (elements doc) ->
  (exists b, isVisible (refOf doc e) = Val b) /\
  (RootHidden doc -> isVisible (refOf doc e) = Val false).
Proof.
  intros He. split; [now apply isVisible_attached_val|].
  now apply isVisible_root_hidden.
Qed.

Lemma forEach_returns {S A} (P : S -> Prop) (f : A -> M S unit) (l : list A) :
  (forall a s, In a l -> P s -> exists s', f a s = (Val tt, s') /\ P s') ->
  forall s, P s -> exists s', forEach f l s = (Val tt, s') /\ P s'.
Proof.
  induction l as [|a r IH]; intros Hf s Hs.
  - exists s. now split.
  - destruct (Hf a s (or_introl eq_refl) Hs) as (s1 & H1 & Hs1).
    cbn [forEach]. unfold bind at 1. rewrite H1.
    apply IH; [|exact Hs1]. intros b s2 Hb. apply Hf. now right.
Qed.

Lemma grown_bodied c lo hi old new :
  GrownDoc c lo hi old new -> Bodied old -> Bodied new.
Proof.
  intros (us & ovs & Has) Hold Hroot.
  destruct Has as (-> & _).
  rewrite body_graft; [|apply links_not_body].
  apply graft_root in Hroot. apply Hold in Hroot.
  destruct (body old); [discriminate | congruence].
Qed.

Lemma Steps_bodied c ds st st' (d : DocId) :
  Steps c ds st st' -> Bodied (docOf (page st) d) -> Bodied (docOf (page st') d).
Proof.
  intros Hs. pose proof (Grown_steps _ _ (page st) _ _ Hs (Grown_refl _ _)) as (_ & _ & Hd).
  apply (grown_bodied _ _ _ _ _ (Hd d)).
Qed.

Lemma kept_returns {X} (f : X -> Outcome bool) (l : list X) :
  (forall x, exists b, f x = Val b) -> exists l', kept f l = Val l'.
Proof.
  intros Hf. induction l as [|a r (rest & IH)]; [now exists []|].
  cbn [kept]. destruct (Hf a) as (keep & ->). rewrite IH. eauto.
Qed.

Lemma queried_returns (pg : Page) (d : DocId) (t : Target) :
  compile (selector t) <> None ->
  (forall f doc e, filter t = Some f -> exists b, f doc e = Val b) ->
  exists l, queried pg d t = Val l.
Proof.
  intros Hsel Hf. unfold queried.
  destruct (compile (selector t)) as [m|]; [|congruence]. cbv zeta.
  destruct (filter t) as [f|]; [|eauto].
  apply kept_returns. intros e. now apply (Hf f).
Qed.

Section Returns.
Variable p : Params.
Hypothesis getInfo_returns : forall doc e t, exists i, getInfo p doc e t = Val i.
Hypothesis evalInfo_returns :
  forall f i t, evalInfo p = Some f -> exists i', f i t = Val i'.

Lemma perElement_returns (d : DocId) (t : Target) (e : ElemData) (st : AddState) b :
  isVisible (refOf (docOf (page st) d) e) = Val b ->
  body (docOf (page st) d) <> None ->
  exists st', perElement p d t e st = (Val tt, st').
Proof.
  intros Hv Hb. rewrite perElement_runs. cbv zeta. rewrite Hv.
  destruct b; [|eauto].
  destruct (getInfo_returns (docOf (page st) d) e t) as (i & ->).
  assert (Hi : exists i', match evalInfo p with Some f => f i t | None => Val i end = Val i').
  { destruct (evalInfo p) as [f|] eqn:Hf; [now apply (evalInfo_returns f) | eauto]. }
  destruct Hi as (i' & ->).
  destruct (body (docOf (page st) d)); [eauto | congruence].
Qed.

Lemma perElements_return (d : DocId) (t : Target) (at_ : Page) (l : list ElemData) :
  (forall e, In e l -> uid e < nextId at_) ->
  (forall e, In e l -> In e (elements (docOf at_ d))) ->
  Bodied (docOf at_ d) ->
  forall st,
    Grown (cssClass p) at_ (page st) ->
    exists st', forEach (perElement p d t) l st = (Val tt, st').
Proof.
  intros Hids Hel Hbody st HG.
  destruct (forEach_returns (fun s => Grown (cssClass p) at_ (page s))
              (perElement p d t) l) with (s := st) as (st' & Hrun & _);
    [|exact HG|eauto].
  intros e s He Hs.
  destruct (isVisible_attached_val _ _ (Hel e He)) as (b & Hb).
  destruct (perElement_returns d t e s b) as (s' & Hs').
  - now rewrite (Grown_refOf _ _ _ d e Hs (Hids e He)).
  - destruct Hs as (_ & _ & Hd).
    apply (grown_bodied _ _ _ _ _ (Hd d) Hbody).
    apply (grown_rooted _ _ _ _ _ (Hd d)).
    specialize (Hel e He). unfold elements in Hel.
    destruct (documentElement (docOf at_ d)); [discriminate | destruct Hel].
  - exists s'. split; [exact Hs'|].
    apply (Grown_step _ _ _ _ _ Hs (perElement_step _ _ _ _ _ _ _ Hs')).
Qed.

Lemma perTarget_returns (d : DocId) (t : Target) (st : AddState) :
  compile (selector t) <> None ->
  (forall f doc e, filter t = Some f -> exists b, f doc e = Val b) ->
  IdsBelow (page st) -> Bodied (docOf (page st) d) ->
  exists st', perTarget p d t st = (Val tt, st').
Proof.
  intros Hsel Hfilter Hids Hbody. rewrite perTarget_runs.
  destruct (queried_returns (page st) d t Hsel Hfilter) as (l & Hl). rewrite Hl.
  apply (perElements_return d t (page st)); [| |exact Hbody|apply Grown_refl].
  - intros e He. apply (Hids d). now apply (queried_elements _ _ _ _ Hl).
  - now apply (queried_elements _ _ _ _ Hl).
Qed.

Lemma perDocument_returns (d : DocId) (st : AddState) :
  Forall (fun t => compile (selector t) <> None) (targetList p) ->
  FiltersReturn p ->
  IdsBelow (page st) -> Bodied (docOf (page st) d) ->
  exists st', perDocument p d st = (Val tt, st').
Proof.
  intros Hsel Hfilter Hids Hbody. rewrite perDocument_runs.
  destruct (injectStylesheet_step (cssClass p) d st) as (st1 & H1 & Hstep).
  rewrite H1. cbn [snd].
  pose proof (Steps_one _ [d] d _ _ (or_introl eq_refl) Hstep) as Hsteps.
  destruct (forEach_returns
              (fun s => IdsBelow (page s) /\ Bodied (docOf (page s) d))
              (perTarget p d) (targetList p)) with (s := st1) as (st' & Hrun & _);
    [| |eauto].
  - intros t s Ht (Hi & Hb).
    rewrite List.Forall_forall in Hsel.
    destruct (perTarget_returns d t s (Hsel t Ht)
                (fun f doc e Hf => Hfilter t f doc e Ht Hf) Hi Hb) as (s' & Hs').
    exists s'. split; [exact Hs'|].
    pose proof (perTarget_steps _ _ _ _ _ _ Hs') as Hst.
    split; [exact (Steps_ids _ _ _ _ Hst Hi) | exact (Steps_bodied _ _ _ _ d Hst Hb)].
  - split; [exact (Steps_ids _ _ _ _ Hsteps Hids) | exact (Steps_bodied _ _ _ _ d Hsteps Hbody)].
Qed.

Lemma perDocuments_return (ds : list DocId) (st : AddState) :
  Forall (fun t => compile (selector t) <> None) (targetList p) ->
  FiltersReturn p ->
  IdsBelow (page st) ->
  (forall d, In d ds -> Bodied (docOf (page st) d)) ->
  exists st', forEach (perDocument p) ds st = (Val tt, st').
Proof.
  intros Hsel Hfilter Hids Hbody.
  destruct (forEach_returns
              (fun s => IdsBelow (page s) /\ forall d, In d ds -> Bodied (docOf (page s) d))
              (perDocument p) ds) with (s := st) as (st' & Hrun & _);
    [|now split|eauto].
  intros d s Hd (Hi & Hb).
  destruct (perDocument_returns d s Hsel Hfilter Hi (Hb d Hd)) as (s' & Hs').
  exists s'. split; [exact Hs'|].
  pose proof (perDocument_steps _ _ _ _ _ Hs') as Hst.
  split; [exact (Steps_ids _ _ _ _ Hst Hi)|].
  intros d' Hd'. exact (Steps_bodied _ _ _ _ d' Hst (Hb d' Hd')).
Qed.

End Returns.

(** X19.  [addNodes] returns, rather than throws, when every selector of
    the target list is a selector, the filters of the targets,
    [getInfo] and [evalInfo] do not throw, and every reachable document
    that has a root element has a body. *)
Theorem addNodes_returns (p : Params) (pg : Page) :
  idsBelow pg = true ->
  Forall (fun t => compile (selector t) <> None) (targetList p) ->
  FiltersReturn p ->
  (forall doc e t, exists i, getInfo p doc e t = Val i) ->
  (forall f i t, evalInfo p = Some f -> exists i', f i t = Val i') ->
  (forall d, In d (reachable pg) -> Bodied (docOf pg d)) ->
  exists n st, addNodes p pg = (Val n, st).
Proof.
  intros Hids Hsel Hfilter Hget Heval Hbody.
  destruct (perDocuments_return p Hget Heval (reachable pg) (mkAddState pg 0) Hsel Hfilter)
    as (st & Hrun); [now apply idsBelow_spec | exact Hbody |].
  exists (counter st), st. now rewrite addNodes_runs, Hrun.
Qed.

End Attached.

(* ================================================================== *)
(** ** A throw of a filter *)

Section FilterThrows.
Context {engine : SelectorEngine} {info : InfoModule}.

Lemma kept_throws {A} (f : A -> Outcome bool) (l1 : list A) (e : A) (l2 : list A) x :
  (forall a, In a l1 -> exists b, f a = Val b) ->
  f e = Exc x ->
  kept f (l1 ++ e :: l2) = Exc x.
Proof.
  intros Hl1 He. induction l1 as [|a r IH]; cbn [app kept].
  - now rewrite He.
  - destruct (Hl1 a (or_introl eq_refl)) as (b & ->).
    rewrite IH; [reflexivity|]. intros a' Ha'. apply Hl1. now right.
Qed.

(** X21.  A throw of the filter of a target is not caught either: when
    the pass reaches a target whose filter throws for one of the
    elements that the selector gives, having returned for those before
    it, [addNodes] raises that exception and the call ends there, before
    any element of that target is processed. *)
Theorem addNodes_filter_throws (p : Params) (pg : Page) d t st m f l1 e l2 x :
  ReachesTarget p pg d t st ->
  compile (selector t) = Some m ->
  filter t = Some f ->
  List.filter (m (docOf (page st) d)) (elements (docOf (page st) d)) = l1 ++ e :: l2 ->
  (forall a, In a l1 -> exists b, f (docOf (page st) d) a = Val b) ->
  f (docOf (page st) d) e = Exc x ->
  addNodes p pg = (Exc x, st).
Proof.
  intros HT Hm Hf Hl Hl1 He.
  apply (target_throw_aborts _ _ _ _ _ _ _ HT).
  rewrite perTarget_runs. unfold queried. rewrite Hm, Hf. cbv zeta.
  rewrite Hl, (kept_throws _ _ _ _ x Hl1 He). reflexivity.
Qed.

End FilterThrows.

(* ================================================================== *)
(** ** A page that is hidden as a whole *)

Section HiddenRoot.
Context {engine : SelectorEngine} {info : InfoModule}.

Lemma RootHidden_prependTo (x : Element) (doc : Document) :
  RootHidden doc -> RootHidden (prependTo x doc).
Proof.
  unfold RootHidden, prependTo. intros H r ks.
  destruct (documentElement doc) as [[r0 ks0]|] eqn:Hd.
  - cbn [documentElement]. intros [= <- <-]. now apply (H r0 ks0).
  - rewrite Hd. discriminate.
Qed.

Lemma injectStylesheet_root_hidden (d d' : DocId) (pg : Page) :
  RootHidden (docOf pg d') -> RootHidden (docOf (snd (injectStylesheet d pg)) d').
Proof.
  intros H. rewrite injectStylesheet_runs. cbn [snd].
  destruct (styled (docOf pg d)); [|exact H].
  destruct (documentElement (docOf pg d)) eqn:Hr; [|exact H].
  destruct (Nat.eq_dec d d') as [<-|Hne].
  - rewrite docOf_setDoc_eq.
    + now apply RootHidden_prependTo.
    + unfold docOf at 1. cbn [docs]. fold (docOf pg d). congruence.
  - now rewrite docOf_setDoc_ne.
Qed.

Lemma forEach_fixed {S A} (f : A -> M S unit) (l : list A) (s : S) :
  (forall a, In a l -> exists o, f a s = (o, s)) ->
  exists o, forEach f l s = (o, s) /\
            ((forall a, In a l -> f a s = (Val tt, s)) -> o = Val tt).
Proof.
  induction l as [|a r IH]; intros Hf.
  - exists (Val tt). now split.
  - cbn [forEach]. unfold bind at 1.
    destruct (Hf a (or_introl eq_refl)) as (o & Ho). rewrite Ho.
    destruct o as [[]|x].
    + destruct IH as (o' & Hrun & Hval); [intros b Hb; apply Hf; now right|].
      exists o'. split; [exact Hrun|]. intros Hall. apply Hval.
      intros b Hb. apply Hall. now right.
    + exists (Exc x). split; [reflexivity|]. intros Hall.
      rewrite (Hall a (or_introl eq_refl)) in Ho. discriminate.
Qed.

(** Under a hidden root a target inserts nothing: all that can happen is
    a throw of its filter. *)
Lemma perTarget_root_hidden (p : Params) (d : DocId) (t : Target) (st : AddState) :
  compile (selector t) <> None ->
  RootHidden (docOf (page st) d) ->
  (exists o, perTarget p d t st = (o, st)) /\
  ((forall f doc e, filter t = Some f -> exists b, f doc e = Val b) ->
   perTarget p d t st = (Val tt, st)).
Proof.
  intros Hsel Hroot. rewrite perTarget_runs.
  assert (Hidle : forall l, queried (page st) d t = Val l ->
                            forEach (perElement p d t) l st = (Val tt, st)).
  { intros l Hl. apply forEach_idle. intros e He.
    rewrite perElement_runs. cbv zeta.
    rewrite (isVisible_root_hidden _ _ (queried_elements _ _ _ _ Hl e He) Hroot).
    reflexivity. }
  split.
  - destruct (queried (page st) d t) as [l|x] eqn:Hl; [|eauto].
    rewrite (Hidle l eq_refl). eauto.
  - intros Hf. destruct (queried_returns (page st) d t Hsel Hf) as (l & Hl).
    rewrite Hl. now apply Hidle.
Qed.

Lemma perDocument_root_hidden (p : Params) (d : DocId) (st : AddState) :
  Forall (fun t => compile (selector t) <> None) (targetList p) ->
  RootHidden (docOf (page st) d) ->
  exists o,
    perDocument p d st
    = (o, mkAddState (snd (injectStylesheet d (page st))) (counter st)) /\
    (FiltersReturn p -> o = Val tt).
Proof.
  intros Hsel Hroot. rewrite perDocument_runs.
  assert (Hst : snd (liftPage (injectStylesheet d) st)
                = mkAddState (snd (injectStylesheet d (page st))) (counter st)).
  { unfold liftPage. now destruct (injectStylesheet d (page st)). }
  rewrite Hst. rewrite List.Forall_forall in Hsel.
  set (st1 := mkAddState (snd (injectStylesheet d (page st))) (counter st)).
  assert (Hroot1 : RootHidden (docOf (page st1) d))
    by (cbn [page st1]; now apply injectStylesheet_root_hidden).
  destruct (forEach_fixed (perTarget p d) (targetList p) st1) as (o & Hrun & Hval).
  - intros t Ht. apply (perTarget_root_hidden p d t st1 (Hsel t Ht) Hroot1).
  - exists o. split; [exact Hrun|]. intros Hfilter. apply Hval.
    intros t Ht. apply (perTarget_root_hidden p d t st1 (Hsel t Ht) Hroot1).
    intros f doc e Hf. exact (Hfilter t f doc e Ht Hf).
Qed.

Lemma perDocuments_root_hidden (p : Params) (ds : list DocId) :
  Forall (fun t => compile (selector t) <> None) (targetList p) ->
  forall st,
    (forall d, In d ds -> RootHidden (docOf (page st) d)) ->
    exists o st',
      forEach (perDocument p) ds st = (o, st') /\
      counter st' = counter st /\
      (forall d, bodyChildren (docOf (page st') d) = bodyChildren (docOf (page st) d)) /\
      (FiltersReturn p -> o = Val tt).
Proof.
  intros Hsel. induction ds as [|d0 r IH]; intros st Hroot.
  - exists (Val tt), st. now repeat split.
  - cbn [forEach]. unfold bind at 1.
    destruct (perDocument_root_hidden p d0 st Hsel (Hroot d0 (or_introl eq_refl)))
      as (o0 & Hrun0 & Hval0).
    rewrite Hrun0.
    destruct o0 as [[]|x].
    + destruct (IH (mkAddState (snd (injectStylesheet d0 (page st))) (counter st)))
        as (o & st' & Hrun & Hcount & Hbodies & Hval).
      * intros d Hd. cbn [page]. apply injectStylesheet_root_hidden.
        apply Hroot. now right.
      * exists o, st'. split; [exact Hrun|]. split; [exact Hcount|].
        split; [|exact Hval].
        intros d. rewrite Hbodies. cbn [page]. apply injectStylesheet_bodies.
    + eexists _, _. split; [reflexivity|]. split; [reflexivity|]. split.
      * intros d. cbn [page]. apply injectStylesheet_bodies.
      * intros Hfilter. specialize (Hval0 Hfilter). discriminate.
Qed.

(** X20.  When the root element of every reachable document carries one
    of the four signals, and the selectors of the target list are
    selectors, [addNodes] counts nothing and changes the children of no
    body, whatever [getInfo] and [evalInfo] are: they are not called for
    an element that is not visible.  It returns 0 when the filters of the
    targets return; all that can make it throw is a filter. *)
Theorem addNodes_root_hidden (p : Params) (pg : Page) :
  Forall (fun t => compile (selector t) <> None) (targetList p) ->
  (forall d, In d (reachable pg) -> RootHidden (docOf pg d)) ->
  exists o st,
    addNodes p pg = (o, st) /\
    counter st = 0 /\
    (forall d, bodyChildren (docOf (page st) d) = bodyChildren (docOf pg d)) /\
    (FiltersReturn p -> o = Val 0).
Proof.
  intros Hsel Hroot.
  destruct (perDocuments_root_hidden p (reachable pg) Hsel (mkAddState pg 0) Hroot)
    as (o & st & Hrun & Hcount & Hbodies & Hval).
  cbn [counter] in Hcount. rewrite addNodes_runs, Hrun.
  destruct o as [[]|x].
  - exists (Val (counter st)), st. rewrite Hcount. now repeat split.
  - exists (Exc x), st. split; [reflexivity|]. split; [exact Hcount|].
    split; [exact Hbodies|]. intros Hfilter. specialize (Hval Hfilter). discriminate.
Qed.

End HiddenRoot.

(* ================================================================== *)
(** ** Concrete runs of the further properties *)

(** A paragraph with a span, a bold element and a second span. *)
Example countChildrenWithTagNames_sample :
  countChildrenWithTagNames
    (el 6 "P" [] [el 7 "SPAN" [] [el 9 "B" [] []]; el 8 "B" [] []; el 10 "SPAN" [] []])
    ["SPAN"; "I"]
  = 2.
Proof. reflexivity. Qed.

(** Lower-case names count none of the children of an HTML element. *)
Lemma countChildrenWithTagNames_upper_case_sample :
  countChildrenWithTagNames
    (el 6 "P" [] [el 7 "SPAN" [] []; el 8 "B" [] []]) ["span"; "b"] = 0.
Proof.
  apply countChildrenWithTagNames_upper_case.
  - repeat constructor.
  - repeat constructor; discriminate.
Defined.

(** A repeated entry and another order of the entries. *)
Lemma countChildrenWithTagNames_incl_sample :
  countChildrenWithTagNames
    (el 6 "P" [] [el 7 "SPAN" [] []; el 8 "B" [] []]) ["B"; "SPAN"; "B"]
  <= countChildrenWithTagNames
       (el 6 "P" [] [el 7 "SPAN" [] []; el 8 "B" [] []]) ["SPAN"; "B"].
Proof.
  apply countChildrenWithTagNames_incl.
  intros name. simpl. tauto.
Defined.

(** The span is its own closest [span]. *)
Lemma isDescendantOf_closest_span :
  isDescendantOf emptyDocument shownSpan ["div"; "span"] = Val true.
Proof.
  unfold shownSpan.
  destruct (isDescendantOf_closest emptyDocument (data (el 7 "SPAN" [] []))
              (RElement (data (el 6 "P" [] []))
                 (RElement (data (el 2 "BODY" [] []))
                    (RElement (data (el 0 "HTML" [] [])) RDocument)))
              ["div"; "span"]) as (Hsel & _).
  destruct Hsel as (b & Hb & Hiff); [repeat constructor; discriminate|].
  rewrite Hb. f_equal. apply Hiff.
  exists "span", (fun _ e => tagIs "span" e), (data (el 7 "SPAN" [] [])).
  repeat split; simpl; auto.
Defined.

(** [div.] is not a selector: the list throws when it is reached, and is
    not reached after a name that matches. *)
Lemma isDescendantOf_malformed_span :
  isDescendantOf emptyDocument shownSpan ["div"; "div."; "p"] = Exc SyntaxError /\
  isDescendantOf emptyDocument shownSpan ["p"; "div."; "div"] = Val true.
Proof.
  unfold shownSpan. split.
  - apply (isDescendantOf_malformed (engine := sampleEngine) emptyDocument _ _
             ["div"] ["p"] "div." eq_refl).
    + repeat constructor; discriminate.
    + intros name m a [<-|[]] [= <-] Ha. simpl in Ha.
      repeat (destruct Ha as [<-|Ha]; [reflexivity|]). destruct Ha.
  - apply (isDescendantOf_malformed (engine := sampleEngine) emptyDocument _ _
             ["p"] ["div"] "div." eq_refl).
    + repeat constructor; discriminate.
    + exists "p", (fun _ e => tagIs "p" e), (data (el 6 "P" [] [])).
      repeat split; simpl; auto.
Defined.

(** The span has a parent [p], and so a closest [p]. *)
Lemma hasParentWithName_isDescendantOf_span :
  isDescendantOf emptyDocument shownSpan ["div"; "p"] = Val true.
Proof.
  apply hasParentWithName_isDescendantOf.
  - repeat constructor; eexists; (split; [reflexivity | intros; reflexivity]).
  - intros p [= <-]. reflexivity.
  - reflexivity.
Defined.

(** The two part on a name with a letter that is not ASCII: the element
    [É] is the parent that [é] names, and is not what the selector [é]
    selects. *)
Example hasParentWithName_latin :
  hasParentWithName
    (RElement (data (el 7 "SPAN" [] [])) (RElement (data (el 6 capitalEAcute [] [])) RDocument))
    [smallEAcute]
  = Val true /\
  tagIs (toLowerCase smallEAcute) (data (el 6 capitalEAcute [] [])) = false.
Proof. split; reflexivity. Qed.

(** The converse fails: the body is an ancestor of the span, not its
    parent. *)
Example isDescendantOf_not_parent :
  isDescendantOf emptyDocument shownSpan ["body"] = Val true /\
  hasParentWithName shownSpan ["body"] = Val false.
Proof. split; reflexivity. Qed.

(** The parent of the span is a [P], which the entry [P] does not
    match. *)
Lemma hasParentWithName_lower_case_span :
  hasParentWithName shownSpan ["P"; "DIV"] = Val false.
Proof.
  apply (hasParentWithName_lower_case shownSpan ["P"; "DIV"] (data (el 6 "P" [] []))).
  - reflexivity.
  - repeat constructor; discriminate.
Defined.

(** A detached span: the walk arrives at [null]. *)
Example isVisible_detached_span :
  isVisible (RElement (data (el 7 "SPAN" [] [])) RNull) = Exc TypeError /\
  isVisible (RElement (data (elWith 7 "SPAN" [("hidden", "")] [])) RNull) = Val false.
Proof. split; reflexivity. Qed.

(** The paragraph of the visible span is visible; the span of the
    hidden paragraph is hidden. *)
Lemma isVisible_inherited_spans :
  isVisible (RElement (data (el 6 "P" [] []))
               (RElement (data (el 2 "BODY" [] []))
                  (RElement (data (el 0 "HTML" [] [])) RDocument))) = Val true /\
  isVisible hiddenSpan = Val false.
Proof.
  split.
  - apply (proj1 (isVisible_inherited (data (el 7 "SPAN" [] [])) _)). reflexivity.
  - unfold hiddenSpan. apply (proj2 (isVisible_inherited _ _)). reflexivity.
Defined.

(** Another document behind the frame changes nothing. *)
Lemma getAllDocuments_top_only_sample :
  fst (getAllDocuments (setDoc 1 (htmlDoc 10 [iframe 13 (Some 2)]) samplePage))
  = fst (getAllDocuments samplePage).
Proof.
  apply (proj2 (getAllDocuments_top_only samplePage)). reflexivity.
Defined.

(** A third document, which no frame of the top document shows, and a
    run that ends in a throw. *)
Lemma addNodes_frame_sample :
  docOf (page (snd (addNodes (sampleParams [paragraphs; malformed])
                      (mkPage (docs samplePage ++ [htmlDoc 30 [el 33 "P" [] []]]) 40)))) 2
  = htmlDoc 30 [el 33 "P" [] []].
Proof.
  destruct (addNodes_frame (sampleParams [paragraphs; malformed])
              (mkPage (docs samplePage ++ [htmlDoc 30 [el 33 "P" [] []]]) 40)
              _ _ (surjective_pairing _)) as (Hout & _).
  rewrite (Hout 2); [reflexivity|].
  vm_compute. intros [H|[H|[]]]; discriminate.
Defined.


(** No target: only the stylesheet links go in. *)
Lemma addNodes_no_targets_sample :
  exists st,
    addNodes (sampleParams []) samplePage = (Val 0, st) /\
    forall d, bodyChildren (docOf (page st) d) = bodyChildren (docOf samplePage d).
Proof.
  destruct (addNodes_no_targets (sampleParams []) samplePage eq_refl)
    as (st & Hrun & Hbodies & _).
  exists st. now split.
Defined.

(** The empty class gives the selector [div.]. *)
Lemma removeNodes_malformed_sample :
  removeNodes "" samplePage = (Exc SyntaxError, samplePage).
Proof. apply removeNodes_malformed. reflexivity. Defined.

(** On [markedPage] the marked [div]s leave, the one in the frame as
    well; the paragraph and the other [div] stay. *)
Lemma removeNodes_removes_marked_sample :
  map (fun k => uid (data k))
      (bodyChildren (docOf (snd (removeNodes "mark" markedPage)) document))
  = [3; 6] /\
  bodyChildren (docOf (snd (removeNodes "mark" markedPage)) 1) = [].
Proof.
  assert (Hrun : removeNodes "mark" markedPage
                 = (Val tt, snd (removeNodes "mark" markedPage)))
    by (vm_compute; reflexivity).
  destruct (removeNodes_removes_marked "mark" markedPage _ eq_refl eq_refl Hrun)
    as (Hin & _).
  split.
  - destruct (Hin document) as (_ & -> & _); [vm_compute; tauto | reflexivity].
  - destruct (Hin 1) as (_ & -> & _); [vm_compute; tauto | reflexivity].
Defined.

(** On [markedPage] the removal returns; on [strayPage] it cannot. *)
Lemma removeNodes_returns_iff_sample :
  MarkedInBody "mark" (docOf markedPage document) /\
  ~ exists pg', removeNodes "mark" strayPage = (Val tt, pg').
Proof.
  split.
  - refine (proj1 (removeNodes_returns_iff "mark" markedPage eq_refl eq_refl) _ document _).
    + eexists. vm_compute. reflexivity.
    + vm_compute. tauto.
  - intros Hret.
    pose proof (proj1 (removeNodes_returns_iff "mark" strayPage eq_refl eq_refl) Hret
                  document (or_introl eq_refl) (data (el 4 "DIV" ["mark"] []))) as Hin.
    assert (Hm : In (data (el 4 "DIV" ["mark"] []))
                    (marked "mark" (docOf strayPage document)))
      by (vm_compute; tauto).
    apply Hin in Hm. vm_compute in Hm.
    destruct Hm as [H|[H|[]]]; discriminate.
Defined.

(** A second removal on [markedPage]. *)
Lemma removeNodes_twice_sample :
  removeNodes "mark" (snd (removeNodes "mark" markedPage))
  = (Val tt, snd (removeNodes "mark" markedPage)).
Proof.
  apply (removeNodes_twice "mark" markedPage _ eq_refl eq_refl).
  vm_compute. reflexivity.
Defined.

(** The frame inside the marked [div] of [markedPage] goes with it: its
    document is cleaned by the call and is not reachable afterwards. *)
Example removeNodes_frame_removed :
  reachable markedPage = [0; 1] /\
  reachable (snd (removeNodes "mark" markedPage)) = [0].
Proof. split; reflexivity. Qed.

(** The span of [samplePage], read through its handle. *)
Lemma isVisible_attached_sample :
  exists b, isVisible (refOf (docOf samplePage document) (data (el 7 "SPAN" [] []))) = Val b.
Proof.
  apply (isVisible_attached (docOf samplePage document) (data (el 7 "SPAN" [] []))).
  vm_compute. tauto.
Defined.

(** The paragraphs of [samplePage]: nothing can throw. *)
Lemma addNodes_returns_sample :
  exists n st, addNodes (sampleParams [paragraphs]) samplePage = (Val n, st).
Proof.
  apply addNodes_returns.
  - reflexivity.
  - repeat constructor; discriminate.
  - intros t f doc e [<-|[]] Hf. discriminate Hf.
  - intros doc e t. eexists. reflexivity.
  - intros f i t Hf. discriminate Hf.
  - intros d Hd. vm_compute in Hd.
    destruct Hd as [<-|[<-|[]]]; intros _; vm_compute; discriminate.
Defined.

(** On [hiddenRootPage] a [getInfo] that would throw is never called. *)
Lemma addNodes_root_hidden_sample :
  exists st,
    addNodes (throwingParams [paragraphs]) hiddenRootPage = (Val 0, st) /\
    forall d, bodyChildren (docOf (page st) d) = bodyChildren (docOf hiddenRootPage d).
Proof.
  destruct (addNodes_root_hidden (throwingParams [paragraphs]) hiddenRootPage)
    as (o & st & Hrun & _ & Hbodies & Hval).
  - repeat constructor; discriminate.
  - intros d Hd. vm_compute in Hd. destruct Hd as [<-|[]].
    intros r ks Hr. vm_compute in Hr. injection Hr as <- _.
    right. right. left. vm_compute. discriminate.
  - exists st. split; [|exact Hbodies].
    rewrite Hrun. f_equal. apply Hval.
    intros t f doc e [<-|[]] Hf. discriminate Hf.
Defined.

(** The same parameters on [samplePage], where paragraphs are visible. *)
Example addNodes_getInfo_throws :
  fst (addNodes (throwingParams [paragraphs]) samplePage) = Exc (Thrown "getInfo").
Proof. reflexivity. Qed.

(** The removal on [laterStrayPage]: the [div] [4] leaves the body, the
    call throws at the [div] [6] inside the paragraph, and the [div] [7]
    stays. *)
Lemma removeNodes_stray_sample :
  (exists x pg', removeNodes "mark" laterStrayPage = (Exc x, pg') /\
                 (x = NotFoundError \/ x = TypeError)) /\
  fst (removeNodes "mark" laterStrayPage) = Exc NotFoundError /\
  map (fun k => uid (data k))
      (bodyChildren (docOf (snd (removeNodes "mark" laterStrayPage)) document))
  = [5; 7].
Proof.
  destruct (removeNodes_stray "mark" laterStrayPage eq_refl eq_refl) as (Hany & Hfirst).
  split.
  { apply (Hany document (data (el 6 "DIV" ["mark"] []))).
    - vm_compute. auto.
    - vm_compute. auto.
    - vm_compute. intros [H|[H|[H|[]]]]; discriminate. }
  destruct (Hfirst [] document []
              [data (el 4 "DIV" ["mark"] [])]
              (data (el 6 "DIV" ["mark"] []))
              [data (el 7 "DIV" ["mark"] [])])
    as (pg' & Hrun & _ & Hkids & _).
  - reflexivity.
  - intros d' [].
  - reflexivity.
  - intros a [<-|[]]. vm_compute. tauto.
  - vm_compute. intros [H|[H|[H|[]]]]; discriminate.
  - rewrite Hrun. cbn [fst snd]. split; [reflexivity|].
    rewrite Hkids. reflexivity.
Defined.

(** C8, as stated, fails: in [nestedStrayPage] the selector gives the
    elements [4], [5] and [6]; [4] is removed, [removeNodes] throws at
    [5], which is not a child of the body, and the later match [6] has
    left the document all the same, inside [4]. *)
Lemma removeNodes_stray_nested :
  map uid (marked "mark" (docOf nestedStrayPage document)) = [4; 5; 6] /\
  bodyUids (docOf nestedStrayPage document) = [4] /\
  fst (removeNodes "mark" nestedStrayPage) = Exc NotFoundError /\
  map uid (elements (docOf (snd (removeNodes "mark" nestedStrayPage)) document))
  = [0; 1; 2].
Proof. vm_compute. repeat split. Qed.

(** In a document in quirks mode [div.mark] selects the [div] of class
    [MARK], and [removeNodes] takes it out of the body. *)
Example removeNodes_quirks :
  map uid (marked "mark" (docOf quirksPage document)) = [4] /\
  markerFree "mark" quirksPage = false /\
  fst (removeNodes "mark" quirksPage) = Val tt /\
  bodyChildren (docOf (snd (removeNodes "mark" quirksPage)) document) = [].
Proof. vm_compute. repeat split. Qed.

(** The same body in a document that is not in quirks mode. *)
Example removeNodes_no_quirks :
  marked "mark" (docOf (mkPage [htmlDoc 0 [el 4 "DIV" ["MARK"] []]] 10) document) = [] /\
  removeNodes "mark" (mkPage [htmlDoc 0 [el 4 "DIV" ["MARK"] []]] 10)
  = (Val tt, mkPage [htmlDoc 0 [el 4 "DIV" ["MARK"] []]] 10).
Proof. vm_compute. repeat split. Qed.

(** The filter of the only target throws at the first paragraph of the
    top document. *)
Lemma addNodes_filter_throws_sample :
  addNodes (sampleParams [throwingFilter]) samplePage
  = (Exc (Thrown "filter"),
     snd (liftPage (injectStylesheet document) (mkAddState samplePage 0))).
Proof.
  apply (addNodes_filter_throws (sampleParams [throwingFilter]) samplePage
           document throwingFilter _
           (fun _ e => tagIs "p" e) (fun _ _ => Exc (Thrown "filter"))
           [] (data (el 3 "P" [] []))
           [data (el 6 "P" [] [el 7 "SPAN" [] []]);
            data (elWith 8 "P" [("aria-hidden", "true")] [])]).
  - exists [], [1], [], [], (mkAddState samplePage 0).
    repeat split; vm_compute; reflexivity.
  - reflexivity.
  - reflexivity.
  - vm_compute. reflexivity.
  - intros a [].
  - reflexivity.
Defined.
